(** * RIPIS interview engine: a shallow embedding and its properties

    The development follows [src/core/interview_state.py],
    [src/core/ai_engine.py] and the worker loop of [src/ui/main_window.py].

    Modelling conventions.
    - Python [str] values are [string]s of 8-bit characters read as ASCII:
      case mapping touches the 26 letters only and the white-space
      characters are the ASCII ones of [str.isspace].
    - The generative service and the wall clock are the environment: the
      [n]-th call of [generate_response] answers [ai n prompt], the [n]-th
      reading of [datetime.now()] is [clock n].
    - The optional callbacks [on_state_change] and [on_editor_write] are
      taken as installed: each call is an event of the machine's trace,
      next to the assignments of [self.state] and the generative calls.
    - The state machine and the worker are modelled with their [print]
      calls left out: they have no effect on a session whose log lines
      are written.  The service wrapper is modelled with its own, each of
      which either writes its line or raises.
    - The worker's call into the interview state either returns as the
      state machine does or is cut short by an exception, as the
      environment decides. *)

From Stdlib Require Import String Ascii List Bool Arith ZArith QArith Lia.
From Stdlib Require Import DecimalString.
From Stdlib Require Import Sorted.
Import ListNotations.
Open Scope string_scope.
Open Scope nat_scope.

(* ================================================================== *)
(** ** Python string operations *)

Module PyStr.

(** [str.isspace] on ASCII: TAB, LF, VT, FF, CR, FS, GS, RS, US, SPACE. *)
Definition is_space (c : ascii) : bool :=
  let n := nat_of_ascii c in
  ((9 <=? n) && (n <=? 13)) || ((28 <=? n) && (n <=? 32)).

Definition lower_char (c : ascii) : ascii :=
  let n := nat_of_ascii c in
  if (65 <=? n) && (n <=? 90) then ascii_of_nat (n + 32) else c.

Definition upper_char (c : ascii) : ascii :=
  let n := nat_of_ascii c in
  if (97 <=? n) && (n <=? 122) then ascii_of_nat (n - 32) else c.

Fixpoint smap (f : ascii -> ascii) (s : string) : string :=
  match s with
  | EmptyString => EmptyString
  | String c r => String (f c) (smap f r)
  end.

(** [s.lower()] and [s.upper()] *)
Definition lower : string -> string := smap lower_char.
Definition upper : string -> string := smap upper_char.

(** [s.lstrip(chars)], [s.rstrip(chars)], [s.strip(chars)], the set of
    characters given as a predicate *)
Fixpoint lstrip_by (p : ascii -> bool) (s : string) : string :=
  match s with
  | EmptyString => EmptyString
  | String c r => if p c then lstrip_by p r else s
  end.

Fixpoint rstrip_by (p : ascii -> bool) (s : string) : string :=
  match s with
  | EmptyString => EmptyString
  | String c r =>
      match rstrip_by p r with
      | EmptyString => if p c then EmptyString else String c EmptyString
      | r' => String c r'
      end
  end.

Definition strip_by (p : ascii -> bool) (s : string) : string :=
  rstrip_by p (lstrip_by p s).

(** [s.lstrip()], [s.rstrip()], [s.strip()] *)
Definition lstrip : string -> string := lstrip_by is_space.
Definition rstrip : string -> string := rstrip_by is_space.
Definition strip : string -> string := strip_by is_space.

(** [s.strip(ch)] for a one-character [ch] *)
Definition strip_char (ch : ascii) : string -> string :=
  strip_by (Ascii.eqb ch).

(** [s.split()]: the maximal runs of non-space characters, in order. *)
Fixpoint split (s : string) : list string :=
  match s with
  | EmptyString => []
  | String c r =>
      if is_space c then split r
      else match r with
           | EmptyString => [String c EmptyString]
           | String d _ =>
               if is_space d then String c EmptyString :: split r
               else match split r with
                    | w :: ws => String c w :: ws
                    | [] => [String c EmptyString]
                    end
           end
  end.

(** [sub in s] *)
Fixpoint contains (sub s : string) : bool :=
  prefix sub s ||
  match s with
  | EmptyString => false
  | String _ r => contains sub r
  end.

(** [s.replace(old, new)] for a non-empty [old]: occurrences are taken
    left to right and do not overlap.  [skip] counts the characters of
    the occurrence just replaced that are still to be dropped. *)
Fixpoint replace_from (skip : nat) (old new s : string) : string :=
  match s with
  | EmptyString => EmptyString
  | String c r =>
      match skip with
      | S k => replace_from k old new r
      | O =>
          if prefix old s
          then new ++ replace_from (String.length old - 1) old new r
          else String c (replace_from 0 old new r)
      end
  end.

Definition replace (old new s : string) : string := replace_from 0 old new s.

(** [s[:n]] and [s[n:]] *)
Definition take (n : nat) (s : string) : string := substring 0 n s.

Fixpoint drop (n : nat) (s : string) : string :=
  match n, s with
  | O, _ => s
  | S k, String _ r => drop k r
  | S _, EmptyString => EmptyString
  end.

(** [sep.join(l)] *)
Fixpoint join (sep : string) (l : list string) : string :=
  match l with
  | [] => EmptyString
  | [x] => x
  | x :: rest => x ++ sep ++ join sep rest
  end.

(** [str(n)] for a non-negative integer *)
Definition str_of_nat (n : nat) : string :=
  NilZero.string_of_uint (Nat.to_uint n).

(** the first index of [sub] in [s], if any *)
Fixpoint find (sub s : string) : option nat :=
  if prefix sub s then Some 0
  else match s with
       | EmptyString => None
       | String _ r => option_map S (find sub r)
       end.

(** [s.split(sub)[-1]] when [sub], non-empty, occurs in [s]: the text
    after the last occurrence *)
Fixpoint after_last (sub s : string) : option string :=
  match s with
  | EmptyString => None
  | String _ r =>
      match after_last sub r with
      | Some t => Some t
      | None => if prefix sub s then Some (drop (String.length sub) s) else None
      end
  end.

(** the characters LF and double quote *)
Definition nl : string := String (ascii_of_nat 10) EmptyString.
Definition dq : string := String (ascii_of_nat 34) EmptyString.

(** truthiness of a string: [if s] *)
Definition truthy (s : string) : bool :=
  match s with EmptyString => false | _ => true end.

Definition all_space (s : string) : Prop :=
  forall c, In c (list_ascii_of_string s) -> is_space c = true.

End PyStr.

Import PyStr.

(* ================================================================== *)
(** ** Input classifiers ([interview_state.py], lines 418-466) *)

Definition garbage_stoplist : list string := ["the"; "a"; "an"; "uh"; "um"].

Definition hint_keywords : list string :=
  ["hint"; "help"; "stuck"; "don't know"; "not sure"; "confused"; "clue"].

Definition done_keywords : list string :=
  ["done"; "finished"; "complete"; "that's it"; "that's my solution";
   "works"; "should work"].

(** [x in l] for a list of strings *)
Definition mem (x : string) (l : list string) : bool :=
  existsb (String.eqb x) l.

(** The number of words no longer than two characters. *)
Definition short_words (words : list string) : nat :=
  List.length (filter (fun w => String.length w <=? 2) words).

(** [short_words / len(words) > 0.6].  The quotient of the two counts is
    taken exactly; the source divides in binary floating point, whose
    correctly rounded quotient compares with the literal [0.6] the same
    way for every word count a string in memory can have. *)
Definition ratio_over_60 (short total : nat) : bool :=
  negb (Qle_bool (Z.of_nat short # Pos.of_nat total) (6 # 10)).

Definition _is_garbage_input (text : string) : bool :=
  if negb (truthy text) || (String.length text <? 3) then true
  else if mem (strip (lower text)) garbage_stoplist then true
  else
    let words := split text in
    if 3 <? List.length words then
      if ratio_over_60 (short_words words) (List.length words) then true
      else false
    else false.

Definition _is_asking_for_hint (user_input : string) : bool :=
  existsb (fun kw => contains kw (lower user_input)) hint_keywords.

Definition _seems_finished (user_input : string) : bool :=
  existsb (fun kw => contains kw (lower user_input)) done_keywords.


(* ================================================================== *)
(** ** The three searches of the response parser

    [re.search] with [re.IGNORECASE | re.DOTALL], written as the
    backtracking matcher runs them: the literal label, a greedy [\s*]
    that gives characters back, a lazy [(.+?)] that grows until the
    look-ahead holds. *)

Module Re.

Definition orelse {A} (x y : option A) : option A :=
  match x with Some _ => x | None => y end.

Definition is_some {A} (x : option A) : bool :=
  match x with Some _ => true | None => false end.

(** a literal under [re.IGNORECASE]: the rest of [s] after it *)
Fixpoint lit_ci (lit s : string) : option string :=
  match lit with
  | EmptyString => Some s
  | String a lit' =>
      match s with
      | EmptyString => None
      | String c r =>
          if Ascii.eqb (lower_char a) (lower_char c) then lit_ci lit' r
          else None
      end
  end.

(** [$] without [re.MULTILINE]: at the end, or before a final newline *)
Definition at_end (s : string) : bool :=
  String.eqb s EmptyString || String.eqb s nl.

(** [.*?] under [re.DOTALL], then the look-ahead [stop]: the captured text *)
Fixpoint lazy_star (stop : string -> bool) (s : string) : option string :=
  if stop s then Some EmptyString
  else match s with
       | EmptyString => None
       | String c r => option_map (String c) (lazy_star stop r)
       end.

(** [(.+?)] then the look-ahead *)
Definition lazy_plus (stop : string -> bool) (s : string) : option string :=
  match s with
  | EmptyString => None
  | String c r => option_map (String c) (lazy_star stop r)
  end.

(** greedy [\s*], then [k]: the longest run of spaces first *)
Fixpoint ws_star {A} (k : string -> option A) (s : string) : option A :=
  match s with
  | EmptyString => k s
  | String c r => if is_space c then orelse (ws_star k r) (k s) else k s
  end.

(** [re.search]: the first position at which [m] matches *)
Fixpoint search {A} (m : string -> option A) (s : string) : option A :=
  match m s with
  | Some g => Some g
  | None =>
      match s with
      | EmptyString => None
      | String _ r => search m r
      end
  end.

(** [QUESTION_TITLE:\s*(.+?)(?=---|$)], matched at the head of [s] *)
Definition title_at (s : string) : option string :=
  match lit_ci "QUESTION_TITLE:" s with
  | None => None
  | Some r => ws_star (lazy_plus (fun t => prefix "---" t || at_end t)) r
  end.

(** [QUESTION_TEXT:\s*(.+?)(?=VERBAL:|EXPLANATION:|$)] *)
Definition text_at (s : string) : option string :=
  match lit_ci "QUESTION_TEXT:" s with
  | None => None
  | Some r =>
      ws_star (lazy_plus (fun t => is_some (lit_ci "VERBAL:" t)
                                   || is_some (lit_ci "EXPLANATION:" t)
                                   || at_end t)) r
  end.

(** [(?:VERBAL|EXPLANATION):\s*(.+?)$] *)
Definition exp_at (s : string) : option string :=
  let rest r := ws_star (lazy_plus at_end) r in
  orelse
    (match lit_ci "VERBAL:" s with None => None | Some r => rest r end)
    (match lit_ci "EXPLANATION:" s with None => None | Some r => rest r end).

(** [match.group(1)] of each search, [None] when there is no match *)
Definition title_match : string -> option string := search title_at.
Definition text_match : string -> option string := search text_at.
Definition exp_match : string -> option string := search exp_at.

End Re.

(** [_parse_question_response] (lines 314-352).  [None] is Python's
    [None], which [not response] treats like the empty string. *)
Definition _parse_question_response (response : option string)
  : string * string * string :=
  let question_title := "Interview Question" in
  let question_text := "" in
  let explanation := "" in
  match response with
  | None =>
      (question_title, "Please solve the problem.",
       "Let me give you a problem to work on.")
  | Some response =>
      if negb (truthy response) then
        (question_title, "Please solve the problem.",
         "Let me give you a problem to work on.")
      else
        let question_title :=
          match Re.title_match response with
          | Some g => strip_char "'" (strip_char (ascii_of_nat 34) (strip g))
          | None => question_title
          end in
        let question_text :=
          match Re.text_match response with
          | Some g => strip g
          | None => question_text
          end in
        let explanation :=
          match Re.exp_match response with
          | Some g => strip g
          | None => explanation
          end in
        let '(explanation, question_text) :=
          if negb (truthy question_text) && negb (truthy explanation)
          then (response, response)
          else (explanation, question_text) in
        (strip (replace "---" "" question_title),
         strip (replace "---" "" question_text),
         strip (replace "---" "" explanation))
  end.

(* ================================================================== *)
(** ** Session data ([interview_state.py], lines 23-55) *)

Inductive InterviewState : Type :=
| IDLE | GREETING | TOPIC_SELECTION | QUESTION_PRESENTING
| CANDIDATE_SOLVING | GIVING_HINT | FOLLOW_UP | CLOSING | ENDED.

Definition state_eqb (a b : InterviewState) : bool :=
  match a, b with
  | IDLE, IDLE | GREETING, GREETING | TOPIC_SELECTION, TOPIC_SELECTION
  | QUESTION_PRESENTING, QUESTION_PRESENTING
  | CANDIDATE_SOLVING, CANDIDATE_SOLVING | GIVING_HINT, GIVING_HINT
  | FOLLOW_UP, FOLLOW_UP | CLOSING, CLOSING | ENDED, ENDED => true
  | _, _ => false
  end.

(** a mistake: [{"question", "wrong_answer", "correction"}] *)
Record Mistake : Type := mkMistake {
  question : string;
  wrong_answer : string;
  correction : string
}.

(** a transcript entry: [{"speaker", "text", "timestamp"}] *)
Record Entry : Type := mkEntry {
  speaker : string;
  text : string;
  timestamp : Z
}.

Record InterviewContext : Type := mkContext {
  interview_type : string;
  difficulty : string;
  current_question : string;
  current_code : string;
  hints_given : nat;
  questions_asked : list string;
  start_time : option Z;
  end_time : option Z;
  transcript : list Entry;
  follow_up_attempts : nat;
  max_retries : nat;
  last_question_type : string;
  mistakes : list Mistake
}.

(** [InterviewContext()] *)
Definition new_context : InterviewContext :=
  {| interview_type := ""; difficulty := "medium"; current_question := "";
     current_code := ""; hints_given := 0; questions_asked := [];
     start_time := None; end_time := None; transcript := [];
     follow_up_attempts := 0; max_retries := 5; last_question_type := "";
     mistakes := [] |}.

Definition set_interview_type (v : string) (c : InterviewContext) :=
  mkContext v (difficulty c) (current_question c) (current_code c)
    (hints_given c) (questions_asked c) (start_time c) (end_time c)
    (transcript c) (follow_up_attempts c) (max_retries c)
    (last_question_type c) (mistakes c).

Definition set_current_question (v : string) (c : InterviewContext) :=
  mkContext (interview_type c) (difficulty c) v (current_code c)
    (hints_given c) (questions_asked c) (start_time c) (end_time c)
    (transcript c) (follow_up_attempts c) (max_retries c)
    (last_question_type c) (mistakes c).

Definition set_current_code (v : string) (c : InterviewContext) :=
  mkContext (interview_type c) (difficulty c) (current_question c) v
    (hints_given c) (questions_asked c) (start_time c) (end_time c)
    (transcript c) (follow_up_attempts c) (max_retries c)
    (last_question_type c) (mistakes c).

Definition set_hints_given (v : nat) (c : InterviewContext) :=
  mkContext (interview_type c) (difficulty c) (current_question c)
    (current_code c) v (questions_asked c) (start_time c) (end_time c)
    (transcript c) (follow_up_attempts c) (max_retries c)
    (last_question_type c) (mistakes c).

Definition set_questions_asked (v : list string) (c : InterviewContext) :=
  mkContext (interview_type c) (difficulty c) (current_question c)
    (current_code c) (hints_given c) v (start_time c) (end_time c)
    (transcript c) (follow_up_attempts c) (max_retries c)
    (last_question_type c) (mistakes c).

Definition set_start_time (v : option Z) (c : InterviewContext) :=
  mkContext (interview_type c) (difficulty c) (current_question c)
    (current_code c) (hints_given c) (questions_asked c) v (end_time c)
    (transcript c) (follow_up_attempts c) (max_retries c)
    (last_question_type c) (mistakes c).

Definition set_end_time (v : option Z) (c : InterviewContext) :=
  mkContext (interview_type c) (difficulty c) (current_question c)
    (current_code c) (hints_given c) (questions_asked c) (start_time c) v
    (transcript c) (follow_up_attempts c) (max_retries c)
    (last_question_type c) (mistakes c).

Definition set_transcript (v : list Entry) (c : InterviewContext) :=
  mkContext (interview_type c) (difficulty c) (current_question c)
    (current_code c) (hints_given c) (questions_asked c) (start_time c)
    (end_time c) v (follow_up_attempts c) (max_retries c)
    (last_question_type c) (mistakes c).

Definition set_follow_up_attempts (v : nat) (c : InterviewContext) :=
  mkContext (interview_type c) (difficulty c) (current_question c)
    (current_code c) (hints_given c) (questions_asked c) (start_time c)
    (end_time c) (transcript c) v (max_retries c)
    (last_question_type c) (mistakes c).

Definition set_mistakes (v : list Mistake) (c : InterviewContext) :=
  mkContext (interview_type c) (difficulty c) (current_question c)
    (current_code c) (hints_given c) (questions_asked c) (start_time c)
    (end_time c) (transcript c) (follow_up_attempts c) (max_retries c)
    (last_question_type c) v.

(** The prompts of [prompt_templates.py], each with the values its
    [format] call fills in; [FOLLOW_UP_FEEDBACK] is the f-string of
    [_handle_follow_up_response] and [RAW_PROMPT] a prompt passed as is. *)
Inductive Prompt : Type :=
| GREETING_PROMPT
| QUESTION_PROMPT (interview_type difficulty : string)
| FEEDBACK_PROMPT (question current_code user_speech : string)
                  (hints_given : nat)
| HINT_PROMPT (question current_code : string) (hints_given hint_level : nat)
| FOLLOW_UP_PROMPT (question current_code : string)
| FOLLOW_UP_FEEDBACK (question current_code user_input : string)
| CLOSING_PROMPT (questions_covered mistakes_summary : string)
| RAW_PROMPT (user_input : string).

(** What the machine does to the world around it, in order. *)
Inductive Event : Type :=
| EvPhase (s : InterviewState)          (* self.state = s *)
| EvStateChange (s : InterviewState)    (* self.on_state_change(s) *)
| EvResetConversation                   (* ai_engine.reset_conversation() *)
| EvGenerate (p : Prompt)               (* ai_engine.generate_response(p) *)
| EvEditorWrite (content : string).     (* self.on_editor_write(content) *)

Definition is_generate (e : Event) : bool :=
  match e with EvGenerate _ => true | _ => false end.

(** The state machine object together with the counters of the two
    environment streams and the trace of its effects. *)
Record Machine : Type := mkMachine {
  state : InterviewState;
  context : InterviewContext;
  ai_calls : nat;
  clock_reads : nat;
  trace : list Event
}.

(** [InterviewStateMachine(ai_engine)] *)
Definition new_machine : Machine :=
  mkMachine IDLE new_context 0 0 [].

(** *** A state monad over [Machine] *)

Definition M (A : Type) : Type := Machine -> A * Machine.

Definition ret {A} (a : A) : M A := fun m => (a, m).

Definition bind {A B} (c : M A) (k : A -> M B) : M B :=
  fun m => let '(a, m') := c m in k a m'.

Declare Scope machine_scope.
Delimit Scope machine_scope with machine.
Notation "x <- c ;; k" := (bind c (fun x => k))
  (at level 61, c at next level, right associativity) : machine_scope.
Notation "c ;; k" := (bind c (fun _ => k))
  (at level 61, right associativity) : machine_scope.
Open Scope machine_scope.

Definition get_context : M InterviewContext := fun m => (context m, m).

Definition get_state : M InterviewState := fun m => (state m, m).

Definition update_context (f : InterviewContext -> InterviewContext) : M unit :=
  fun m => (tt, mkMachine (state m) (f (context m)) (ai_calls m)
                          (clock_reads m) (trace m)).

Definition emit (e : Event) : M unit :=
  fun m => (tt, mkMachine (state m) (context m) (ai_calls m)
                          (clock_reads m) (trace m ++ [e])).

(** [self.state = s] *)
Definition set_state (s : InterviewState) : M unit :=
  fun m => (tt, mkMachine s (context m) (ai_calls m) (clock_reads m)
                          (trace m ++ [EvPhase s])).

(** [if self.on_state_change: self.on_state_change(self.state)] *)
Definition notify_state_change : M unit :=
  s <- get_state ;; emit (EvStateChange s).

(* ================================================================== *)
(** ** The interview state machine ([interview_state.py], lines 205-591) *)

Section StateMachine.

(** the generative service and the wall clock *)
Variable ai : nat -> Prompt -> string.
Variable clock : nat -> Z.

(** [datetime.now()] *)
Definition now : M Z :=
  fun m => (clock (clock_reads m),
            mkMachine (state m) (context m) (ai_calls m)
                      (S (clock_reads m)) (trace m)).

(** [self.ai_engine.generate_response(prompt)] *)
Definition generate_response (p : Prompt) : M string :=
  fun m => (ai (ai_calls m) p,
            mkMachine (state m) (context m) (S (ai_calls m))
                      (clock_reads m) (trace m ++ [EvGenerate p])).

Definition _add_to_transcript (speaker text : string) : M unit :=
  t <- now ;;
  update_context (fun c => set_transcript
                             (transcript c ++ [mkEntry speaker text t]) c).

Definition start_interview : M string :=
  set_state GREETING ;;
  update_context (fun _ => new_context) ;;
  t <- now ;;
  update_context (set_start_time (Some t)) ;;
  emit EvResetConversation ;;
  notify_state_change ;;
  response <- generate_response GREETING_PROMPT ;;
  _add_to_transcript "AI" response ;;
  ret response.

Definition _present_question : M string :=
  set_state QUESTION_PRESENTING ;;
  notify_state_change ;;
  c <- get_context ;;
  let prompt := QUESTION_PROMPT (interview_type c) (difficulty c) in
  response <- generate_response prompt ;;
  let '(question_title, question_text, explanation) :=
    _parse_question_response (Some response) in
  update_context (set_current_question question_text) ;;
  update_context (fun c => set_questions_asked
                             (questions_asked c ++ [question_title]) c) ;;
  update_context (set_hints_given 0) ;;
  emit (EvEditorWrite ("/* Question: " ++ question_title ++ nl ++ nl
                       ++ question_text ++ nl ++ "*/" ++ nl ++ nl
                       ++ "// Your solution:" ++ nl)) ;;
  let explanation :=
    if negb (truthy explanation)
    then "Alright, I've written the question in the editor. Take a look at the problem and walk me through your approach before you start coding."
    else explanation in
  _add_to_transcript "AI" explanation ;;
  set_state CANDIDATE_SOLVING ;;
  notify_state_change ;;
  ret explanation.

Definition _handle_greeting_response (user_input : string) : M string :=
  let user_lower := lower user_input in
  update_context (set_interview_type
    (if contains "dsa" user_lower || contains "data structure" user_lower
        || contains "algorithm" user_lower || contains "coding" user_lower
     then "DSA"
     else if contains "system" user_lower || contains "design" user_lower
     then "System Design"
     else if contains "dbms" user_lower || contains "database" user_lower
             || contains "sql" user_lower
     then "DBMS"
     else if contains "os" user_lower || contains "operating" user_lower
     then "Operating Systems"
     else "DSA")) ;;
  _present_question.

Definition _handle_topic_selection (user_input : string) : M string :=
  _present_question.

(** the closing prompt's list of mistakes, numbered from [i] *)
Fixpoint mistake_lines (i : nat) (ms : list Mistake) : string :=
  match ms with
  | [] => ""
  | mistake :: rest =>
      (str_of_nat i ++ ". They said: " ++ dq
         ++ take 50 (wrong_answer mistake) ++ "..." ++ dq ++ nl)
      ++ ("   Correction: " ++ take 100 (correction mistake) ++ nl)
      ++ mistake_lines (S i) rest
  end.

Definition end_interview : M string :=
  set_state CLOSING ;;
  notify_state_change ;;
  t <- now ;;
  update_context (set_end_time (Some t)) ;;
  c <- get_context ;;
  let mistakes_summary :=
    match mistakes c with
    | [] => "No major mistakes recorded during this interview."
    | ms => "MISTAKES MADE DURING INTERVIEW:" ++ nl ++ mistake_lines 1 ms
    end in
  let prompt :=
    CLOSING_PROMPT (join ", " (questions_asked c)) mistakes_summary in
  response <- generate_response prompt ;;
  _add_to_transcript "AI" response ;;
  set_state ENDED ;;
  ret response.

(** [l[-2:]] *)
Definition last_two {A} (l : list A) : list A :=
  skipn (List.length l - 2) l.

Definition _move_on_or_conclude : M string :=
  c <- get_context ;;
  let feedback :=
    match mistakes c with
    | [] => ""
    | ms =>
        let recent_mistakes :=
          filter (fun m => contains (take 50 (current_question c))
                                    (question m)) ms in
        match recent_mistakes with
        | [] => ""
        | _ =>
            fold_left (fun feedback m => feedback ++ correction m ++ " ")
                      (last_two recent_mistakes)
                      "Before we move on, let me give you some feedback. "
            ++ nl ++ nl
        end
    end in
  if List.length (questions_asked c) <? 2 then
    next_question <- _present_question ;;
    ret (feedback ++ "Let's move on to the next problem. " ++ next_question)
  else
    closing <- end_interview ;;
    ret (feedback ++ closing).

Definition _give_hint : M string :=
  set_state GIVING_HINT ;;
  notify_state_change ;;
  update_context (fun c => set_hints_given (hints_given c + 1) c) ;;
  c <- get_context ;;
  let hint_level := Nat.min (hints_given c) 3 in
  let prompt := HINT_PROMPT (current_question c) (current_code c)
                            (hints_given c - 1) hint_level in
  response <- generate_response prompt ;;
  _add_to_transcript "AI" response ;;
  set_state CANDIDATE_SOLVING ;;
  ret response.

Definition _ask_follow_up : M string :=
  set_state FOLLOW_UP ;;
  notify_state_change ;;
  c <- get_context ;;
  let prompt := FOLLOW_UP_PROMPT (current_question c) (current_code c) in
  response <- generate_response prompt ;;
  _add_to_transcript "AI" response ;;
  ret response.

(** the tags removed from the displayed feedback, in the source's order *)
Definition display_tags : list string :=
  ["[CORRECT]"; "[WRONG]"; "[UNCLEAR]"; "[correct]"; "[wrong]"; "[unclear]"].

Definition clean_display (response : string) : string :=
  fold_left (fun display_response tag =>
               strip (replace tag "" display_response))
            display_tags response.

(** the correction text stored with a mistake (line 405) *)
Definition correction_of (response : string) : string :=
  strip (replace "[wrong]" "" (replace "[WRONG]" "" response)).

Definition _handle_solving_response (user_input : string) : M string :=
  if _is_garbage_input user_input then
    ret "I didn't catch that. Could you repeat?"
  else if _is_asking_for_hint user_input then
    update_context (set_follow_up_attempts 0) ;;
    _give_hint
  else if _seems_finished user_input then
    update_context (set_follow_up_attempts 0) ;;
    _ask_follow_up
  else
    update_context (fun c =>
      set_follow_up_attempts (follow_up_attempts c + 1) c) ;;
    c <- get_context ;;
    if max_retries c <=? follow_up_attempts c then
      update_context (set_follow_up_attempts 0) ;;
      _move_on_or_conclude
    else
      let prompt := FEEDBACK_PROMPT (current_question c) (current_code c)
                                    user_input (hints_given c) in
      response <- generate_response prompt ;;
      let response :=
        if negb (truthy response) then "[UNCLEAR] Okay, continue."
        else response in
      (if contains "[WRONG]" (upper response) then
         update_context (fun c =>
           set_mistakes
             (mistakes c ++ [mkMistake (take 100 (current_question c))
                                       user_input
                                       (correction_of response)]) c)
       else ret tt) ;;
      let display_response := clean_display response in
      _add_to_transcript "AI" display_response ;;
      ret display_response.

Definition _handle_post_hint (user_input : string) : M string :=
  set_state CANDIDATE_SOLVING ;;
  _handle_solving_response user_input.

Definition _handle_follow_up_response (user_input : string) : M string :=
  c <- get_context ;;
  let prompt := FOLLOW_UP_FEEDBACK (current_question c) (current_code c)
                                   user_input in
  response <- generate_response prompt ;;
  _add_to_transcript "AI" response ;;
  c <- get_context ;;
  if 2 <=? List.length (questions_asked c) then end_interview
  else ret response.

Definition _generate_contextual_response (user_input : string) : M string :=
  response <- generate_response (RAW_PROMPT user_input) ;;
  _add_to_transcript "AI" response ;;
  ret response.

(** the [if]/[elif] chain of [process_user_input] (lines 229-241) *)
Definition dispatch (user_input : string) : M string :=
  s <- get_state ;;
  match s with
  | GREETING => _handle_greeting_response user_input
  | TOPIC_SELECTION => _handle_topic_selection user_input
  | CANDIDATE_SOLVING => _handle_solving_response user_input
  | FOLLOW_UP => _handle_follow_up_response user_input
  | GIVING_HINT => _handle_post_hint user_input
  | _ => _generate_contextual_response user_input
  end.

(** the two statements before the chain (lines 226-227) *)
Definition record_input (user_input current_code : string) : M unit :=
  _add_to_transcript "User" user_input ;;
  update_context (set_current_code current_code).

Definition process_user_input (user_input current_code : string) : M string :=
  record_input user_input current_code ;;
  dispatch user_input.

Definition request_hint : M string :=
  s <- get_state ;;
  if state_eqb s CANDIDATE_SOLVING then _give_hint
  else ret "Hints are available while solving a problem.".

End StateMachine.

(** *** The session summary (lines 577-585) *)

(** [str(end_time - start_time)] or the placeholder ["In progress"]; the
    elapsed time is kept as a number, in the clock's unit. *)
Inductive Duration : Type :=
| InProgress
| Elapsed (d : Z).

Record Summary : Type := mkSummary {
  sum_interview_type : string;
  sum_questions_asked : list string;
  total_hints : nat;
  duration : Duration;
  sum_transcript : list Entry
}.

(** [None] stands for the [TypeError] of subtracting [None] from a time. *)
Definition get_session_summary (m : Machine) : option Summary :=
  let c := context m in
  match
    match end_time c with
    | Some e =>
        match start_time c with
        | Some s => Some (Elapsed (e - s)%Z)
        | None => None
        end
    | None => Some InProgress
    end
  with
  | Some d => Some (mkSummary (interview_type c) (questions_asked c)
                              (hints_given c) d (transcript c))
  | None => None
  end.

(* ================================================================== *)
(** ** The generative-service wrapper ([ai_engine.py], lines 15-120) *)

Module AIEngine.

(** exceptions, all of them subclasses of [Exception] *)
Inductive Exn : Type :=
| Timeout            (* requests.exceptions.Timeout *)
| ConnectionError    (* requests.exceptions.ConnectionError *)
| EncodeError        (* UnicodeEncodeError: a stream cannot encode a text *)
| OtherError.        (* JSON decoding, attribute and type errors, ... *)

Inductive Result (A : Type) : Type :=
| Returns (a : A)
| Raises (e : Exn).
Arguments Returns {A} a.
Arguments Raises {A} e.

(** [result.get("message", {}).get("content", "")] *)
Inductive Content : Type :=
| ContentText (s : string)   (* a string *)
| ContentFalsy               (* [None], [0], an empty container *)
| ContentOther.              (* any other value: [re.sub] rejects it *)

Inductive Body : Type :=
| BadBody                    (* [response.json()] or a [.get] raises *)
| Message (c : Content).

(** what [requests.post] does; [text] is [response.text] *)
Inductive Reply : Type :=
| PostRaises (e : Exn)
| Answer (status_code : Z) (text : string) (body : Body).

(** the lines [generate_response] writes to standard output, each with
    what its f-string interpolates *)
Inductive Line : Type :=
| Generating (prompt : string)       (* line 53, with [prompt[:80]] *)
| ResponseStatus (status_code : Z)   (* line 71 *)
| GotResponse (text : string)        (* line 80 *)
| ErrorResponse (text : string)      (* line 88, with [response.text] *)
| TimedOut                           (* line 92 *)
| Error (e : Exn).                   (* line 95 *)

(** a chat message: role and content *)
Definition Msg : Type := (string * string)%type.

Record Engine : Type := mkEngine {
  system_prompt : string;
  conversation_history : list Msg
}.

(** [l[-n:]] for a positive [n] *)
Definition last_n {A} (n : nat) (l : list A) : list A :=
  skipn (List.length l - n) l.

(** [re.sub(r'<think>.*?</think>', '', s, flags=re.DOTALL)]; [skip] counts
    the characters of the block being removed that are still to be
    dropped. *)
Fixpoint sub_think (skip : nat) (s : string) : string :=
  match s with
  | EmptyString => EmptyString
  | String c r =>
      match skip with
      | S k => sub_think k r
      | O =>
          if prefix "<think>" s then
            match find "</think>" (drop 7 s) with
            | Some i => sub_think (6 + i + 8) r
            | None => String c (sub_think 0 r)
            end
          else String c (sub_think 0 r)
      end
  end.

Definition _clean_response (response : Content) : Result string :=
  match response with
  | ContentFalsy => Returns ""
  | ContentOther => Raises OtherError
  | ContentText response =>
      if negb (truthy response) then Returns ""
      else
        let cleaned := sub_think 0 response in
        let cleaned :=
          if contains "</think>" response then
            match after_last "</think>" response with
            | Some tail => tail
            | None => cleaned
            end
          else cleaned in
        Returns (strip cleaned)
  end.

Definition _build_messages (self : Engine) (prompt : string)
                           (context : option string) : list Msg :=
  let messages := [("system", system_prompt self)] in
  let history_limit := 20 in
  let recent_history := last_n history_limit (conversation_history self) in
  let messages := (messages ++ recent_history)%list in
  let prompt :=
    match context with
    | Some ctx =>
        if truthy ctx then "Context:" ++ nl ++ ctx ++ nl ++ nl ++ prompt
        else prompt
    | None => prompt
    end in
  (messages ++ [("user", prompt)])%list.

Section Service.

(** the service: what the POST of a message list comes back with *)
Variable post : list Msg -> Reply.

(** standard output: [print] writes the line or raises *)
Variable print : Line -> Result unit.

(** the body of the [try] block (lines 56-89) *)
Definition try_generate (self : Engine) (prompt : string)
                        (messages : list Msg) : Result string * Engine :=
  match post messages with
  | PostRaises e => (Raises e, self)
  | Answer status_code text body =>
      match print (ResponseStatus status_code) with
      | Raises e => (Raises e, self)
      | Returns _ =>
          if (status_code =? 200)%Z then
            match body with
            | BadBody => (Raises OtherError, self)
            | Message content =>
                match _clean_response content with
                | Raises e => (Raises e, self)
                | Returns assistant_message =>
                    match print (GotResponse
                                   (if truthy assistant_message
                                    then take 100 assistant_message
                                    else "EMPTY")) with
                    | Raises e => (Raises e, self)
                    | Returns _ =>
                        let self' :=
                          mkEngine (system_prompt self)
                            (conversation_history self
                               ++ [("user", prompt)]
                               ++ [("assistant", assistant_message)])%list in
                        (Returns (if truthy assistant_message
                                  then assistant_message
                                  else "I'm here to help! Please go ahead."),
                         self')
                    end
                end
            end
          else
            match print (ErrorResponse text) with
            | Raises e => (Raises e, self)
            | Returns _ =>
                (Returns
                   "I apologize, I'm having some trouble. Let me try again.",
                 self)
            end
      end
  end.

(** [generate_response]: the message list is built and the first line
    written before the [try] block; an exception raised inside a handler
    is not caught by the other one *)
Definition generate_response (self : Engine) (prompt : string)
                             (context : option string)
  : Result string * Engine :=
  let messages := _build_messages self prompt context in
  match print (Generating (take 80 prompt)) with
  | Raises e => (Raises e, self)
  | Returns _ =>
      match try_generate self prompt messages with
      | (Raises Timeout, self') =>
          match print TimedOut with
          | Raises e => (Raises e, self')
          | Returns _ =>
              (Returns "I need a moment to think about that...", self')
          end
      | (Raises e, self') =>
          match print (Error e) with
          | Raises e' => (Raises e', self')
          | Returns _ =>
              (Returns "I apologize for the technical issue. Please continue.",
               self')
          end
      | (Returns s, self') => (Returns s, self')
      end
  end.

End Service.

(** the scripted utterances of the failure paths *)
Definition fallbacks : list string :=
  ["I apologize, I'm having some trouble. Let me try again.";
   "I need a moment to think about that...";
   "I apologize for the technical issue. Please continue."].

(** the request did not produce a usable answer *)
Definition failed (r : Reply) : bool :=
  match r with
  | PostRaises _ => true
  | Answer status_code _ body =>
      if (status_code =? 200)%Z then
        match body with
        | BadBody => true
        | Message ContentOther => true
        | Message _ => false
        end
      else true
  end.

End AIEngine.

(* ================================================================== *)
(** ** The worker loop ([main_window.py], lines 19-103) *)

Module Worker.

Record Task : Type := mkTask {
  action : string;
  user_input : string;
  code : string
}.

Inductive Signal : Type :=
| response_ready (response : string)
| speaking_started
| speaking_finished
| error_occurred (message : string)
| task_complete.

(** where the worker thread stands in [run] *)
Inductive PC : Type :=
| AtLoopHead              (* about to test [self.running] (line 50) *)
| AtTest                  (* in the loop body, about to test the queue and
                             the flag (line 51) *)
| BeforePop               (* the test passed, about to pop (line 52) *)
| AfterPop (task : Task)  (* [task = self.task_queue.pop(0)] done *)
| Dispatching (task : Task) (* [self.is_busy = True] done *)
| InTask (task : Task)    (* inside [self._process_task(task)] *)
| AfterTask               (* [_process_task] returned *)
| AfterClear              (* [self.is_busy = False] done *)
| Sleeping                (* the test failed, in [time.sleep(0.1)] *)
| Stopped                 (* the loop has been left *)
| Raised.                 (* [pop(0)] of an empty list: IndexError *)

(** marks left for the statements the properties speak about; a mark
    records the value of [is_busy] at its statement *)
Inductive Mark : Type :=
| Queued (task : Task)
| Began (task : Task) (busy : bool)
| Finished (task : Task) (busy : bool)
| Completed (busy : bool).

Record W : Type := mkW {
  task_queue : list Task;
  running : bool;
  is_busy : bool;
  pc : PC;
  machine : Machine;
  signals : list Signal;
  marks : list Mark
}.

(** what may happen next: a producer thread queues an action, someone
    calls [stop], or the worker thread runs its next statement: the test
    of the [while], the test of the [if], the pop and each statement
    after it are steps of their own, so that the other threads can act
    between any two of them.  List [append] and [pop(0)] are single
    steps, as under the interpreter lock. *)
Inductive Label : Type :=
| QueueAction (task : Task)
| Stop
| Tick.

(** the truth value of a list: non-empty *)
Definition truthy_list {A} (l : list A) : bool :=
  match l with [] => false | _ :: _ => true end.

Section Loop.

Variable ai : nat -> Prompt -> string.
Variable clock : nat -> Z.
(** whether a speech engine is attached *)
Variable tts : bool.
(** whether the call into the interview state, or the log line after it,
    raises: with the text of the exception and the machine as the call
    leaves it *)
Variable interrupted : Task -> Machine -> option (string * Machine).

Definition InterviewWorker (m : Machine) : W :=
  mkW [] true false AtLoopHead m [] [].

Definition queue_action (task : Task) (w : W) : W :=
  mkW (task_queue w ++ [task])%list (running w) (is_busy w) (pc w)
      (machine w) (signals w) (marks w ++ [Queued task])%list.

Definition stop (w : W) : W :=
  mkW (task_queue w) false (is_busy w) (pc w) (machine w) (signals w)
      (marks w).

(** a call into the interview state from inside the [try] block *)
Definition call (task : Task) (method : M string) (m : Machine)
  : (string + string) * Machine :=
  match interrupted task m with
  | Some (message, m') => (inr message, m')
  | None => let '(response, m') := method m in (inl response, m')
  end.

(** the [try] block of [_process_task] under its handler; an exception of
    the speech engine is caught inside, before [speaking_finished] *)
Definition _process_task (task : Task) (m : Machine)
  : list Signal * Machine :=
  let '(response, m') :=
    if String.eqb (action task) "start"
    then call task (start_interview ai clock) m
    else if String.eqb (action task) "process"
    then call task
           (process_user_input ai clock (user_input task) (code task)) m
    else if String.eqb (action task) "hint"
    then call task (request_hint ai clock) m
    else if String.eqb (action task) "end"
    then call task (end_interview ai clock) m
    else (inl "", m) in
  match response with
  | inl response =>
      if truthy response then
        (response_ready response
           :: (if tts then [speaking_started; speaking_finished] else []), m')
      else ([], m')
  | inr message => ([error_occurred message], m')
  end.

(** one statement of [run] *)
Definition tick (w : W) : W :=
  match pc w with
  | AtLoopHead =>
      mkW (task_queue w) (running w) (is_busy w)
          (if running w then AtTest else Stopped)
          (machine w) (signals w) (marks w)
  | AtTest =>
      mkW (task_queue w) (running w) (is_busy w)
          (if truthy_list (task_queue w) && negb (is_busy w)
           then BeforePop else Sleeping)
          (machine w) (signals w) (marks w)
  | BeforePop =>
      match task_queue w with
      | task :: rest =>
          mkW rest (running w) (is_busy w) (AfterPop task) (machine w)
              (signals w) (marks w)
      | [] =>
          mkW [] (running w) (is_busy w) Raised (machine w) (signals w)
              (marks w)
      end
  | AfterPop task =>
      mkW (task_queue w) (running w) true (Dispatching task) (machine w)
          (signals w) (marks w)
  | Dispatching task =>
      mkW (task_queue w) (running w) (is_busy w) (InTask task) (machine w)
          (signals w) (marks w ++ [Began task (is_busy w)])%list
  | InTask task =>
      let '(out, m') := _process_task task (machine w) in
      mkW (task_queue w) (running w) (is_busy w) AfterTask m'
          (signals w ++ out)%list
          (marks w ++ [Finished task (is_busy w)])%list
  | AfterTask =>
      mkW (task_queue w) (running w) false AfterClear (machine w)
          (signals w) (marks w)
  | AfterClear =>
      mkW (task_queue w) (running w) (is_busy w) AtLoopHead (machine w)
          (signals w ++ [task_complete])%list
          (marks w ++ [Completed (is_busy w)])%list
  | Sleeping =>
      mkW (task_queue w) (running w) (is_busy w) AtLoopHead (machine w)
          (signals w) (marks w)
  | Stopped => w
  | Raised => w
  end.

Definition exec (l : Label) (w : W) : W :=
  match l with
  | QueueAction task => queue_action task w
  | Stop => stop w
  | Tick => tick w
  end.

(** a schedule: any interleaving of producers and worker *)
Definition run (schedule : list Label) (w : W) : W :=
  fold_left (fun w l => exec l w) schedule w.

End Loop.

(** the tasks queued, and the tasks dispatched, in order *)
Definition queued (ms : list Mark) : list Task :=
  flat_map (fun k => match k with Queued t => [t] | _ => [] end) ms.

Definition began (ms : list Mark) : list Task :=
  flat_map (fun k => match k with Began t _ => [t] | _ => [] end) ms.

(** the marks of the worker thread alone *)
Definition worker_marks (ms : list Mark) : list Mark :=
  filter (fun k => match k with Queued _ => false | _ => true end) ms.

Definition task_eqb (a b : Task) : bool :=
  String.eqb (action a) (action b)
  && String.eqb (user_input a) (user_input b)
  && String.eqb (code a) (code b).

(** rounds of dispatch: a task begins with the flag set, the same task
    finishes with the flag still set, and completion is signalled with
    the flag cleared, before the next task begins; the last round may
    still be open. *)
Fixpoint rounds (ms : list Mark) : bool :=
  match ms with
  | [] => true
  | Began t true :: rest =>
      match rest with
      | [] => true
      | Finished t' true :: rest' =>
          task_eqb t t'
          && match rest' with
             | [] => true
             | Completed false :: rest'' => rounds rest''
             | _ => false
             end
      | _ => false
      end
  | _ => false
  end.

End Worker.

(* ================================================================== *)
(** ** Vocabulary of the statements *)

(** [s] spells [w] up to the case of its letters *)
Inductive case_variant : string -> string -> Prop :=
| cv_nil : case_variant EmptyString EmptyString
| cv_cons (c d : ascii) (w s : string) :
    d = c \/ d = upper_char c ->
    case_variant w s ->
    case_variant (String c w) (String d s).

(** [s] is [w] in some casing, with white space around it *)
Definition variant (w s : string) : Prop :=
  exists l body r,
    s = l ++ body ++ r /\ all_space l /\ all_space r /\ case_variant w body.


(** [m'] comes after [m] in a session: logs and counters have only
    grown and the fields no handler writes are the same. *)
Record extends (m m' : Machine) : Prop := mkExtends {
  ext_transcript :
    exists more,
      transcript (context m') = (transcript (context m) ++ more)%list;
  ext_mistakes :
    exists more, mistakes (context m') = (mistakes (context m) ++ more)%list;
  ext_questions :
    exists more,
      questions_asked (context m')
      = (questions_asked (context m) ++ more)%list;
  ext_trace : exists more, trace m' = (trace m ++ more)%list;
  ext_code : current_code (context m') = current_code (context m);
  ext_start : start_time (context m') = start_time (context m);
  ext_retries : max_retries (context m') = max_retries (context m);
  ext_ai : ai_calls m <= ai_calls m';
  ext_clock : clock_reads m <= clock_reads m'
}.

(** a command that only moves the machine forward *)
Definition forward {A} (c : M A) : Prop := forall m, extends m (snd (c m)).

(** the context updates of the handlers *)
Inductive handler_update : (InterviewContext -> InterviewContext) -> Prop :=
| hu_interview_type v : handler_update (set_interview_type v)
| hu_current_question v : handler_update (set_current_question v)
| hu_hints_given f :
    handler_update (fun c => set_hints_given (f c) c)
| hu_follow_up_attempts f :
    handler_update (fun c => set_follow_up_attempts (f c) c)
| hu_end_time v : handler_update (set_end_time v)
| hu_transcript f :
    handler_update (fun c => set_transcript (transcript c ++ f c)%list c)
| hu_questions f :
    handler_update
      (fun c => set_questions_asked (questions_asked c ++ f c)%list c)
| hu_mistakes f :
    handler_update (fun c => set_mistakes (mistakes c ++ f c)%list c).

(** the entry [_add_to_transcript("User", user_input)] appends at [m] *)
Definition user_entry (clock : nat -> Z) (user_input : string) (m : Machine)
  : Entry :=
  mkEntry "User" user_input (clock (clock_reads m)).

(** a command that leaves the observation [f] of the machine as it was *)
Definition keeps {A X} (f : Machine -> X) (c : M A) : Prop :=
  forall m, f (snd (c m)) = f m.

(** *** Sample sessions *)

(** a generative service that answers each kind of prompt with a fixed
    text, [feedback] being its answer to feedback prompts *)
Definition scripted_ai (feedback : string) (n : nat) (p : Prompt) : string :=
  match p with
  | GREETING_PROMPT => "Hello, I'm Alex. What would you like to work on?"
  | QUESTION_PROMPT _ _ =>
      "QUESTION_TITLE: Two Sum---QUESTION_TEXT: Find two numbers that add up to a target. VERBAL: The problem is in the editor."
  | FEEDBACK_PROMPT _ _ _ _ => feedback
  | HINT_PROMPT _ _ _ _ => "Consider a hash map."
  | FOLLOW_UP_PROMPT _ _ => "What if the array is empty?"
  | FOLLOW_UP_FEEDBACK _ _ _ => "Good."
  | CLOSING_PROMPT _ _ => "Thanks for your time today."
  | RAW_PROMPT _ => "Okay."
  end.

(** a clock that advances by one unit at each reading *)
Definition steady_clock (n : nat) : Z := Z.of_nat n.

(** the session after [start_interview] and the answer to the greeting:
    the first question has been presented *)
Definition session_solving (ai : nat -> Prompt -> string)
                           (clock : nat -> Z) : Machine :=
  snd (process_user_input ai clock "let's do coding" ""
         (snd (start_interview ai clock new_machine))).

(** the same session after [n] utterances no classifier recognises *)
Fixpoint session_after_attempts (ai : nat -> Prompt -> string)
                                (clock : nat -> Z) (n : nat) : Machine :=
  match n with
  | O => session_solving ai clock
  | S k =>
      snd (process_user_input ai clock "I would sort the array first" ""
             (session_after_attempts ai clock k))
  end.

(** what the default branch of [_handle_solving_response] yields from the
    feedback text [response], the retry limit not being reached *)
Definition feedback_result (clock : nat -> Z) (user_input : string)
                           (m : Machine) (response : string)
  : string * Machine :=
  let c := context m in
  let prompt := FEEDBACK_PROMPT (current_question c) (current_code c)
                                user_input (hints_given c) in
  let c0 := set_follow_up_attempts (follow_up_attempts c + 1) c in
  let c1 :=
    if contains "[WRONG]" (upper response)
    then set_mistakes
           (mistakes c0 ++ [mkMistake (take 100 (current_question c0))
                                      user_input (correction_of response)])%list
           c0
    else c0 in
  let shown := clean_display response in
  (shown,
   mkMachine (state m)
     (set_transcript
        (transcript c1 ++ [mkEntry "AI" shown (clock (clock_reads m))])%list
        c1)
     (S (ai_calls m)) (S (clock_reads m))
     (trace m ++ [EvGenerate prompt])%list).

(** the feedback text the default branch works on *)
Definition feedback_of (ai : nat -> Prompt -> string) (user_input : string)
                       (m : Machine) : string :=
  let c := context m in
  let response :=
    ai (ai_calls m)
       (FEEDBACK_PROMPT (current_question c) (current_code c) user_input
                        (hints_given c)) in
  if negb (truthy response) then "[UNCLEAR] Okay, continue." else response.

(** the service answering feedback prompts with "[UNCLEAR] Okay, continue." *)
Definition plain_ai : nat -> Prompt -> string :=
  scripted_ai "[UNCLEAR] Okay, continue.".

(** the session at its first question, and after three unrecognised
    utterances *)
Definition first_question : Machine := session_solving plain_ai steady_clock.

Definition three_attempts : Machine :=
  session_after_attempts plain_ai steady_clock 3.

(** a feedback text with its tag in mixed case, and the service giving it *)
Definition mixed_case_feedback : string := "[Wrong] Actually it's O(n log n).".

Definition mixed_case_ai : nat -> Prompt -> string :=
  scripted_ai mixed_case_feedback.

(** the three fields the parser returns when it is given nothing *)
Definition parser_defaults : string * string * string :=
  ("Interview Question", "Please solve the problem.",
   "Let me give you a problem to work on.").

(** the clean-up of a parsed field (lines 348-350) *)
Definition clean_field (s : string) : string := strip (replace "---" "" s).

(** an answer to the question prompt that carries no section label *)
Definition unlabelled_question : string :=
  "Reverse a linked list --- explain your approach first.".

(** *** Sessions as sequences of entry-point calls *)

(** the calls the worker makes on the state machine *)
Inductive Call : Type :=
| CallStart
| CallProcess (user_input code : string)
| CallHint
| CallEnd.

Definition perform (ai : nat -> Prompt -> string) (clock : nat -> Z)
                   (c : Call) : M string :=
  match c with
  | CallStart => start_interview ai clock
  | CallProcess user_input code => process_user_input ai clock user_input code
  | CallHint => request_hint ai clock
  | CallEnd => end_interview ai clock
  end.

Definition run_calls (ai : nat -> Prompt -> string) (clock : nat -> Z)
                     (calls : list Call) (m : Machine) : Machine :=
  fold_left (fun m c => snd (perform ai clock c m)) calls m.

(** the phases a machine rests in between calls, with no question asked
    yet while it waits for the answer to the greeting *)
Definition at_rest (m : Machine) : Prop :=
  match state m with
  | GREETING => questions_asked (context m) = []
  | IDLE | CANDIDATE_SOLVING | FOLLOW_UP | ENDED => True
  | _ => False
  end.

(** [m'] is [m] with one more question presented *)
Definition presented (m m' : Machine) : Prop :=
  state m' = CANDIDATE_SOLVING
  /\ (exists title,
        questions_asked (context m')
        = (questions_asked (context m) ++ [title])%list)
  /\ end_time (context m') = end_time (context m)
  /\ (exists more,
        trace m' = (trace m ++ EvPhase QUESTION_PRESENTING :: more)%list).

(** [m'] is [m] closed by [end_interview]: through Closing to Ended *)
Definition concluded (m m' : Machine) : Prop :=
  state m' = ENDED
  /\ questions_asked (context m') = questions_asked (context m)
  /\ (exists t, end_time (context m') = Some t)
  /\ (exists before p,
        trace m'
        = (trace m ++ before
             ++ [EvPhase CLOSING; EvStateChange CLOSING; EvGenerate p;
                 EvPhase ENDED])%list).

(** a session waiting in FollowUp with one question asked *)
Definition in_follow_up : Machine :=
  snd (process_user_input plain_ai steady_clock "I think it works now" ""
         first_question).

(** *** Observations of a machine *)

(** the retry counter and the list of questions asked *)
Definition attempts (m : Machine) : nat := follow_up_attempts (context m).
Definition asked (m : Machine) : list string := questions_asked (context m).

(** the machine with its retry counter set to [n] *)
Definition with_attempts (n : nat) (m : Machine) : Machine :=
  snd (update_context (set_follow_up_attempts n) m).

(** the machine once the feedback on a follow-up answer is in the
    transcript *)
Definition after_feedback (ai : nat -> Prompt -> string) (clock : nat -> Z)
                          (user_input : string) (m : Machine) : Machine :=
  snd ((response <- generate_response ai
                      (FOLLOW_UP_FEEDBACK (current_question (context m))
                                          (current_code (context m))
                                          user_input) ;;
        _add_to_transcript clock "AI" response) m).

(** within the cap of two questions, and at rest *)
Definition within_cap (m : Machine) : Prop :=
  List.length (asked m) <= 2 /\ at_rest m.

(** the session's start time is a reading the clock has already given *)
Definition started (clock : nat -> Z) (m : Machine) : Prop :=
  exists i, i < clock_reads m /\ start_time (context m) = Some (clock i).

(** a clock that never runs backwards *)
Definition monotone (clock : nat -> Z) : Prop :=
  forall i j, i <= j -> (clock i <= clock j)%Z.

(** the [duration] entry of the summary, if the summary can be built *)
Definition summary_duration (m : Machine) : option Duration :=
  option_map duration (get_session_summary m).

(** *** The worker's bookkeeping *)

(** the marks of one complete dispatch of [t] *)
Definition round (t : Worker.Task) : list Worker.Mark :=
  [Worker.Began t true; Worker.Finished t true; Worker.Completed false].

(** the task popped from the queue and not yet dispatched *)
Definition in_hand (w : Worker.W) : list Worker.Task :=
  match Worker.pc w with
  | Worker.AfterPop t | Worker.Dispatching t => [t]
  | _ => []
  end.

(** the value [is_busy] has at each point of the loop *)
Definition busy_at (pc : Worker.PC) : bool :=
  match pc with
  | Worker.Dispatching _ | Worker.InTask _ | Worker.AfterTask => true
  | _ => false
  end.

(** the marks of the dispatch under way at each point of the loop *)
Inductive open_round : Worker.PC -> list Worker.Mark -> Prop :=
| or_head : open_round Worker.AtLoopHead []
| or_test : open_round Worker.AtTest []
| or_before_pop : open_round Worker.BeforePop []
| or_sleeping : open_round Worker.Sleeping []
| or_stopped : open_round Worker.Stopped []
| or_pop t : open_round (Worker.AfterPop t) []
| or_dispatching t : open_round (Worker.Dispatching t) []
| or_in_task t : open_round (Worker.InTask t) [Worker.Began t true]
| or_after_task t :
    open_round Worker.AfterTask [Worker.Began t true; Worker.Finished t true]
| or_after_clear t :
    open_round Worker.AfterClear [Worker.Began t true; Worker.Finished t true].

Definition worker_invariant (w : Worker.W) : Prop :=
  Worker.queued (Worker.marks w)
  = (Worker.began (Worker.marks w) ++ in_hand w ++ Worker.task_queue w)%list
  /\ Worker.is_busy w = busy_at (Worker.pc w)
  /\ (Worker.pc w = Worker.BeforePop -> Worker.task_queue w <> [])
  /\ exists done opened,
       Worker.worker_marks (Worker.marks w)
       = (flat_map round done ++ opened)%list
       /\ open_round (Worker.pc w) opened.

(** a service that is down, and one that times out *)
Definition timing_out (messages : list AIEngine.Msg) : AIEngine.Reply :=
  AIEngine.PostRaises AIEngine.Timeout.

Definition fresh_engine : AIEngine.Engine :=
  AIEngine.mkEngine "You are Alex, a senior technical interviewer." [].

(** a service that answers *)
Definition answering (messages : list AIEngine.Msg) : AIEngine.Reply :=
  AIEngine.Answer 200 "{...}"
    (AIEngine.Message
       (AIEngine.ContentText "<think>greet briefly</think> Hello, I'm Alex.")).

(** a standard output that writes every line *)
Definition wide_stdout (line : AIEngine.Line) : AIEngine.Result unit :=
  AIEngine.Returns tt.

Fixpoint ascii_only (s : string) : bool :=
  match s with
  | EmptyString => true
  | String c r => (nat_of_ascii c <? 128) && ascii_only r
  end.

(** a standard output whose encoding has the ASCII characters only *)
Definition narrow_stdout (line : AIEngine.Line) : AIEngine.Result unit :=
  match line with
  | AIEngine.Generating text
  | AIEngine.GotResponse text
  | AIEngine.ErrorResponse text =>
      if ascii_only text then AIEngine.Returns tt
      else AIEngine.Raises AIEngine.EncodeError
  | _ => AIEngine.Returns tt
  end.

(** a prompt with a rightwards arrow (U+2192, in UTF-8) *)
Definition arrow_prompt : string :=
  "Explain a " ++ String (ascii_of_nat 226) (String (ascii_of_nat 134)
                    (String (ascii_of_nat 146) " b.")).

(** every line is written *)
Definition writes_all (print : AIEngine.Line -> AIEngine.Result unit) : Prop :=
  forall line, print line = AIEngine.Returns tt.

(** the worker is idle at the loop head, with [tasks] in its queue *)
Definition idle_with (tasks : list Worker.Task) (w : Worker.W) : Prop :=
  Worker.pc w = Worker.AtLoopHead /\ Worker.running w = true
  /\ Worker.is_busy w = false /\ Worker.task_queue w = tasks.

(** two actions a producer may queue *)
Definition start_task : Worker.Task := Worker.mkTask "start" "" "".

Definition coding_task : Worker.Task :=
  Worker.mkTask "process" "let's do coding" "".

(** *** Further vocabulary: interview types and greeting keywords *)

(** the four types [_handle_greeting_response] can set *)
Definition detected_types : list string :=
  ["DSA"; "System Design"; "DBMS"; "Operating Systems"].

(** the keywords it looks for, in the order of its tests *)
Definition type_keywords : list string :=
  ["dsa"; "data structure"; "algorithm"; "coding"; "system"; "design";
   "dbms"; "database"; "sql"; "os"; "operating"].

(** the observations of the context used below *)
Definition kind (m : Machine) : string := interview_type (context m).
Definition hints (m : Machine) : nat := hints_given (context m).
Definition mistaken (m : Machine) : list Mistake := mistakes (context m).
Definition logged (m : Machine) : list Entry := transcript (context m).

(** the type the [if]/[elif] chain of [_handle_greeting_response] picks
    for a lower-cased answer *)
Definition chosen_type (user_lower : string) : string :=
  if contains "dsa" user_lower || contains "data structure" user_lower
     || contains "algorithm" user_lower || contains "coding" user_lower
  then "DSA"
  else if contains "system" user_lower || contains "design" user_lower
  then "System Design"
  else if contains "dbms" user_lower || contains "database" user_lower
          || contains "sql" user_lower
  then "DBMS"
  else if contains "os" user_lower || contains "operating" user_lower
  then "Operating Systems"
  else "DSA".

(** the phases in which the machine rests between calls *)
Definition resting_phases : list InterviewState :=
  [IDLE; GREETING; CANDIDATE_SOLVING; FOLLOW_UP; ENDED].

(** from [m] to [m'] the hints only count up, unless a new question was
    presented, which sets them to 0 *)
Definition hint_step (m m' : Machine) : Prop :=
  (asked m' = asked m /\ hints m <= hints m')
  \/ (exists title,
        asked m' = (asked m ++ [title])%list /\ hints m' = 0).

(** an utterance none of the three classifiers matches *)
Definition unrecognised (user_input : string) : Prop :=
  _is_garbage_input user_input = false
  /\ _is_asking_for_hint user_input = false
  /\ _seems_finished user_input = false.

(** the calls processing a list of utterances with their code snapshots *)
Definition processing (inputs : list (string * string)) : list Call :=
  map (fun i => CallProcess (fst i) (snd i)) inputs.

(** no call of the list is [start_interview] *)
Definition no_start (calls : list Call) : Prop :=
  Forall (fun c => c <> CallStart) calls.

(** four times the same unrecognised utterance, with no code *)
Definition four_attempts : list (string * string) :=
  repeat ("I would sort the array first", "") 4.

(** time stamps in order: each one at most the next *)
Definition in_order (stamps : list Z) : Prop := StronglySorted Z.le stamps.

(** the transcript of [m] is in the order of its time stamps, none of
    them later than the next reading of the clock *)
Definition chronological (clock : nat -> Z) (m : Machine) : Prop :=
  in_order (map timestamp (logged m))
  /\ Forall (fun t => (t <= clock (clock_reads m))%Z)
            (map timestamp (logged m)).

(** a command that keeps the transcript chronological *)
Definition timely {A} (clock : nat -> Z) (c : M A) : Prop :=
  forall m, chronological clock m -> chronological clock (snd (c m)).

(** the mistakes [_move_on_or_conclude] counts as made on the current
    question (line 442) *)
Definition recent_mistakes (m : Machine) : list Mistake :=
  filter (fun k => contains (take 50 (current_question (context m)))
                            (question k))
         (mistaken m).

(** the opening of the feedback given at forced progression *)
Definition feedback_header : string :=
  "Before we move on, let me give you some feedback. ".

(** *** Further vocabulary: the delimited answer format *)

(** the four section labels, lower-cased *)
Definition section_labels : list string :=
  ["question_title:"; "question_text:"; "verbal:"; "explanation:"].

(** a text that is not empty, has no white space around it and contains
    no delimiter *)
Definition plain_text (s : string) : Prop :=
  s <> EmptyString /\ strip s = s /\ contains "---" s = false.

(** a text in which no section label occurs, in any casing *)
Definition unlabelled (s : string) : Prop :=
  forall l, In l section_labels -> contains l (lower s) = false.

(** a text that neither starts nor ends with a quote character *)
Definition unquoted (s : string) : Prop :=
  strip_char "'" (strip_char (ascii_of_nat 34) s) = s.

(** the three sections, each under its label, with a line of "---"
    between them *)
Definition delimited (title text verbal : string) : string :=
  "QUESTION_TITLE: " ++ title ++ nl ++ "---" ++ nl
  ++ "QUESTION_TEXT: " ++ text ++ nl ++ "---" ++ nl
  ++ "VERBAL: " ++ verbal.

(** what follows the question text of a delimited answer, and what
    follows its title *)
Definition after_text (verbal : string) : string :=
  "---" ++ nl ++ "VERBAL: " ++ verbal.

Definition after_title (text verbal : string) : string :=
  "---" ++ nl ++ "QUESTION_TEXT: " ++ text ++ nl ++ after_text verbal.

(** the actions [_process_task] knows *)
Definition known_actions : list string := ["start"; "process"; "hint"; "end"].

(** no call into the interview state raises *)
Definition uninterrupted (task : Worker.Task) (m : Machine)
  : option (string * Machine) := None.

(** a task whose processing is under way *)
Definition busy_worker : Worker.W :=
  Worker.run plain_ai steady_clock true uninterrupted
    [Worker.QueueAction start_task; Worker.QueueAction coding_task;
     Worker.Tick; Worker.Tick; Worker.Tick; Worker.Tick; Worker.Tick]
    (Worker.InterviewWorker new_machine).

(** the steps of the worker thread in a schedule *)
Definition ticks (schedule : list Worker.Label) : nat :=
  List.length
    (filter (fun l => match l with Worker.Tick => true | _ => false end)
            schedule).

(** how many tasks the worker may still pop before it tests [running]
    again *)
Definition may_pop (pc : Worker.PC) : nat :=
  match pc with
  | Worker.AtTest | Worker.BeforePop => 1
  | _ => 0
  end.

(** how many statements the loop may still run once [running] is false *)
Definition statements_left (pc : Worker.PC) : nat :=
  match pc with
  | Worker.Stopped | Worker.Raised => 0
  | Worker.AtLoopHead => 1
  | Worker.Sleeping | Worker.AfterClear => 2
  | Worker.AfterTask => 3
  | Worker.InTask _ => 4
  | Worker.Dispatching _ => 5
  | Worker.AfterPop _ => 6
  | Worker.BeforePop => 7
  | Worker.AtTest => 8
  end.

(** from [w] to [w'] the tasks [d] were begun: those in hand in [w], and
    after them at most as many as the worker could still pop *)
Definition begun_between (w w' : Worker.W) : Prop :=
  exists d x,
    Worker.began (Worker.marks w')
    = (Worker.began (Worker.marks w) ++ d)%list
    /\ (d ++ in_hand w' = in_hand w ++ x)%list
    /\ List.length x + may_pop (Worker.pc w') <= may_pop (Worker.pc w).

(** what a response makes the worker emit *)
Definition spoken (tts : bool) (response : string) : list Worker.Signal :=
  if truthy response then
    Worker.response_ready response
      :: (if tts then [Worker.speaking_started; Worker.speaking_finished]
          else [])
  else [].

(* ================================================================== *)
(** * Properties *)

(** ** Strings *)

Lemma is_space_lower_char (c : ascii) : is_space (lower_char c) = is_space c.
Proof. destruct c as [[] [] [] [] [] [] [] []]; reflexivity. Qed.

Lemma lower_upper_char (c : ascii) :
  lower_char c = c -> lower_char (upper_char c) = c.
Proof. destruct c as [[] [] [] [] [] [] [] []]; intros H; try reflexivity; discriminate H. Qed.

Lemma smap_app (f : ascii -> ascii) (a b : string) :
  smap f (a ++ b) = smap f a ++ smap f b.
Proof. induction a as [|c a IH]; simpl; [reflexivity | now rewrite IH]. Qed.

Lemma all_space_nil : all_space EmptyString.
Proof. intros c []. Qed.

Lemma all_space_cons (c : ascii) (s : string) :
  all_space (String c s) <-> is_space c = true /\ all_space s.
Proof.
  unfold all_space; simpl; split.
  - intros H; split; [apply H; now left | intros d Hd; apply H; now right].
  - intros [Hc Hs] d [<- | Hd]; [exact Hc | now apply Hs].
Qed.

Lemma all_space_lower (s : string) : all_space s -> all_space (lower s).
Proof.
  induction s as [|c s IH]; simpl; intros H; [exact all_space_nil|].
  apply all_space_cons in H as [Hc Hs].
  apply all_space_cons; split; [now rewrite is_space_lower_char | now apply IH].
Qed.

Lemma lstrip_app_space (l x : string) :
  all_space l -> lstrip (l ++ x) = lstrip x.
Proof.
  induction l as [|c l IH]; simpl; intros H; [reflexivity|].
  apply all_space_cons in H as [Hc Hs].
  unfold lstrip in *; simpl; rewrite Hc; now apply IH.
Qed.

Lemma rstrip_all_space (r : string) : all_space r -> rstrip r = EmptyString.
Proof.
  induction r as [|c r IH]; intros H; [reflexivity|].
  apply all_space_cons in H as [Hc Hs].
  unfold rstrip in *; simpl; rewrite (IH Hs), Hc; reflexivity.
Qed.

Lemma rstrip_app_space (x r : string) :
  all_space r -> rstrip (x ++ r) = rstrip x.
Proof.
  intros Hr; induction x as [|c x IH]; simpl.
  - now apply rstrip_all_space.
  - unfold rstrip in *; simpl; now rewrite IH.
Qed.

(** Padding a word that neither starts nor ends with a space is undone by
    [strip]. *)
Lemma strip_padded (l r : string) (c : ascii) (w : string) :
  all_space l -> all_space r ->
  is_space c = false -> rstrip (String c w) = String c w ->
  strip (l ++ String c w ++ r) = String c w.
Proof.
  intros Hl Hr Hc Hw.
  unfold strip, strip_by.
  change (lstrip_by is_space) with lstrip; change (rstrip_by is_space) with rstrip.
  rewrite lstrip_app_space by exact Hl.
  unfold lstrip; simpl; rewrite Hc.
  change (String c (w ++ r)) with (String c w ++ r).
  now rewrite rstrip_app_space.
Qed.

Lemma lower_case_variant (w s : string) :
  lower w = w -> case_variant w s -> lower s = w.
Proof.
  unfold lower; intros Hw Hv; induction Hv as [|c d w s Hd Hv IH]; [reflexivity|].
  simpl in Hw; injection Hw as Hc Hw'.
  simpl; rewrite (IH Hw'); f_equal.
  destruct Hd as [-> | ->]; [exact Hc | now apply lower_upper_char].
Qed.

Lemma replace_absent (old new s : string) :
  contains old s = false -> replace old new s = s.
Proof.
  unfold replace; induction s as [|c s IH]; [reflexivity|].
  cbn [contains replace_from]; intros H.
  apply orb_false_iff in H as [Hp Hc].
  now rewrite Hp, IH.
Qed.

(** ** The garbage classifier *)

Lemma ratio_over_60_spec (short total : nat) :
  0 < total ->
  ratio_over_60 short total = true <-> 60 * total < 100 * short.
Proof.
  intros Hpos; unfold ratio_over_60, Qle_bool; cbn [Qnum Qden].
  rewrite negb_true_iff, Z.leb_gt.
  assert (Ht : Z.pos (Pos.of_nat total) = Z.of_nat total).
  { rewrite <- positive_nat_Z, Nat2Pos.id by lia; reflexivity. }
  rewrite Ht; lia.
Qed.

Lemma mem_In (x : string) (l : list string) : mem x l = true <-> In x l.
Proof.
  unfold mem; rewrite existsb_exists; split.
  - intros [y [Hy He]]; apply String.eqb_eq in He; now subst.
  - intros H; exists x; split; [exact H | apply String.eqb_refl].
Qed.

Lemma garbage_of_stoplist (text : string) :
  In (strip (lower text)) garbage_stoplist -> _is_garbage_input text = true.
Proof.
  intros H; apply mem_In in H; unfold _is_garbage_input.
  destruct (negb (truthy text) || (String.length text <? 3)); [reflexivity|].
  now rewrite H.
Qed.

Lemma variant_strip_lower (w text : string) (c : ascii) (w' : string) :
  w = String c w' -> lower w = w -> is_space c = false -> rstrip w = w ->
  variant w text -> strip (lower text) = w.
Proof.
  intros -> Hlow Hc Hr (l & body & r & -> & Hl & Hr' & Hv).
  unfold lower; rewrite !smap_app; fold lower.
  rewrite (lower_case_variant _ _ Hlow Hv).
  apply strip_padded; auto using all_space_lower.
Qed.

(** C4.  The garbage classifier holds exactly of the utterances shorter
    than three characters, of those whose lower-cased and trimmed text is
    in the stoplist, and of those with more than three words of which
    strictly more than 60% have at most two characters; in particular it
    holds of every casing and white-space padding of "um", "uh", "the"
    and "a". *)
Theorem C4_garbage_classifier (text : string) :
  (_is_garbage_input text = true <->
     String.length text < 3
     \/ In (strip (lower text)) garbage_stoplist
     \/ (3 < List.length (split text)
         /\ 60 * List.length (split text) < 100 * short_words (split text)))
  /\ (forall w, In w ["um"; "uh"; "the"; "a"] -> variant w text ->
      _is_garbage_input text = true).
Proof.
  split.
  - unfold _is_garbage_input.
    assert (Hlen : negb (truthy text) || (String.length text <? 3) = true
                   <-> String.length text < 3).
    { rewrite orb_true_iff, Nat.ltb_lt; split; [|now right].
      intros [H | H]; [|exact H]. destruct text; [simpl; lia | discriminate H]. }
    destruct (negb (truthy text) || (String.length text <? 3)) eqn:E1.
    { split; [intros _; left; now apply Hlen | reflexivity]. }
    destruct (mem (strip (lower text)) garbage_stoplist) eqn:E2.
    { split; [intros _; right; left; now apply mem_In | reflexivity]. }
    assert (Hnot1 : ~ String.length text < 3).
    { intros H; apply Hlen in H; discriminate H. }
    assert (Hnot2 : ~ In (strip (lower text)) garbage_stoplist).
    { intros H; apply mem_In in H; congruence. }
    cbv zeta.
    destruct (3 <? List.length (split text)) eqn:E3.
    + apply Nat.ltb_lt in E3.
      destruct (ratio_over_60 _ _) eqn:E4.
      * split; [intros _ | reflexivity].
        right; right; split; [exact E3|].
        apply ratio_over_60_spec in E4; [exact E4 | lia].
      * split; [discriminate|].
        intros [H | [H | [_ H]]]; [contradiction | contradiction |].
        apply ratio_over_60_spec in H; [congruence | lia].
    + apply Nat.ltb_ge in E3.
      split; [discriminate|].
      intros [H | [H | [H _]]]; [contradiction | contradiction | lia].
  - intros w Hw Hv; apply garbage_of_stoplist.
    assert (Hs : strip (lower text) = w).
    { simpl in Hw.
      destruct Hw as [<- | [<- | [<- | [<- | []]]]];
        eapply variant_strip_lower; eauto; reflexivity. }
    rewrite Hs; simpl in Hw; simpl.
    destruct Hw as [<- | [<- | [<- | [<- | []]]]]; auto 6.
Qed.

(** the witness of C4: " uM " *)
Lemma C4_witness :
  variant "um" " uM " /\ _is_garbage_input " uM " = true.
Proof.
  assert (Hv : variant "um" " uM ").
  { exists " ", "uM", " ".
    repeat split; try (intros c [<- | []]; reflexivity).
    apply cv_cons; [now left|].
    apply cv_cons; [now right|].
    apply cv_nil. }
  split; [exact Hv|].
  apply (proj2 (C4_garbage_classifier " uM ") "um"); [simpl; auto | exact Hv].
Defined.

(** ** The state machine: what every operation leaves alone *)

Open Scope list_scope.

Section Frame.

Variable ai : nat -> Prompt -> string.
Variable clock : nat -> Z.


Lemma extends_refl (m : Machine) : extends m m.
Proof.
  split; try (exists []; now rewrite app_nil_r); auto.
Qed.

Lemma extends_trans (m1 m2 m3 : Machine) :
  extends m1 m2 -> extends m2 m3 -> extends m1 m3.
Proof.
  intros [[t1 Ht1] [k1 Hk1] [q1 Hq1] [e1 He1] Hc1 Hs1 Hr1 Ha1 Hn1]
         [[t2 Ht2] [k2 Hk2] [q2 Hq2] [e2 He2] Hc2 Hs2 Hr2 Ha2 Hn2].
  split; try congruence; try lia.
  - exists (t1 ++ t2); now rewrite Ht2, Ht1, app_assoc.
  - exists (k1 ++ k2); now rewrite Hk2, Hk1, app_assoc.
  - exists (q1 ++ q2); now rewrite Hq2, Hq1, app_assoc.
  - exists (e1 ++ e2); now rewrite He2, He1, app_assoc.
Qed.


Lemma forward_ret {A} (a : A) : forward (ret a).
Proof. intros m; apply extends_refl. Qed.

Lemma forward_bind {A B} (c : M A) (k : A -> M B) :
  forward c -> (forall a, forward (k a)) -> forward (bind c k).
Proof.
  intros Hc Hk m; unfold bind; specialize (Hc m).
  destruct (c m) as [a m1]; simpl in Hc.
  eapply extends_trans; [exact Hc | apply Hk].
Qed.

Lemma forward_get_context : forward get_context.
Proof. intros m; apply extends_refl. Qed.

Lemma forward_get_state : forward get_state.
Proof. intros m; apply extends_refl. Qed.

Lemma forward_emit (e : Event) : forward (emit e).
Proof.
  intros m; split; simpl; auto; try (exists []; now rewrite app_nil_r).
  now exists [e].
Qed.

Lemma forward_set_state (s : InterviewState) : forward (set_state s).
Proof.
  intros m; split; simpl; auto; try (exists []; now rewrite app_nil_r).
  now exists [EvPhase s].
Qed.

Lemma forward_now : forward (now clock).
Proof.
  intros m; split; simpl; auto; exists []; now rewrite app_nil_r.
Qed.

Lemma forward_generate_response (p : Prompt) :
  forward (generate_response ai p).
Proof.
  intros m; split; simpl; auto; try (exists []; now rewrite app_nil_r).
  now exists [EvGenerate p].
Qed.


Lemma forward_update_context (f : InterviewContext -> InterviewContext) :
  handler_update f -> forward (update_context f).
Proof.
  intros Hf m; destruct Hf; split; simpl; auto;
    try (exists []; now rewrite app_nil_r); eauto.
Qed.

Ltac fwd_update :=
  apply forward_update_context;
  first
    [ apply hu_interview_type
    | apply hu_current_question
    | apply hu_end_time
    | exact (hu_hints_given (fun _ => 0))
    | exact (hu_hints_given (fun c => hints_given c + 1))
    | exact (hu_follow_up_attempts (fun _ => 0))
    | exact (hu_follow_up_attempts (fun c => follow_up_attempts c + 1))
    | exact (hu_transcript (fun _ => _))
    | exact (hu_questions (fun _ => _))
    | exact (hu_mistakes
               (fun c => [mkMistake (take 100 (current_question c)) _ _])) ].

Ltac fwd_with known :=
  repeat first
    [ apply forward_ret
    | apply forward_get_context
    | apply forward_get_state
    | apply forward_emit
    | apply forward_set_state
    | apply forward_now
    | apply forward_generate_response
    | known
    | fwd_update
    | apply forward_bind; [| intros ?]
    | match goal with
      | |- forward (match ?x with _ => _ end) => destruct x
      end ].

Lemma forward_notify_state_change : forward notify_state_change.
Proof. unfold notify_state_change; fwd_with fail. Qed.

Lemma forward_add_to_transcript (speaker text : string) :
  forward (_add_to_transcript clock speaker text).
Proof. unfold _add_to_transcript; fwd_with fail. Qed.

Ltac fwd_base :=
  first [ apply forward_notify_state_change
        | apply forward_add_to_transcript ].

Lemma forward_present_question : forward (_present_question ai clock).
Proof. unfold _present_question; fwd_with fwd_base. Qed.

Lemma forward_end_interview : forward (end_interview ai clock).
Proof. unfold end_interview; fwd_with fwd_base. Qed.

Lemma forward_give_hint : forward (_give_hint ai clock).
Proof. unfold _give_hint; fwd_with fwd_base. Qed.

Lemma forward_ask_follow_up : forward (_ask_follow_up ai clock).
Proof. unfold _ask_follow_up; fwd_with fwd_base. Qed.

Ltac fwd_ops :=
  first [ fwd_base
        | apply forward_present_question
        | apply forward_end_interview
        | apply forward_give_hint
        | apply forward_ask_follow_up ].

Lemma forward_move_on_or_conclude : forward (_move_on_or_conclude ai clock).
Proof. unfold _move_on_or_conclude; fwd_with fwd_ops. Qed.

Lemma forward_handle_solving_response (user_input : string) :
  forward (_handle_solving_response ai clock user_input).
Proof.
  unfold _handle_solving_response;
    fwd_with ltac:(first [fwd_ops | apply forward_move_on_or_conclude]).
Qed.

Lemma forward_handle_follow_up_response (user_input : string) :
  forward (_handle_follow_up_response ai clock user_input).
Proof. unfold _handle_follow_up_response; fwd_with fwd_ops. Qed.

Lemma forward_dispatch (user_input : string) :
  forward (dispatch ai clock user_input).
Proof.
  unfold dispatch, _handle_greeting_response, _handle_topic_selection,
    _handle_post_hint, _generate_contextual_response;
    fwd_with ltac:(first [ fwd_ops
                         | apply forward_handle_solving_response
                         | apply forward_handle_follow_up_response ]).
Qed.

Lemma forward_request_hint : forward (request_hint ai clock).
Proof.
  unfold request_hint; fwd_with ltac:(apply forward_give_hint).
Qed.

End Frame.

(** ** Recording the input *)

Section RecordInput.

Variable ai : nat -> Prompt -> string.
Variable clock : nat -> Z.


Lemma record_input_run (user_input code : string) (m : Machine) :
  record_input clock user_input code m =
  (tt, mkMachine (state m)
         (set_current_code code
            (set_transcript
               (transcript (context m) ++ [user_entry clock user_input m])
               (context m)))
         (ai_calls m) (S (clock_reads m)) (trace m)).
Proof. reflexivity. Qed.

Lemma process_user_input_run (user_input code : string) (m : Machine) :
  process_user_input ai clock user_input code m =
  dispatch ai clock user_input (snd (record_input clock user_input code m)).
Proof. reflexivity. Qed.

(** C10.  Every call of [process_user_input] first appends the utterance
    to the transcript and overwrites [current_code] with the snapshot,
    touching nothing else, and only then runs the dispatch with its
    classifiers; neither write is undone by the handlers, whatever the
    phase and whatever the utterance. *)
Theorem C10_input_recorded_before_dispatch
  (user_input code : string) (m : Machine) :
  let m0 := snd (record_input clock user_input code m) in
  let m' := snd (process_user_input ai clock user_input code m) in
  process_user_input ai clock user_input code m
    = dispatch ai clock user_input m0
  /\ transcript (context m0)
     = transcript (context m) ++ [user_entry clock user_input m]
  /\ current_code (context m0) = code
  /\ (state m0 = state m /\ ai_calls m0 = ai_calls m /\ trace m0 = trace m)
  /\ (exists more,
        transcript (context m')
        = transcript (context m) ++ user_entry clock user_input m :: more)
  /\ current_code (context m') = code.
Proof.
  intros m0 m'.
  assert (He : extends m0 m').
  { unfold m'; rewrite process_user_input_run; apply forward_dispatch. }
  repeat split; try reflexivity.
  - destruct (ext_transcript _ _ He) as [more Hm]; exists more.
    rewrite Hm; unfold m0; simpl; now rewrite <- app_assoc.
  - now rewrite (ext_code _ _ He).
Qed.

End RecordInput.

(** ** Observations a command keeps *)

Lemma keeps_ret {A X} (f : Machine -> X) (a : A) : keeps f (ret a).
Proof. intros m; reflexivity. Qed.

Lemma keeps_bind {A B X} (f : Machine -> X) (c : M A) (k : A -> M B) :
  keeps f c -> (forall a, keeps f (k a)) -> keeps f (bind c k).
Proof.
  intros Hc Hk m; unfold bind; specialize (Hc m).
  destruct (c m) as [a m1]; simpl in Hc.
  now rewrite Hk.
Qed.

(** Splits a command into its steps; a step that computes is closed by
    evaluation, a branch by cases. *)
Ltac keeps_steps known :=
  repeat first
    [ known
    | apply keeps_bind; [| intros ?]
    | match goal with
      | |- keeps _ (match ?x with _ => _ end) => destruct x
      end
    | (intros ?; reflexivity) ].

Section Counter.

Variable ai : nat -> Prompt -> string.
Variable clock : nat -> Z.

Lemma attempts_present_question : keeps attempts (_present_question ai clock).
Proof. unfold _present_question; keeps_steps fail. Qed.

Lemma attempts_end_interview : keeps attempts (end_interview ai clock).
Proof. unfold end_interview; keeps_steps fail. Qed.

Lemma attempts_give_hint : keeps attempts (_give_hint ai clock).
Proof. unfold _give_hint; keeps_steps fail. Qed.

Lemma attempts_ask_follow_up : keeps attempts (_ask_follow_up ai clock).
Proof. unfold _ask_follow_up; keeps_steps fail. Qed.

Lemma attempts_move_on_or_conclude :
  keeps attempts (_move_on_or_conclude ai clock).
Proof.
  unfold _move_on_or_conclude;
    keeps_steps ltac:(first [ apply attempts_present_question
                            | apply attempts_end_interview ]).
Qed.

Lemma attempts_request_hint : keeps attempts (request_hint ai clock).
Proof.
  unfold request_hint; keeps_steps ltac:(apply attempts_give_hint).
Qed.

Lemma attempts_record_input (user_input code : string) :
  keeps attempts (record_input clock user_input code).
Proof. intros m; reflexivity. Qed.

(** *** The four branches of [_handle_solving_response] *)

Lemma solving_garbage (user_input : string) (m : Machine) :
  _is_garbage_input user_input = true ->
  _handle_solving_response ai clock user_input m
  = ("I didn't catch that. Could you repeat?", m).
Proof. intros H; unfold _handle_solving_response; now rewrite H. Qed.

Lemma solving_hint (user_input : string) (m : Machine) :
  _is_garbage_input user_input = false ->
  _is_asking_for_hint user_input = true ->
  _handle_solving_response ai clock user_input m
  = _give_hint ai clock (with_attempts 0 m).
Proof.
  intros H1 H2; unfold _handle_solving_response; now rewrite H1, H2.
Qed.

Lemma solving_finished (user_input : string) (m : Machine) :
  _is_garbage_input user_input = false ->
  _is_asking_for_hint user_input = false ->
  _seems_finished user_input = true ->
  _handle_solving_response ai clock user_input m
  = _ask_follow_up ai clock (with_attempts 0 m).
Proof.
  intros H1 H2 H3; unfold _handle_solving_response; now rewrite H1, H2, H3.
Qed.

Lemma solving_exhausted (user_input : string) (m : Machine) :
  _is_garbage_input user_input = false ->
  _is_asking_for_hint user_input = false ->
  _seems_finished user_input = false ->
  max_retries (context m) <= attempts m + 1 ->
  _handle_solving_response ai clock user_input m
  = _move_on_or_conclude ai clock (with_attempts 0 m).
Proof.
  intros H1 H2 H3 H4; unfold _handle_solving_response.
  rewrite H1, H2, H3; unfold bind at 1; simpl.
  unfold bind at 1; simpl.
  apply Nat.leb_le in H4; unfold attempts in H4; rewrite H4.
  reflexivity.
Qed.

Lemma solving_feedback (user_input : string) (m : Machine) :
  _is_garbage_input user_input = false ->
  _is_asking_for_hint user_input = false ->
  _seems_finished user_input = false ->
  attempts m + 1 < max_retries (context m) ->
  _handle_solving_response ai clock user_input m
  = feedback_result clock user_input m (feedback_of ai user_input m).
Proof.
  intros H1 H2 H3 H4; unfold feedback_result, feedback_of,
    _handle_solving_response.
  rewrite H1, H2, H3.
  apply Nat.leb_gt in H4; unfold attempts in H4.
  unfold bind, ret, update_context, get_context, generate_response,
    _add_to_transcript, now.
  cbn [fst snd context follow_up_attempts max_retries
       set_follow_up_attempts].
  rewrite H4.
  cbn [fst snd context state ai_calls clock_reads trace].
  destruct (contains "[WRONG]" _); reflexivity.
Qed.

(** The retry counter through [_handle_solving_response]: kept on
    garbage, cleared on a hint request and on completion, and on the
    default branch either advanced by one or, when that reaches the
    limit, cleared with the call ending in [_move_on_or_conclude]. *)
Lemma solving_counter (user_input : string) (m : Machine) :
  let m' := snd (_handle_solving_response ai clock user_input m) in
  if _is_garbage_input user_input then attempts m' = attempts m
  else if _is_asking_for_hint user_input then attempts m' = 0
  else if _seems_finished user_input then attempts m' = 0
  else if max_retries (context m) <=? attempts m + 1 then
    attempts m' = 0
    /\ _handle_solving_response ai clock user_input m
       = _move_on_or_conclude ai clock (with_attempts 0 m)
  else attempts m' = attempts m + 1.
Proof.
  intros m'; subst m'.
  destruct (_is_garbage_input user_input) eqn:H1.
  { now rewrite solving_garbage. }
  destruct (_is_asking_for_hint user_input) eqn:H2.
  { rewrite solving_hint by assumption; now rewrite attempts_give_hint. }
  destruct (_seems_finished user_input) eqn:H3.
  { rewrite solving_finished by assumption.
    now rewrite attempts_ask_follow_up. }
  destruct (max_retries (context m) <=? attempts m + 1) eqn:H4.
  - apply Nat.leb_le in H4.
    rewrite solving_exhausted by assumption.
    split; [now rewrite attempts_move_on_or_conclude | reflexivity].
  - apply Nat.leb_gt in H4.
    rewrite solving_feedback by assumption.
    unfold feedback_result; cbv zeta.
    destruct (contains "[WRONG]" _); reflexivity.
Qed.

(** C3 (as amended).  In CandidateSolving an utterance the garbage
    classifier matches is answered with the fixed reprompt; no
    generative call is made and nothing is added to the trace, the phase
    and the retry counter stay as they were, and the session context
    changes in the two fields [process_user_input] writes before the
    dispatch and in no other: the transcript gains the utterance and
    [current_code] is the snapshot. *)
Theorem C3_garbage_reprompt (user_input code : string) (m : Machine) :
  _is_garbage_input user_input = true ->
  state m = CANDIDATE_SOLVING ->
  let m' := snd (process_user_input ai clock user_input code m) in
  fst (process_user_input ai clock user_input code m)
    = "I didn't catch that. Could you repeat?"
  /\ ai_calls m' = ai_calls m
  /\ trace m' = trace m
  /\ state m' = state m
  /\ follow_up_attempts (context m') = follow_up_attempts (context m)
  /\ context m'
     = set_current_code code
         (set_transcript
            (transcript (context m) ++ [user_entry clock user_input m])
            (context m)).
Proof.
  intros Hg Hs m'; subst m'.
  rewrite process_user_input_run, record_input_run.
  unfold dispatch, bind, get_state; cbn [fst snd state]; rewrite Hs.
  rewrite solving_garbage by exact Hg.
  repeat split; assumption.
Qed.

End Counter.

(** the witness of C3: "um" said during the first question *)
Lemma C3_witness :
  fst (process_user_input plain_ai steady_clock "um" "x = 1" first_question)
    = "I didn't catch that. Could you repeat?"
  /\ trace (snd (process_user_input plain_ai steady_clock "um" "x = 1"
                   first_question))
     = trace first_question.
Proof.
  pose proof (C3_garbage_reprompt plain_ai steady_clock "um" "x = 1"
                first_question eq_refl eq_refl) as H.
  split; [apply H | apply (proj1 (proj2 (proj2 H)))].
Defined.

(** C3, as first stated, fails: the session context is not the same after
    a garbage utterance has been processed. *)
Lemma C3_counterexample :
  _is_garbage_input "um" = true
  /\ state first_question = CANDIDATE_SOLVING
  /\ context (snd (process_user_input plain_ai steady_clock "um" "x = 1"
                     first_question))
     <> context first_question.
Proof.
  split; [reflexivity | split; [reflexivity |]].
  intros H; apply (f_equal current_code) in H.
  vm_compute in H; discriminate H.
Qed.

(** ** Two ways to ask for a hint, and the tag of a feedback text *)

Section HintAndTag.

Variable ai : nat -> Prompt -> string.
Variable clock : nat -> Z.

Lemma clean_display_untagged (response : string) :
  (forall tag, In tag display_tags -> contains tag response = false) ->
  strip response = response ->
  clean_display response = response.
Proof.
  intros Htags Hs; unfold clean_display.
  assert (H : forall tags,
             (forall tag, In tag tags -> contains tag response = false) ->
             fold_left (fun d tag => strip (replace tag "" d)) tags response
             = response).
  { induction tags as [|tag tags IH]; intros Hin; [reflexivity |].
    cbn [fold_left].
    rewrite (replace_absent tag "" response) by (apply Hin; now left).
    rewrite Hs; apply IH; intros t Ht; apply Hin; now right. }
  now apply H.
Qed.

Lemma correction_of_untagged (response : string) :
  (forall tag, In tag display_tags -> contains tag response = false) ->
  strip response = response ->
  correction_of response = response.
Proof.
  intros Htags Hs; unfold correction_of.
  rewrite (replace_absent "[WRONG]" "" response)
    by (apply Htags; simpl; auto).
  rewrite (replace_absent "[wrong]" "" response)
    by (apply Htags; simpl; auto 6).
  exact Hs.
Qed.

(** C1.  In CandidateSolving the hint button ([request_hint]) gives a
    hint and leaves the retry counter as it was, where a spoken hint
    request gives a hint and clears the counter. *)
Theorem C1_request_hint_keeps_retry_counter
  (user_input code : string) (m : Machine) :
  state m = CANDIDATE_SOLVING ->
  _is_garbage_input user_input = false ->
  _is_asking_for_hint user_input = true ->
  request_hint ai clock m = _give_hint ai clock m
  /\ attempts (snd (request_hint ai clock m)) = attempts m
  /\ attempts (snd (process_user_input ai clock user_input code m)) = 0.
Proof.
  intros Hs Hg Hh; split; [| split].
  - unfold request_hint, bind, get_state; cbn [fst snd]; now rewrite Hs.
  - apply attempts_request_hint.
  - rewrite process_user_input_run, record_input_run; cbn [snd].
    unfold dispatch, bind, get_state; cbn [fst snd state]; rewrite Hs.
    rewrite solving_hint by assumption.
    now rewrite attempts_give_hint.
Qed.

(** C2.  On the default path, a feedback text that carries the WRONG tag
    in some casing other than the two the code removes, and has no white
    space around it, is returned to the caller as it is, tag included,
    and is recorded as it is as the correction of the one mistake
    appended. *)
Theorem C2_mixed_case_tag_is_kept (user_input : string) (m : Machine) :
  _is_garbage_input user_input = false ->
  _is_asking_for_hint user_input = false ->
  _seems_finished user_input = false ->
  attempts m + 1 < max_retries (context m) ->
  let response := feedback_of ai user_input m in
  contains "[WRONG]" (upper response) = true ->
  (forall tag, In tag display_tags -> contains tag response = false) ->
  strip response = response ->
  fst (_handle_solving_response ai clock user_input m) = response
  /\ mistakes (context (snd (_handle_solving_response ai clock user_input m)))
     = mistakes (context m)
       ++ [mkMistake (take 100 (current_question (context m)))
                     user_input response].
Proof.
  intros H1 H2 H3 H4 response Hw Htags Hs.
  rewrite solving_feedback by assumption.
  fold response; unfold feedback_result; cbv zeta; rewrite Hw.
  rewrite (clean_display_untagged response Htags Hs).
  rewrite (correction_of_untagged response Htags Hs).
  split; reflexivity.
Qed.

End HintAndTag.

(** the witness of C1: the hint button after three unrecognised
    utterances leaves the counter at 3 *)
Lemma C1_witness :
  attempts (snd (request_hint plain_ai steady_clock three_attempts)) = 3
  /\ attempts (snd (process_user_input plain_ai steady_clock
                      "can I get a hint" "" three_attempts)) = 0.
Proof.
  destruct (C1_request_hint_keeps_retry_counter plain_ai steady_clock
              "can I get a hint" "" three_attempts
              eq_refl eq_refl eq_refl) as (_ & Hk & Hz).
  split; [rewrite Hk; reflexivity | exact Hz].
Defined.

(** the witness of C2: "[Wrong] ..." in answer to a wrong complexity *)
Lemma C2_witness :
  fst (_handle_solving_response mixed_case_ai steady_clock
         "it runs in linear time"
         (session_solving mixed_case_ai steady_clock))
  = mixed_case_feedback
  /\ mistakes
       (context
          (snd (_handle_solving_response mixed_case_ai steady_clock
                  "it runs in linear time"
                  (session_solving mixed_case_ai steady_clock))))
     = [mkMistake "Find two numbers that add up to a target."
                  "it runs in linear time" mixed_case_feedback].
Proof.
  refine (C2_mixed_case_tag_is_kept mixed_case_ai steady_clock
            "it runs in linear time"
            (session_solving mixed_case_ai steady_clock)
            eq_refl eq_refl eq_refl _ eq_refl _ eq_refl).
  - vm_compute; lia.
  - intros tag Htag; simpl in Htag.
    repeat (destruct Htag as [<- | Htag]; [reflexivity |]).
    contradiction.
Defined.

(** the same through [process_user_input] *)
Example feedback_wrong_mixed_case :
  mistakes (context (snd (process_user_input mixed_case_ai steady_clock
                            "it runs in linear time" ""
                            (session_solving mixed_case_ai steady_clock))))
  = [mkMistake "Find two numbers that add up to a target."
               "it runs in linear time" mixed_case_feedback]
  /\ fst (process_user_input mixed_case_ai steady_clock
            "it runs in linear time" ""
            (session_solving mixed_case_ai steady_clock))
     = mixed_case_feedback
  /\ contains "[Wrong]" mixed_case_feedback = true.
Proof. vm_compute; repeat split. Qed.

(** the spec's own example: the upper-case tag is removed *)
Example feedback_wrong_upper_case :
  mistakes
    (context
       (snd (process_user_input
               (scripted_ai "[WRONG] Actually it's O(n log n).") steady_clock
               "it runs in linear time" ""
               (session_solving
                  (scripted_ai "[WRONG] Actually it's O(n log n).")
                  steady_clock))))
  = [mkMistake "Find two numbers that add up to a target."
               "it runs in linear time" "Actually it's O(n log n)."]
  /\ fst (process_user_input
            (scripted_ai "[WRONG] Actually it's O(n log n).") steady_clock
            "it runs in linear time" ""
            (session_solving
               (scripted_ai "[WRONG] Actually it's O(n log n).")
               steady_clock))
     = "Actually it's O(n log n).".
Proof. vm_compute; repeat split. Qed.

(** removal is one pass per tag: a tag put together by a removal stays *)
Example feedback_tag_rebuilt :
  clean_display "[WR[WRONG]ONG] no" = "[WRONG] no".
Proof. reflexivity. Qed.

(** ** The response parser *)

Lemma lit_ci_prefix (lit s r : string) :
  Re.lit_ci lit s = Some r -> prefix (lower lit) (lower s) = true.
Proof.
  revert s; induction lit as [|a lit IH]; intros s H.
  - now destruct s.
  - destruct s as [|c s]; [discriminate H|].
    cbn [Re.lit_ci] in H.
    destruct (Ascii.eqb (lower_char a) (lower_char c)) eqn:E; [|discriminate H].
    apply Ascii.eqb_eq in E; cbn; rewrite E.
    destruct (ascii_dec (lower_char c) (lower_char c)) as [_ | n];
      [now apply IH | now contradiction n].
Qed.

(** a search whose matcher needs [lit] at the head of the text finds
    nothing in a text that does not contain [lit] *)
Lemma search_absent {A} (m : string -> option A) (lit s : string) :
  (forall t g, m t = Some g -> prefix lit (lower t) = true) ->
  contains lit (lower s) = false ->
  Re.search m s = None.
Proof.
  intros Hm; induction s as [|c s IH]; intros H.
  - cbn [Re.search]; destruct (m EmptyString) eqn:E; [|reflexivity].
    apply Hm in E; unfold lower in *; cbn [smap contains] in *.
    apply orb_false_iff in H as [Hp _]; congruence.
  - cbn [Re.search]; destruct (m (String c s)) eqn:E.
    + apply Hm in E; unfold lower in *; cbn [smap contains] in *.
      apply orb_false_iff in H as [Hp _]; congruence.
    + unfold lower in *; cbn [smap contains] in H.
      apply orb_false_iff in H as [_ Hc]; now apply IH.
Qed.

(** a text in which none of the four labels occurs, in any casing, has no
    match for any of the three searches *)
Lemma unlabelled_no_match (response : string) :
  contains "question_title:" (lower response) = false ->
  contains "question_text:" (lower response) = false ->
  contains "verbal:" (lower response) = false ->
  contains "explanation:" (lower response) = false ->
  Re.title_match response = None
  /\ Re.text_match response = None
  /\ Re.exp_match response = None.
Proof.
  intros H1 H2 H3 H4; repeat split.
  - apply (search_absent _ "question_title:"); [|exact H1].
    intros t g; unfold Re.title_at.
    destruct (Re.lit_ci _ t) eqn:E; [|discriminate].
    intros _; exact (lit_ci_prefix _ _ _ E).
  - apply (search_absent _ "question_text:"); [|exact H2].
    intros t g; unfold Re.text_at.
    destruct (Re.lit_ci _ t) eqn:E; [|discriminate].
    intros _; exact (lit_ci_prefix _ _ _ E).
  - unfold Re.exp_match.
    destruct (Re.search Re.exp_at response) eqn:E; [|reflexivity].
    exfalso; revert E.
    assert (Hv : Re.search (fun t => match Re.lit_ci "VERBAL:" t with
                                     | Some _ => Some tt | None => None end)
                           response = None).
    { apply (search_absent _ "verbal:"); [|exact H3].
      intros t g; destruct (Re.lit_ci _ t) eqn:E; [|discriminate].
      intros _; exact (lit_ci_prefix _ _ _ E). }
    assert (He : Re.search (fun t => match Re.lit_ci "EXPLANATION:" t with
                                     | Some _ => Some tt | None => None end)
                           response = None).
    { apply (search_absent _ "explanation:"); [|exact H4].
      intros t g; destruct (Re.lit_ci _ t) eqn:E; [|discriminate].
      intros _; exact (lit_ci_prefix _ _ _ E). }
    clear H1 H2 H3 H4; induction response as [|c r IH].
    + cbn; discriminate.
    + cbn [Re.search] in *.
      destruct (Re.lit_ci "VERBAL:" (String c r)) eqn:E1; [discriminate Hv|].
      destruct (Re.lit_ci "EXPLANATION:" (String c r)) eqn:E2;
        [discriminate He|].
      unfold Re.exp_at at 1; rewrite E1, E2; cbn [Re.orelse].
      now apply IH.
Qed.

(** C5 (as amended).  Given [None] or the empty string the parser returns
    the default title and the two literal placeholders.  Given a
    non-empty text in which no label matches it returns the default
    title, and as question text and as explanation alike the text with
    every "---" removed and the white space around it trimmed; that is
    the text itself when it contains no "---" and neither starts nor
    ends with white space. *)
Theorem C5_parser_fallback (response : string) :
  _parse_question_response None = parser_defaults
  /\ _parse_question_response (Some EmptyString) = parser_defaults
  /\ (response <> EmptyString ->
      Re.title_match response = None ->
      Re.text_match response = None ->
      Re.exp_match response = None ->
      _parse_question_response (Some response)
      = ("Interview Question", clean_field response, clean_field response)
      /\ (contains "---" response = false -> strip response = response ->
          _parse_question_response (Some response)
          = ("Interview Question", response, response))).
Proof.
  split; [reflexivity | split; [reflexivity |]].
  intros Hne Ht Hq He.
  assert (Hrun : _parse_question_response (Some response)
                 = ("Interview Question", clean_field response,
                    clean_field response)).
  { unfold _parse_question_response.
    destruct response as [|c r]; [now contradiction Hne|].
    cbn [truthy negb]; rewrite Ht, Hq, He; reflexivity. }
  split; [exact Hrun|].
  intros Hd Hs; rewrite Hrun; unfold clean_field.
  now rewrite (replace_absent _ _ _ Hd), Hs.
Qed.

(** the witness of C5: a one-sentence question without labels *)
Lemma C5_witness :
  _parse_question_response (Some "Reverse a linked list.")
  = ("Interview Question", "Reverse a linked list.", "Reverse a linked list.").
Proof.
  refine (proj2 (proj2 (proj2 (C5_parser_fallback "Reverse a linked list."))
                  _ _ _ _) _ _);
    solve [reflexivity | discriminate].
Defined.

(** C5, as first stated, fails: with no label matching, the two fields
    are not the raw text when it contains the delimiter. *)
Lemma C5_counterexample :
  Re.title_match unlabelled_question = None
  /\ Re.text_match unlabelled_question = None
  /\ Re.exp_match unlabelled_question = None
  /\ _parse_question_response (Some unlabelled_question)
     <> ("Interview Question", unlabelled_question, unlabelled_question).
Proof.
  repeat split; try reflexivity.
  vm_compute; intros H; discriminate H.
Qed.

(** ** Progression: the next question or the end *)

Lemma snd_bind_pure {A B} (c : M A) (k : A -> M B) (m : Machine) :
  (forall a m1, snd (k a m1) = m1) -> snd (bind c k m) = snd (c m).
Proof. intros Hk; unfold bind; destruct (c m) as [a m1]; apply Hk. Qed.

Section Progression.

Variable ai : nat -> Prompt -> string.
Variable clock : nat -> Z.

Lemma present_question_presented (m : Machine) :
  presented m (snd (_present_question ai clock m)).
Proof.
  unfold presented, _present_question, _add_to_transcript,
    notify_state_change, bind, ret, set_state, get_state, get_context, emit,
    update_context, generate_response, now.
  cbn [fst snd state context ai_calls clock_reads trace].
  destruct (_parse_question_response _) as [[title qtext] expl].
  cbn [fst snd state context ai_calls clock_reads trace questions_asked
       end_time set_transcript set_hints_given set_questions_asked
       set_current_question].
  repeat split; eauto.
  eexists; rewrite <- !app_assoc; reflexivity.
Qed.

Lemma end_interview_concluded (m : Machine) :
  concluded m (snd (end_interview ai clock m)).
Proof.
  unfold concluded; repeat split; try reflexivity.
  - eexists; reflexivity.
  - exists []; eexists.
    unfold end_interview, _add_to_transcript, notify_state_change, bind,
      ret, set_state, get_state, get_context, emit, update_context,
      generate_response, now.
    cbn [fst snd state context ai_calls clock_reads trace].
    rewrite <- !app_assoc; reflexivity.
Qed.

(** *** What [_move_on_or_conclude] does (retry exhaustion) *)

Lemma move_on_or_conclude_run (m : Machine) :
  snd (_move_on_or_conclude ai clock m)
  = if List.length (asked m) <? 2 then snd (_present_question ai clock m)
    else snd (end_interview ai clock m).
Proof.
  unfold _move_on_or_conclude.
  unfold bind at 1, get_context; cbn [fst snd]; cbv zeta.
  fold asked; change (questions_asked (context m)) with (asked m).
  destruct (List.length (asked m) <? 2);
    apply snd_bind_pure; reflexivity.
Qed.

Lemma move_on_or_conclude_gate (m : Machine) :
  let m' := snd (_move_on_or_conclude ai clock m) in
  if List.length (asked m) <? 2 then presented m m' else concluded m m'.
Proof.
  cbv zeta; rewrite move_on_or_conclude_run.
  destruct (List.length (asked m) <? 2);
    [apply present_question_presented | apply end_interview_concluded].
Qed.

(** *** What [_handle_follow_up_response] does (a FollowUp round) *)

Lemma follow_up_run (user_input : string) (m : Machine) :
  _handle_follow_up_response ai clock user_input m
  = if 2 <=? List.length (asked m)
    then end_interview ai clock (after_feedback ai clock user_input m)
    else (ai (ai_calls m)
             (FOLLOW_UP_FEEDBACK (current_question (context m))
                                 (current_code (context m)) user_input),
          after_feedback ai clock user_input m).
Proof.
  unfold _handle_follow_up_response, after_feedback, asked.
  unfold _add_to_transcript, bind, get_context, generate_response, now,
    update_context, ret.
  cbn [fst snd state context ai_calls clock_reads trace questions_asked
       set_transcript].
  destruct (2 <=? _); reflexivity.
Qed.

Lemma follow_up_gate (user_input : string) (m : Machine) :
  let out := _handle_follow_up_response ai clock user_input m in
  if 2 <=? List.length (asked m) then concluded m (snd out)
  else
    state (snd out) = state m
    /\ asked (snd out) = asked m
    /\ end_time (context (snd out)) = end_time (context m)
    /\ fst out
       = ai (ai_calls m)
            (FOLLOW_UP_FEEDBACK (current_question (context m))
                                (current_code (context m)) user_input)
    /\ trace (snd out)
       = trace m
         ++ [EvGenerate
               (FOLLOW_UP_FEEDBACK (current_question (context m))
                                   (current_code (context m)) user_input)].
Proof.
  cbv zeta; rewrite follow_up_run.
  destruct (2 <=? List.length (asked m)).
  - destruct (end_interview_concluded (after_feedback ai clock user_input m))
      as (Hs & Hq & Ht & before & p & Htr).
    split; [exact Hs | split; [exact Hq | split; [exact Ht |]]].
    exists (EvGenerate
              (FOLLOW_UP_FEEDBACK (current_question (context m))
                                  (current_code (context m)) user_input)
              :: before), p.
    rewrite Htr; unfold after_feedback, _add_to_transcript, bind,
      generate_response, now, update_context.
    cbn [fst snd trace]; rewrite <- app_assoc; reflexivity.
  - repeat split.
Qed.

End Progression.

(** ** The cap of two questions *)

Section Cap.

Variable ai : nat -> Prompt -> string.
Variable clock : nat -> Z.

Lemma asked_give_hint : keeps asked (_give_hint ai clock).
Proof. unfold _give_hint; keeps_steps fail. Qed.

Lemma state_give_hint (m : Machine) :
  state (snd (_give_hint ai clock m)) = CANDIDATE_SOLVING.
Proof. reflexivity. Qed.

Lemma asked_ask_follow_up : keeps asked (_ask_follow_up ai clock).
Proof. unfold _ask_follow_up; keeps_steps fail. Qed.

Lemma state_ask_follow_up (m : Machine) :
  state (snd (_ask_follow_up ai clock m)) = FOLLOW_UP.
Proof. reflexivity. Qed.

Lemma cap_presented (m m' : Machine) :
  List.length (asked m) < 2 -> presented m m' -> within_cap m'.
Proof.
  intros Hlt (Hs & (title & Hq) & _); unfold within_cap, at_rest, asked in *.
  rewrite Hs, Hq, length_app; simpl; split; [lia | exact I].
Qed.

Lemma cap_concluded (m m' : Machine) :
  List.length (asked m) <= 2 -> concluded m m' -> within_cap m'.
Proof.
  intros Hle (Hs & Hq & _); unfold within_cap, at_rest, asked in *.
  rewrite Hs, Hq; split; [exact Hle | exact I].
Qed.

Lemma cap_solving (user_input : string) (m : Machine) :
  List.length (asked m) <= 2 -> state m = CANDIDATE_SOLVING ->
  within_cap (snd (_handle_solving_response ai clock user_input m)).
Proof.
  intros Hle Hs.
  destruct (_is_garbage_input user_input) eqn:H1.
  { rewrite solving_garbage by assumption.
    unfold within_cap, at_rest; cbn [snd]; now rewrite Hs. }
  destruct (_is_asking_for_hint user_input) eqn:H2.
  { rewrite solving_hint by assumption.
    unfold within_cap, at_rest.
    rewrite state_give_hint, asked_give_hint; split; [exact Hle | exact I]. }
  destruct (_seems_finished user_input) eqn:H3.
  { rewrite solving_finished by assumption.
    unfold within_cap, at_rest.
    rewrite state_ask_follow_up, asked_ask_follow_up;
      split; [exact Hle | exact I]. }
  destruct (Nat.le_gt_cases (max_retries (context m)) (attempts m + 1))
    as [H4 | H4].
  - rewrite solving_exhausted by assumption.
    pose proof (move_on_or_conclude_gate ai clock (with_attempts 0 m)) as H.
    cbv zeta in H.
    change (asked (with_attempts 0 m)) with (asked m) in H.
    destruct (List.length (asked m) <? 2) eqn:E.
    + apply Nat.ltb_lt in E.
      exact (cap_presented (with_attempts 0 m) _ E H).
    + exact (cap_concluded (with_attempts 0 m) _ Hle H).
  - rewrite solving_feedback by assumption.
    unfold within_cap, at_rest, feedback_result; cbv zeta; cbn [snd state].
    rewrite Hs; split; [| exact I].
    unfold asked; cbn [context].
    destruct (contains "[WRONG]" _); exact Hle.
Qed.

Lemma cap_follow_up (user_input : string) (m : Machine) :
  List.length (asked m) <= 2 -> state m = FOLLOW_UP ->
  within_cap (snd (_handle_follow_up_response ai clock user_input m)).
Proof.
  intros Hle Hs.
  pose proof (follow_up_gate ai clock user_input m) as H; cbv zeta in H.
  destruct (2 <=? List.length (asked m)).
  - exact (cap_concluded m _ Hle H).
  - destruct H as (Ha & Hb & _); unfold within_cap, at_rest.
    now rewrite Ha, Hb, Hs.
Qed.

Lemma cap_contextual (user_input : string) (m : Machine) :
  List.length (asked m) <= 2 -> state m = IDLE \/ state m = ENDED ->
  within_cap (snd (_generate_contextual_response ai clock user_input m)).
Proof.
  intros Hle Hs; unfold within_cap, at_rest.
  change (state (snd (_generate_contextual_response ai clock user_input m)))
    with (state m).
  change (asked (snd (_generate_contextual_response ai clock user_input m)))
    with (asked m).
  split; [exact Hle | destruct Hs as [-> | ->]; exact I].
Qed.

(** every entry point keeps a resting machine within the cap *)
Lemma perform_within_cap (c : Call) (m : Machine) :
  within_cap m -> within_cap (snd (perform ai clock c m)).
Proof.
  intros [Hle Hr]; destruct c as [| user_input code | |]; cbn [perform].
  - (* start_interview *)
    unfold within_cap, at_rest.
    change (state (snd (start_interview ai clock m))) with GREETING.
    change (asked (snd (start_interview ai clock m))) with (@nil string).
    split; [simpl; lia | reflexivity].
  - (* process_user_input *)
    rewrite process_user_input_run, record_input_run; cbn [snd].
    set (m0 := mkMachine _ _ _ _ _).
    assert (Hle0 : List.length (asked m0) <= 2) by exact Hle.
    unfold dispatch, bind, get_state; cbn [fst snd].
    change (state m0) with (state m).
    unfold at_rest in Hr.
    destruct (state m) eqn:Hs; try contradiction.
    + now apply cap_contextual; [| left].
    + unfold _handle_greeting_response.
      unfold bind at 1, update_context; cbn [fst snd].
      match goal with
      | |- within_cap (snd (_present_question _ _ ?m1)) =>
          apply (cap_presented m1);
            [| apply present_question_presented]
      end.
      unfold asked; cbn [context state ai_calls clock_reads trace m0
                         questions_asked set_interview_type set_current_code
                         set_transcript].
      rewrite Hr; simpl; lia.
    + now apply cap_solving.
    + now apply cap_follow_up.
    + now apply cap_contextual; [| right].
  - (* request_hint *)
    unfold request_hint, bind, get_state; cbn [fst snd].
    unfold at_rest in Hr.
    destruct (state m) eqn:Hs; try contradiction; cbn [state_eqb];
      try (unfold ret; cbn [snd]; unfold within_cap, at_rest;
           rewrite Hs; now split).
    unfold within_cap, at_rest.
    rewrite state_give_hint, asked_give_hint; now split.
  - (* end_interview *)
    exact (cap_concluded m _ Hle (end_interview_concluded ai clock m)).
Qed.

Lemma run_calls_within_cap (calls : list Call) (m : Machine) :
  within_cap m -> within_cap (run_calls ai clock calls m).
Proof.
  revert m; induction calls as [|c calls IH]; intros m Hm; [exact Hm|].
  apply IH, perform_within_cap, Hm.
Qed.

(** C6 (as amended).  On retry exhaustion (_move_on_or_conclude) the
    engine presents the next question if fewer than two questions have
    been asked and otherwise goes through Closing to Ended by
    end_interview.  After a FollowUp round it goes through Closing to
    Ended if two questions have been asked and otherwise stays in its
    phase, returning the feedback and presenting no question.  In every
    session the number of questions asked is at most two. *)
Theorem C6_progression_gate (user_input : string) (m : Machine) :
  (if List.length (asked m) <? 2
   then presented m (snd (_move_on_or_conclude ai clock m))
   else concluded m (snd (_move_on_or_conclude ai clock m)))
  /\ (if 2 <=? List.length (asked m)
      then concluded m (snd (_handle_follow_up_response ai clock user_input m))
      else
        state (snd (_handle_follow_up_response ai clock user_input m))
          = state m
        /\ asked (snd (_handle_follow_up_response ai clock user_input m))
           = asked m
        /\ fst (_handle_follow_up_response ai clock user_input m)
           = ai (ai_calls m)
                (FOLLOW_UP_FEEDBACK (current_question (context m))
                                    (current_code (context m)) user_input))
  /\ (forall calls,
        List.length (asked (run_calls ai clock calls new_machine)) <= 2).
Proof.
  split; [exact (move_on_or_conclude_gate ai clock m) | split].
  - pose proof (follow_up_gate ai clock user_input m) as H; cbv zeta in H.
    destruct (2 <=? List.length (asked m)); [exact H |].
    destruct H as (Ha & Hb & _ & Hc & _); auto.
  - intros calls.
    apply (run_calls_within_cap calls new_machine).
    split; [simpl; lia | exact I].
Qed.

End Cap.

(** C6, as first stated, fails: after a FollowUp round with one question
    asked no next question is presented; the machine stays in FollowUp. *)
Lemma C6_counterexample :
  state in_follow_up = FOLLOW_UP
  /\ List.length (asked in_follow_up) < 2
  /\ ~ presented in_follow_up
        (snd (process_user_input plain_ai steady_clock
                "it returns an empty list" "" in_follow_up))
  /\ state (snd (process_user_input plain_ai steady_clock
                   "it returns an empty list" "" in_follow_up)) = FOLLOW_UP
  /\ asked (snd (process_user_input plain_ai steady_clock
                   "it returns an empty list" "" in_follow_up))
     = asked in_follow_up.
Proof.
  split; [reflexivity | split; [vm_compute; lia | split]].
  - intros (H & _); vm_compute in H; discriminate H.
  - split; reflexivity.
Qed.

(** ** The session summary *)

Section Summary.

Variable ai : nat -> Prompt -> string.
Variable clock : nat -> Z.

Lemma started_extends (m m' : Machine) :
  extends m m' -> started clock m -> started clock m'.
Proof.
  intros He (i & Hi & Hs); exists i; split.
  - pose proof (ext_clock _ _ He); lia.
  - now rewrite (ext_start _ _ He).
Qed.

Lemma started_start_interview (m : Machine) :
  started clock (snd (start_interview ai clock m)).
Proof. exists (clock_reads m); split; [simpl; lia | reflexivity]. Qed.

Lemma started_perform (c : Call) (m : Machine) :
  started clock m -> started clock (snd (perform ai clock c m)).
Proof.
  intros Hm; destruct c as [| user_input code | |]; cbn [perform].
  - apply started_start_interview.
  - rewrite process_user_input_run.
    apply (started_extends (snd (record_input clock user_input code m)));
      [apply forward_dispatch |].
    destruct Hm as (i & Hi & Hs); exists i; split; [simpl; lia | exact Hs].
  - exact (started_extends _ _ (forward_request_hint ai clock m) Hm).
  - exact (started_extends _ _ (forward_end_interview ai clock m) Hm).
Qed.

Lemma started_run_calls (calls : list Call) (m : Machine) :
  started clock m -> started clock (run_calls ai clock calls m).
Proof.
  revert m; induction calls as [|c calls IH]; intros m Hm; [exact Hm|].
  apply IH, started_perform, Hm.
Qed.

(** [end_interview] stamps the end time with the reading it takes *)
Lemma end_interview_stamps (m : Machine) :
  end_time (context (snd (end_interview ai clock m)))
  = Some (clock (clock_reads m))
  /\ start_time (context (snd (end_interview ai clock m)))
     = start_time (context m).
Proof. split; reflexivity. Qed.


End Summary.

Lemma steady_clock_monotone : monotone steady_clock.
Proof. intros i j Hij; unfold steady_clock; lia. Qed.


Example summary_of_short_session :
  summary_duration
    (snd (end_interview plain_ai steady_clock first_question))
  = Some (Elapsed 4).
Proof. vm_compute; reflexivity. Qed.

(** ** The generative-service wrapper *)

Section Wrapper.

Variable post : list AIEngine.Msg -> AIEngine.Reply.
Variable print : AIEngine.Line -> AIEngine.Result unit.

(** the first line is written outside the [try] block: an exception of
    [print] there leaves [generate_response] *)
Lemma generate_response_first_line
  (self : AIEngine.Engine) (prompt : string) (context : option string)
  (e : AIEngine.Exn) :
  print (AIEngine.Generating (take 80 prompt)) = AIEngine.Raises e ->
  AIEngine.generate_response post print self prompt context
  = (AIEngine.Raises e, self).
Proof. intros H; unfold AIEngine.generate_response; now rewrite H. Qed.

(** so is an exception of [print] inside a handler *)
Lemma generate_response_handler_line
  (self : AIEngine.Engine) (prompt : string) (context : option string)
  (e : AIEngine.Exn) :
  print (AIEngine.Generating (take 80 prompt)) = AIEngine.Returns tt ->
  post (AIEngine._build_messages self prompt context)
  = AIEngine.PostRaises AIEngine.Timeout ->
  print AIEngine.TimedOut = AIEngine.Raises e ->
  AIEngine.generate_response post print self prompt context
  = (AIEngine.Raises e, self).
Proof.
  intros H1 H2 H3.
  unfold AIEngine.generate_response, AIEngine.try_generate.
  now rewrite H1, H2, H3.
Qed.

(** what the [try] block and its handlers give when every line is
    written *)
Lemma generate_response_written
  (self : AIEngine.Engine) (prompt : string) (context : option string) :
  writes_all print ->
  AIEngine.generate_response post print self prompt context
  = match post (AIEngine._build_messages self prompt context) with
    | AIEngine.PostRaises AIEngine.Timeout =>
        (AIEngine.Returns "I need a moment to think about that...", self)
    | AIEngine.PostRaises _ =>
        (AIEngine.Returns
           "I apologize for the technical issue. Please continue.", self)
    | AIEngine.Answer status_code _ body =>
        if (status_code =? 200)%Z then
          match body with
          | AIEngine.BadBody =>
              (AIEngine.Returns
                 "I apologize for the technical issue. Please continue.",
               self)
          | AIEngine.Message content =>
              match AIEngine._clean_response content with
              | AIEngine.Raises AIEngine.Timeout =>
                  (AIEngine.Returns "I need a moment to think about that...",
                   self)
              | AIEngine.Raises _ =>
                  (AIEngine.Returns
                     "I apologize for the technical issue. Please continue.",
                   self)
              | AIEngine.Returns answer =>
                  (AIEngine.Returns
                     (if truthy answer then answer
                      else "I'm here to help! Please go ahead."),
                   AIEngine.mkEngine (AIEngine.system_prompt self)
                     (AIEngine.conversation_history self
                        ++ [("user", prompt); ("assistant", answer)]))
              end
          end
        else
          (AIEngine.Returns
             "I apologize, I'm having some trouble. Let me try again.", self)
    end.
Proof.
  intros Hw; unfold AIEngine.generate_response, AIEngine.try_generate.
  rewrite !Hw.
  destruct (post (AIEngine._build_messages self prompt context))
    as [e | status_code text body].
  - destruct e; rewrite ?Hw; reflexivity.
  - rewrite Hw; destruct (status_code =? 200)%Z.
    + destruct body as [| content]; [rewrite Hw; reflexivity |].
      destruct (AIEngine._clean_response content) as [answer | e].
      * rewrite Hw; reflexivity.
      * destruct e; rewrite ?Hw; reflexivity.
    + rewrite Hw; reflexivity.
Qed.

End Wrapper.



(** ** The worker loop *)

Section WorkerLoop.

Import Worker.

Variable ai : nat -> Prompt -> string.
Variable clock : nat -> Z.
Variable tts : bool.
Variable interrupted : Worker.Task -> Machine -> option (string * Machine).

Lemma queued_app (a b : list Mark) : queued (a ++ b) = queued a ++ queued b.
Proof. apply flat_map_app. Qed.

Lemma began_app (a b : list Mark) : began (a ++ b) = began a ++ began b.
Proof. apply flat_map_app. Qed.

Lemma worker_marks_app (a b : list Mark) :
  worker_marks (a ++ b) = worker_marks a ++ worker_marks b.
Proof. apply filter_app. Qed.

Lemma flat_map_round_snoc (done : list Task) (t : Task) :
  flat_map round done ++ [Began t true; Finished t true; Completed false]
  = flat_map round (done ++ [t]).
Proof. rewrite flat_map_app; reflexivity. Qed.

Lemma invariant_new (m : Machine) : worker_invariant (InterviewWorker m).
Proof.
  split; [reflexivity | split; [reflexivity | split; [discriminate |]]].
  exists [], []; split; [reflexivity | constructor].
Qed.

Lemma invariant_queue_action (task : Task) (w : W) :
  worker_invariant w -> worker_invariant (queue_action task w).
Proof.
  intros (Hq & Hb & Hn & done & opened & Hm & Ho).
  unfold worker_invariant, queue_action, in_hand in *; cbn [marks task_queue pc is_busy] in *.
  rewrite queued_app, began_app, worker_marks_app, Hq; cbn.
  rewrite !app_nil_r; repeat split.
  - now rewrite <- !app_assoc.
  - exact Hb.
  - intros _ H; now apply app_eq_nil in H as [_ H].
  - exists done, opened; split; assumption.
Qed.

Lemma invariant_stop (w : W) : worker_invariant w -> worker_invariant (stop w).
Proof. intros H; exact H. Qed.

Ltac round_kept done opened :=
  cbn [marks task_queue pc is_busy busy_at];
  split; [assumption | split; [reflexivity | split; [discriminate |]]];
  exists done, opened; split; (assumption || constructor).

Lemma invariant_tick (w : W) :
  worker_invariant w -> worker_invariant (tick ai clock tts interrupted w).
Proof.
  intros (Hq & Hb & Hn & done & opened & Hm & Ho).
  destruct w as [q r b p m sg mk].
  unfold worker_invariant, tick, in_hand in *;
    cbn [marks task_queue pc is_busy running machine signals] in *.
  inversion Ho; subst; cbn [busy_at] in *.
  - (* at the loop head *)
    destruct r; round_kept done (@nil Mark).
  - (* at the test of the queue and the flag *)
    destruct q as [|task rest]; cbn [truthy_list andb negb].
    + round_kept done (@nil Mark).
    + cbn [marks task_queue pc is_busy busy_at].
      split; [assumption | split; [reflexivity | split; [discriminate |]]].
      exists done, []; split; (assumption || constructor).
  - (* before the pop *)
    destruct q as [|task rest]; [now contradiction (Hn eq_refl) |].
    cbn [marks task_queue pc is_busy busy_at].
    split; [exact Hq | split; [reflexivity | split; [discriminate |]]].
    exists done, []; split; (assumption || constructor).
  - (* sleeping *)
    round_kept done (@nil Mark).
  - (* stopped *)
    round_kept done (@nil Mark).
  - (* after the pop *)
    round_kept done (@nil Mark).
  - (* dispatching *)
    cbn [marks task_queue pc is_busy busy_at].
    rewrite queued_app, began_app, worker_marks_app, Hq, Hm; cbn.
    rewrite !app_nil_r; split; [now rewrite <- app_assoc |].
    split; [reflexivity | split; [discriminate |]].
    exists done, [Began t true]; split; [reflexivity | constructor].
  - (* in the task *)
    destruct (_process_task ai clock tts interrupted t m) as [out m'].
    cbn [marks task_queue pc is_busy busy_at].
    rewrite queued_app, began_app, worker_marks_app, Hq, Hm; cbn.
    rewrite !app_nil_r; split; [reflexivity |].
    split; [reflexivity | split; [discriminate |]].
    exists done, [Began t true; Finished t true]; split;
      [now rewrite <- app_assoc | constructor].
  - (* after the task *)
    cbn [marks task_queue pc is_busy busy_at].
    split; [exact Hq | split; [reflexivity | split; [discriminate |]]].
    exists done, [Began t true; Finished t true]; split;
      (assumption || constructor).
  - (* after clearing the flag *)
    cbn [marks task_queue pc is_busy busy_at].
    rewrite queued_app, began_app, worker_marks_app, Hq, Hm; cbn.
    rewrite !app_nil_r; split; [reflexivity |].
    split; [reflexivity | split; [discriminate |]].
    exists (done ++ [t]), []; split; [| constructor].
    rewrite app_nil_r, <- app_assoc; apply flat_map_round_snoc.
Qed.

Lemma invariant_run (schedule : list Label) (w : W) :
  worker_invariant w -> worker_invariant (run ai clock tts interrupted schedule w).
Proof.
  revert w; induction schedule as [|l schedule IH]; intros w Hw; [exact Hw|].
  apply IH; destruct l as [task | |]; cbn [exec];
    auto using invariant_queue_action, invariant_stop, invariant_tick.
Qed.

Lemma task_eqb_refl (t : Task) : task_eqb t t = true.
Proof. unfold task_eqb; now rewrite !String.eqb_refl. Qed.

Lemma rounds_done (done : list Task) (opened : list Mark) (p : PC) :
  open_round p opened -> rounds (flat_map round done ++ opened) = true.
Proof.
  intros Ho; induction done as [|t done IH].
  - destruct Ho; cbn; rewrite ?task_eqb_refl; reflexivity.
  - cbn [flat_map round app rounds]; rewrite task_eqb_refl; exact IH.
Qed.

(** *** Every queued task is served *)

Lemma run_app (a b : list Label) (w : W) :
  run ai clock tts interrupted (a ++ b) w = run ai clock tts interrupted b (run ai clock tts interrupted a w).
Proof. apply fold_left_app. Qed.

Lemma run_queue_actions (tasks : list Task) (w : W) :
  run ai clock tts interrupted (map QueueAction tasks) w
  = mkW (task_queue w ++ tasks) (running w) (is_busy w) (pc w) (machine w)
        (signals w) (marks w ++ map Queued tasks).
Proof.
  revert w; induction tasks as [|t tasks IH]; intros w.
  - destruct w; cbn; now rewrite !app_nil_r.
  - cbn [map run fold_left exec]; fold (run ai clock tts interrupted).
    change (fold_left (fun w l => exec ai clock tts interrupted l w)
                      (map QueueAction tasks) (queue_action t w))
      with (run ai clock tts interrupted (map QueueAction tasks) (queue_action t w)).
    rewrite IH; unfold queue_action;
      cbn [task_queue running is_busy pc machine signals marks].
    now rewrite <- !app_assoc.
Qed.

(** the statements of [run], one by one *)

Lemma tick_while (q : list Task) (r b : bool) (m : Machine)
                 (sg : list Signal) (mk : list Mark) :
  tick ai clock tts interrupted (mkW q r b AtLoopHead m sg mk)
  = mkW q r b (if r then AtTest else Stopped) m sg mk.
Proof. reflexivity. Qed.

Lemma tick_test (q : list Task) (r b : bool) (m : Machine)
                (sg : list Signal) (mk : list Mark) :
  tick ai clock tts interrupted (mkW q r b AtTest m sg mk)
  = mkW q r b (if truthy_list q && negb b then BeforePop else Sleeping)
        m sg mk.
Proof. reflexivity. Qed.

Lemma tick_pop (t : Task) (rest : list Task) (r b : bool) (m : Machine)
               (sg : list Signal) (mk : list Mark) :
  tick ai clock tts interrupted (mkW (t :: rest) r b BeforePop m sg mk)
  = mkW rest r b (AfterPop t) m sg mk.
Proof. reflexivity. Qed.

Lemma tick_set_busy (q : list Task) (r b : bool) (t : Task) (m : Machine)
                    (sg : list Signal) (mk : list Mark) :
  tick ai clock tts interrupted (mkW q r b (AfterPop t) m sg mk)
  = mkW q r true (Dispatching t) m sg mk.
Proof. reflexivity. Qed.

Lemma tick_dispatch (q : list Task) (r b : bool) (t : Task) (m : Machine)
                    (sg : list Signal) (mk : list Mark) :
  tick ai clock tts interrupted (mkW q r b (Dispatching t) m sg mk)
  = mkW q r b (InTask t) m sg (mk ++ [Began t b]).
Proof. reflexivity. Qed.

Lemma tick_process (q : list Task) (r b : bool) (t : Task) (m : Machine)
                   (sg : list Signal) (mk : list Mark) :
  tick ai clock tts interrupted (mkW q r b (InTask t) m sg mk)
  = mkW q r b AfterTask (snd (_process_task ai clock tts interrupted t m))
        (sg ++ fst (_process_task ai clock tts interrupted t m))
        (mk ++ [Finished t b]).
Proof.
  unfold tick; cbn [pc machine task_queue running is_busy signals marks].
  now destruct (_process_task ai clock tts interrupted t m).
Qed.

Lemma tick_clear (q : list Task) (r b : bool) (m : Machine)
                 (sg : list Signal) (mk : list Mark) :
  tick ai clock tts interrupted (mkW q r b AfterTask m sg mk)
  = mkW q r false AfterClear m sg mk.
Proof. reflexivity. Qed.

Lemma tick_complete (q : list Task) (r b : bool) (m : Machine)
                    (sg : list Signal) (mk : list Mark) :
  tick ai clock tts interrupted (mkW q r b AfterClear m sg mk)
  = mkW q r b AtLoopHead m (sg ++ [task_complete]) (mk ++ [Completed b]).
Proof. reflexivity. Qed.

Lemma tick_sleep (q : list Task) (r b : bool) (m : Machine)
                 (sg : list Signal) (mk : list Mark) :
  tick ai clock tts interrupted (mkW q r b Sleeping m sg mk)
  = mkW q r b AtLoopHead m sg mk.
Proof. reflexivity. Qed.

Lemma serve_one (t : Task) (rest : list Task) (w : W) :
  idle_with (t :: rest) w ->
  idle_with rest (run ai clock tts interrupted (repeat Tick 8) w)
  /\ marks (run ai clock tts interrupted (repeat Tick 8) w)
     = marks w ++ round t.
Proof.
  intros (Hp & Hr & Hb & Hq); destruct w as [q r b p m sg mk].
  cbn [pc running is_busy task_queue] in *; subst.
  change (run ai clock tts interrupted (repeat Tick 8)
            (mkW (t :: rest) true false AtLoopHead m sg mk))
    with (tick ai clock tts interrupted (tick ai clock tts interrupted
           (tick ai clock tts interrupted (tick ai clock tts interrupted
             (tick ai clock tts interrupted (tick ai clock tts interrupted
               (tick ai clock tts interrupted (tick ai clock tts interrupted
                  (mkW (t :: rest) true false AtLoopHead m sg mk))))))))).
  rewrite tick_while, tick_test; cbn [truthy_list andb negb].
  rewrite tick_pop, tick_set_busy, tick_dispatch, tick_process, tick_clear,
    tick_complete.
  unfold idle_with; cbn [pc running is_busy task_queue marks round].
  split; [repeat split |].
  now rewrite <- !app_assoc.
Qed.

Lemma serve_all (tasks : list Task) (w : W) :
  idle_with tasks w ->
  idle_with [] (run ai clock tts interrupted (repeat Tick (8 * List.length tasks)) w)
  /\ marks (run ai clock tts interrupted (repeat Tick (8 * List.length tasks)) w)
     = marks w ++ flat_map round tasks.
Proof.
  revert w; induction tasks as [|t tasks IH]; intros w Hw.
  - cbn; now rewrite app_nil_r.
  - replace (8 * List.length (t :: tasks))
      with (8 + 8 * List.length tasks) by (cbn [List.length]; lia).
    rewrite repeat_app, run_app.
    destruct (serve_one t tasks w Hw) as [Hi Hm].
    destruct (IH _ Hi) as [Hi' Hm'].
    split; [exact Hi' |].
    rewrite Hm', Hm; cbn [flat_map]; now rewrite <- app_assoc.
Qed.

Lemma began_rounds (tasks : list Task) : began (flat_map round tasks) = tasks.
Proof.
  induction tasks as [|t tasks IH]; [reflexivity |].
  cbn [flat_map]; rewrite began_app, IH; reflexivity.
Qed.

Lemma began_queued (tasks : list Task) : began (map Queued tasks) = [].
Proof. induction tasks as [|t tasks IH]; cbn; [reflexivity | exact IH]. Qed.

(** C8.  Under every interleaving of producers queueing actions, calls
    of [stop] and steps of the worker thread: the tasks dispatched so
    far, the one in hand and the queue are, in this order, the tasks
    queued (first in, first out); the busy flag is set exactly from the
    dispatch of a task to the end of its processing; and the worker's
    marks are rounds in which a task begins with the flag set, finishes,
    and has its completion signalled with the flag cleared before the
    next one begins.  And a worker given [tasks] serves all of them in
    that order and comes to rest. *)
Theorem C8_worker_serves_in_order
  (schedule : list Label) (tasks : list Task) (m : Machine) :
  (let w := run ai clock tts interrupted schedule (InterviewWorker m) in
   queued (marks w) = began (marks w) ++ in_hand w ++ task_queue w
   /\ is_busy w = busy_at (pc w)
   /\ rounds (worker_marks (marks w)) = true)
  /\ (let w := run ai clock tts interrupted
                  (map QueueAction tasks
                     ++ repeat Tick (8 * List.length tasks))
                  (InterviewWorker m) in
      began (marks w) = tasks
      /\ task_queue w = []
      /\ is_busy w = false
      /\ rounds (worker_marks (marks w)) = true).
Proof.
  split; cbv zeta.
  - destruct (invariant_run schedule _ (invariant_new m))
      as (Hq & Hb & _ & done & opened & Hm & Ho).
    split; [exact Hq | split; [exact Hb |]].
    rewrite Hm; exact (rounds_done done opened _ Ho).
  - rewrite run_app, run_queue_actions.
    cbn [InterviewWorker task_queue running is_busy pc machine signals marks
         app].
    match goal with
    | |- context [run _ _ _ _ _ ?w0] =>
        destruct (serve_all tasks w0) as [(Hp & Hr & Hb & Hq) Hm];
          [repeat split |]
    end.
    rewrite Hm; cbn [marks].
    rewrite began_app, began_queued, began_rounds, worker_marks_app.
    split; [reflexivity | split; [exact Hq | split; [exact Hb |]]].
    assert (Hw : worker_marks (map Queued tasks) = []).
    { clear; induction tasks as [|t tasks IH]; [reflexivity | exact IH]. }
    assert (Hr' : worker_marks (flat_map round tasks) = flat_map round tasks).
    { clear; induction tasks as [|t tasks IH]; [reflexivity |].
      cbn [flat_map]; rewrite worker_marks_app, IH; reflexivity. }
    rewrite Hw, Hr'; cbn [app].
    rewrite <- (app_nil_r (flat_map round tasks)).
    exact (rounds_done tasks [] AtLoopHead or_head).
Qed.

End WorkerLoop.

(** ** Worked examples *)

Example garbage_um : _is_garbage_input "  uM " = true.
Proof. reflexivity. Qed.

Example garbage_short_words : _is_garbage_input "a b c d efg" = true.
Proof. reflexivity. Qed.

Example garbage_three_of_five : _is_garbage_input "a b c def ghi" = false.
Proof. reflexivity. Qed.

Example not_garbage_sentence : _is_garbage_input "use a hash map" = false.
Proof. reflexivity. Qed.

Example hint_stuck : _is_asking_for_hint "I'm STUCK" = true.
Proof. reflexivity. Qed.

Example split_example : split "  a bc   def " = ["a"; "bc"; "def"].
Proof. reflexivity. Qed.

Example replace_example : replace "---" "" "a----b---" = "a-b".
Proof. reflexivity. Qed.

Example parse_labelled :
  _parse_question_response
    (Some "QUESTION_TITLE: Two Sum---QUESTION_TEXT: Find two numbers that add up to a target. VERBAL: The problem is in the editor.")
  = ("Two Sum", "Find two numbers that add up to a target.",
     "The problem is in the editor.").
Proof. vm_compute; reflexivity. Qed.

Example worker_two_tasks :
  Worker.began
    (Worker.marks
       (Worker.run plain_ai steady_clock true uninterrupted
          ([Worker.QueueAction start_task; Worker.Tick;
            Worker.QueueAction coding_task] ++ repeat Worker.Tick 12)
          (Worker.InterviewWorker new_machine)))
  = [start_task; coding_task].
Proof. vm_compute; reflexivity. Qed.

(* ================================================================== *)
(** * Further properties of the state machine *)

Section Entry.

Variable ai : nat -> Prompt -> string.
Variable clock : nat -> Z.

Lemma kind_present_question : keeps kind (_present_question ai clock).
Proof. unfold _present_question; keeps_steps fail. Qed.

Lemma process_in_greeting (user_input code : string) (m : Machine) :
  state m = GREETING ->
  process_user_input ai clock user_input code m
  = _handle_greeting_response ai clock user_input
      (snd (record_input clock user_input code m)).
Proof.
  intros Hs; rewrite process_user_input_run, record_input_run.
  unfold dispatch, bind, get_state; cbn [fst snd state]; now rewrite Hs.
Qed.

Lemma greeting_run (user_input : string) (m : Machine) :
  _handle_greeting_response ai clock user_input m
  = _present_question ai clock
      (snd (update_context
              (set_interview_type (chosen_type (lower user_input))) m)).
Proof. reflexivity. Qed.

(** Answering the greeting sets the interview type to one of four values
    and presents a question at once: "coding" (or another DSA keyword)
    wins over every other keyword, and an answer with no keyword at all
    gives "DSA". *)
Theorem greeting_answer_sets_type_and_presents
  (user_input code : string) (m : Machine) :
  state m = GREETING ->
  let m' := snd (process_user_input ai clock user_input code m) in
  In (kind m') detected_types
  /\ presented m m'
  /\ (contains "coding" (lower user_input) = true -> kind m' = "DSA")
  /\ ((forall kw, In kw type_keywords ->
         contains kw (lower user_input) = false) -> kind m' = "DSA").
Proof.
  intros Hs m'; subst m'; rewrite (process_in_greeting _ _ _ Hs).
  rewrite record_input_run; cbn [snd].
  rewrite greeting_run.
  match goal with
  | |- context [_present_question ai clock ?m1] => set (m1' := m1)
  end.
  assert (Hk : kind (snd (_present_question ai clock m1'))
               = chosen_type (lower user_input)).
  { rewrite kind_present_question; reflexivity. }
  rewrite Hk; split; [| split; [| split]].
  - unfold chosen_type, detected_types.
    repeat match goal with
           | |- In (if ?b then _ else _) _ => destruct b
           end; simpl; auto.
  - destruct (present_question_presented ai clock m1')
      as (Ha & Hb & Hc & Hd).
    split; [exact Ha | split; [exact Hb | split; [exact Hc | exact Hd]]].
  - intros Hc; unfold chosen_type; rewrite Hc, !orb_true_r; reflexivity.
  - intros Hn; unfold chosen_type.
    rewrite !Hn by (simpl; auto 12); reflexivity.
Qed.

(** [_present_question] returns a text that is never empty, logs this
    very text as the last transcript entry, stores the parsed question
    and starts the count of hints again at 0. *)
Theorem present_question_speaks_and_resets (m : Machine) :
  let out := _present_question ai clock m in
  truthy (fst out) = true
  /\ logged (snd out)
     = logged m ++ [mkEntry "AI" (fst out) (clock (clock_reads m))]
  /\ hints (snd out) = 0
  /\ (exists title explanation,
        _parse_question_response
          (Some (ai (ai_calls m)
                    (QUESTION_PROMPT (interview_type (context m))
                                     (difficulty (context m)))))
        = (title, current_question (context (snd out)), explanation)
        /\ asked (snd out) = asked m ++ [title]).
Proof.
  unfold _present_question, _add_to_transcript, notify_state_change, bind,
    ret, set_state, get_state, get_context, emit, update_context,
    generate_response, now.
  cbn [fst snd state context ai_calls clock_reads trace].
  destruct (_parse_question_response _) as [[title qtext] expl].
  cbn [fst snd state context ai_calls clock_reads trace].
  split; [now destruct expl | split; [reflexivity | split; [reflexivity |]]].
  exists title, expl; split; reflexivity.
Qed.

(** A hint raises [hints_given] by one and asks the service for the level
    [min(hints_given, 3)], so for a level between 1 and 3, telling it how
    many hints came before; listeners are told of GivingHint and the
    machine is back in CandidateSolving when the call returns. *)
Theorem give_hint_level_is_bounded (m : Machine) :
  let level := Nat.min (hints m + 1) 3 in
  let m' := snd (_give_hint ai clock m) in
  1 <= level <= 3
  /\ (2 <= hints m -> level = 3)
  /\ hints m' = hints m + 1
  /\ state m' = CANDIDATE_SOLVING
  /\ trace m'
     = trace m
       ++ [EvPhase GIVING_HINT; EvStateChange GIVING_HINT;
           EvGenerate (HINT_PROMPT (current_question (context m))
                                   (current_code (context m))
                                   (hints m) level);
           EvPhase CANDIDATE_SOLVING]
  /\ fst (_give_hint ai clock m)
     = ai (ai_calls m)
          (HINT_PROMPT (current_question (context m))
                       (current_code (context m)) (hints m) level).
Proof.
  cbv zeta; unfold hints.
  split; [lia | split; [lia | split; [reflexivity | split; [reflexivity |]]]].
  unfold _give_hint, _add_to_transcript, notify_state_change, bind, ret,
    set_state, get_state, get_context, emit, update_context,
    generate_response, now.
  cbn [fst snd state context ai_calls clock_reads trace hints_given
       set_hints_given current_question current_code].
  replace (hints_given (context m) + 1 - 1) with (hints_given (context m))
    by lia.
  split; [now rewrite <- !app_assoc | reflexivity].
Qed.

(** Outside CandidateSolving the hint button gives no hint: it returns a
    fixed sentence and leaves the machine exactly as it was. *)
Theorem request_hint_outside_solving (m : Machine) :
  state m <> CANDIDATE_SOLVING ->
  request_hint ai clock m
  = ("Hints are available while solving a problem.", m).
Proof.
  intros Hs; unfold request_hint, bind, get_state; cbn [fst snd].
  destruct (state m); try reflexivity; now contradiction Hs.
Qed.

End Entry.

Lemma greeting_answer_witness :
  kind (snd (process_user_input plain_ai steady_clock
               "system design, with some coding" ""
               (snd (start_interview plain_ai steady_clock new_machine))))
  = "DSA".
Proof.
  apply (proj1 (proj2 (proj2
           (greeting_answer_sets_type_and_presents plain_ai steady_clock
              "system design, with some coding" ""
              (snd (start_interview plain_ai steady_clock new_machine))
              eq_refl)))).
  reflexivity.
Defined.

Lemma request_hint_outside_witness :
  request_hint plain_ai steady_clock new_machine
  = ("Hints are available while solving a problem.", new_machine).
Proof.
  apply request_hint_outside_solving; discriminate.
Defined.

(** ** Sessions: phases, logs and counters *)

Section Sessions.

Variable ai : nat -> Prompt -> string.
Variable clock : nat -> Z.

Lemma process_in_solving (user_input code : string) (m : Machine) :
  state m = CANDIDATE_SOLVING ->
  process_user_input ai clock user_input code m
  = _handle_solving_response ai clock user_input
      (snd (record_input clock user_input code m)).
Proof.
  intros Hs; rewrite process_user_input_run, record_input_run.
  unfold dispatch, bind, get_state; cbn [fst snd state]; now rewrite Hs.
Qed.

Lemma process_in_follow_up (user_input code : string) (m : Machine) :
  state m = FOLLOW_UP ->
  process_user_input ai clock user_input code m
  = _handle_follow_up_response ai clock user_input
      (snd (record_input clock user_input code m)).
Proof.
  intros Hs; rewrite process_user_input_run, record_input_run.
  unfold dispatch, bind, get_state; cbn [fst snd state]; now rewrite Hs.
Qed.

Lemma process_elsewhere (user_input code : string) (m : Machine) :
  In (state m) [IDLE; QUESTION_PRESENTING; CLOSING; ENDED] ->
  process_user_input ai clock user_input code m
  = _generate_contextual_response ai clock user_input
      (snd (record_input clock user_input code m)).
Proof.
  intros Hs; rewrite process_user_input_run, record_input_run.
  unfold dispatch, bind, get_state; cbn [fst snd state].
  simpl in Hs; destruct Hs as [<- | [<- | [<- | [<- | []]]]]; reflexivity.
Qed.

(** *** The phases a session rests in *)


Lemma ended_perform (c : Call) (m : Machine) :
  c <> CallStart -> state m = ENDED ->
  state (snd (perform ai clock c m)) = ENDED
  /\ asked (snd (perform ai clock c m)) = asked m.
Proof.
  intros Hc Hs; destruct c as [| user_input code | |]; cbn [perform].
  - now contradiction Hc.
  - rewrite process_elsewhere by (rewrite Hs; simpl; auto).
    split; [exact Hs | reflexivity].
  - unfold request_hint, bind, get_state; cbn [fst snd]; rewrite Hs.
    split; [exact Hs | reflexivity].
  - split; reflexivity.
Qed.

(** Ended is final for everything but a new start: processing input,
    asking for a hint or ending again leaves the machine in Ended with
    the same questions asked. *)
Theorem ended_is_final (calls : list Call) (m : Machine) :
  no_start calls -> state m = ENDED ->
  state (run_calls ai clock calls m) = ENDED
  /\ asked (run_calls ai clock calls m) = asked m.
Proof.
  intros Hc; revert m; induction Hc as [|c calls Hc _ IH]; intros m Hs.
  - split; [exact Hs | reflexivity].
  - cbn [run_calls fold_left].
    destruct (ended_perform c m Hc Hs) as [Hs' Ha].
    destruct (IH _ Hs') as [Hs'' Ha'].
    split; [exact Hs'' |].
    unfold run_calls in Ha'; rewrite Ha'; exact Ha.
Qed.

(** *** Logs that only grow *)

Lemma perform_forward (c : Call) (m : Machine) :
  c <> CallStart ->
  exists m0,
    extends m0 (snd (perform ai clock c m))
    /\ (exists more, logged m0 = logged m ++ more)
    /\ mistaken m0 = mistaken m /\ asked m0 = asked m
    /\ trace m0 = trace m
    /\ start_time (context m0) = start_time (context m)
    /\ max_retries (context m0) = max_retries (context m).
Proof.
  intros Hc; destruct c as [| user_input code | |]; cbn [perform].
  - now contradiction Hc.
  - exists (snd (record_input clock user_input code m)).
    split; [rewrite process_user_input_run; apply forward_dispatch |].
    rewrite record_input_run; cbn [snd].
    split; [eexists; reflexivity | repeat split].
  - exists m; split; [apply forward_request_hint |].
    split; [exists []; now rewrite app_nil_r | repeat split].
  - exists m; split; [apply forward_end_interview |].
    split; [exists []; now rewrite app_nil_r | repeat split].
Qed.

(** No entry point other than [start_interview] removes or rewrites what
    has been logged: the transcript, the mistakes, the questions asked
    and the trace of effects only grow at their end, and the start time
    and the retry limit stay as they are. *)
Theorem logs_are_append_only (c : Call) (m : Machine) :
  c <> CallStart ->
  let m' := snd (perform ai clock c m) in
  (exists more, logged m' = logged m ++ more)
  /\ (exists more, mistaken m' = mistaken m ++ more)
  /\ (exists more, asked m' = asked m ++ more)
  /\ (exists more, trace m' = trace m ++ more)
  /\ start_time (context m') = start_time (context m)
  /\ max_retries (context m') = max_retries (context m).
Proof.
  intros Hc m'; subst m'.
  destruct (perform_forward c m Hc)
    as (m0 & He & [l0 Hl] & Hm & Ha & Ht & Hs & Hr).
  destruct He as [[l1 Hl1] [k1 Hk1] [q1 Hq1] [e1 He1] _ Hs1 Hr1 _ _].
  unfold logged, mistaken, asked in *.
  split; [exists (l0 ++ l1); now rewrite Hl1, Hl, app_assoc |].
  split; [exists k1; now rewrite Hk1, Hm |].
  split; [exists q1; now rewrite Hq1, Ha |].
  split; [exists e1; now rewrite He1, Ht |].
  split; congruence.
Qed.

End Sessions.

Lemma ended_is_final_witness :
  state (run_calls plain_ai steady_clock
           [CallProcess "one more thing" ""; CallHint; CallEnd]
           (snd (end_interview plain_ai steady_clock first_question)))
  = ENDED.
Proof.
  apply (ended_is_final plain_ai steady_clock
           [CallProcess "one more thing" ""; CallHint; CallEnd]
           (snd (end_interview plain_ai steady_clock first_question))).
  - repeat constructor; discriminate.
  - reflexivity.
Defined.

Lemma logs_are_append_only_witness :
  exists more,
    logged (snd (perform plain_ai steady_clock CallHint first_question))
    = logged first_question ++ more.
Proof.
  apply (logs_are_append_only plain_ai steady_clock CallHint first_question).
  discriminate.
Defined.

(** ** Hints and mistakes across a call *)

Section Steps.

Variable ai : nat -> Prompt -> string.
Variable clock : nat -> Z.

Lemma hint_step_same (m m' : Machine) :
  asked m' = asked m -> hints m' = hints m -> hint_step m m'.
Proof. intros Ha Hh; left; split; [exact Ha | rewrite Hh; apply le_n]. Qed.

Lemma hint_step_present (m : Machine) :
  hint_step m (snd (_present_question ai clock m)).
Proof.
  right; destruct (present_question_presented ai clock m)
    as (_ & (title & Ht) & _).
  exists title; split; [exact Ht |].
  unfold hints, _present_question, _add_to_transcript, notify_state_change,
    bind, ret, set_state, get_state, get_context, emit, update_context,
    generate_response, now.
  cbn [fst snd state context ai_calls clock_reads trace].
  now destruct (_parse_question_response _) as [[title' qtext] expl].
Qed.

Lemma hint_step_move_on (m : Machine) :
  hint_step m (snd (_move_on_or_conclude ai clock m)).
Proof.
  rewrite move_on_or_conclude_run.
  destruct (List.length (asked m) <? 2);
    [apply hint_step_present | now apply hint_step_same].
Qed.

Lemma hint_step_solving (user_input : string) (m : Machine) :
  hint_step m (snd (_handle_solving_response ai clock user_input m)).
Proof.
  destruct (_is_garbage_input user_input) eqn:H1.
  { rewrite solving_garbage by assumption; now apply hint_step_same. }
  destruct (_is_asking_for_hint user_input) eqn:H2.
  { rewrite solving_hint by assumption.
    left; split; [reflexivity |].
    change (hints (snd (_give_hint ai clock (with_attempts 0 m))))
      with (hints m + 1); lia. }
  destruct (_seems_finished user_input) eqn:H3.
  { rewrite solving_finished by assumption; now apply hint_step_same. }
  destruct (Nat.le_gt_cases (max_retries (context m)) (attempts m + 1))
    as [H4 | H4].
  - rewrite solving_exhausted by assumption.
    exact (hint_step_move_on (with_attempts 0 m)).
  - rewrite solving_feedback by assumption.
    unfold feedback_result; cbv zeta; cbn [snd].
    apply hint_step_same; unfold asked, hints; cbn [context];
      now destruct (contains "[WRONG]" _).
Qed.

Lemma hint_step_follow_up (user_input : string) (m : Machine) :
  hint_step m (snd (_handle_follow_up_response ai clock user_input m)).
Proof.
  rewrite follow_up_run.
  destruct (2 <=? List.length (asked m)); now apply hint_step_same.
Qed.

(** Within a question the count of hints never goes down: across any
    call but a new start it stays or grows while the list of questions
    asked is the same, and it is 0 when the call presented a new
    question. *)
Theorem hints_count_up_until_next_question (c : Call) (m : Machine) :
  c <> CallStart -> In (state m) resting_phases ->
  hint_step m (snd (perform ai clock c m)).
Proof.
  intros Hc Hr; destruct c as [| user_input code | |]; cbn [perform].
  - now contradiction Hc.
  - set (m0 := snd (record_input clock user_input code m)).
    assert (H0 : forall m', hint_step m0 m' -> hint_step m m') by auto.
    unfold resting_phases in Hr; simpl in Hr.
    destruct Hr as [Hs | [Hs | [Hs | [Hs | [Hs | []]]]]]; symmetry in Hs.
    + rewrite process_elsewhere by (rewrite Hs; simpl; auto).
      now apply hint_step_same.
    + rewrite process_user_input_run.
      unfold dispatch, bind, get_state; cbn [fst snd].
      rewrite record_input_run; cbn [snd state]; rewrite Hs.
      unfold _handle_greeting_response.
      unfold bind, update_context; cbn [fst snd].
      match goal with
      | |- hint_step _ (snd (_present_question _ _ ?m1)) =>
          exact (hint_step_present m1)
      end.
    + rewrite process_in_solving by assumption.
      apply H0, hint_step_solving.
    + rewrite process_in_follow_up by assumption.
      apply H0, hint_step_follow_up.
    + rewrite process_elsewhere by (rewrite Hs; simpl; auto).
      now apply hint_step_same.
  - unfold request_hint, bind, get_state; cbn [fst snd].
    destruct (state_eqb (state m) CANDIDATE_SOLVING).
    + left; split; [reflexivity |].
      change (hints (snd (_give_hint ai clock m))) with (hints m + 1); lia.
    + now apply hint_step_same.
  - now apply hint_step_same.
Qed.

(** *** Mistakes *)

Lemma mistaken_present_question :
  keeps mistaken (_present_question ai clock).
Proof. unfold _present_question; keeps_steps fail. Qed.

Lemma mistaken_move_on_or_conclude (m : Machine) :
  mistaken (snd (_move_on_or_conclude ai clock m)) = mistaken m.
Proof.
  rewrite move_on_or_conclude_run.
  destruct (List.length (asked m) <? 2);
    [apply mistaken_present_question | reflexivity].
Qed.

Lemma mistaken_solving (user_input : string) (m : Machine) :
  let response := feedback_of ai user_input m in
  let m' := snd (_handle_solving_response ai clock user_input m) in
  (unrecognised user_input ->
   attempts m + 1 < max_retries (context m) ->
   contains "[WRONG]" (upper response) = true ->
   mistaken m'
   = mistaken m
       ++ [mkMistake (take 100 (current_question (context m))) user_input
                     (correction_of response)])
  /\ (~ unrecognised user_input
      \/ max_retries (context m) <= attempts m + 1
      \/ contains "[WRONG]" (upper response) = false ->
      mistaken m' = mistaken m).
Proof.
  cbv zeta; unfold unrecognised.
  destruct (_is_garbage_input user_input) eqn:H1.
  { rewrite solving_garbage by assumption.
    split; [intros (H & _); discriminate H | reflexivity]. }
  destruct (_is_asking_for_hint user_input) eqn:H2.
  { rewrite solving_hint by assumption.
    split; [intros (_ & H & _); discriminate H | reflexivity]. }
  destruct (_seems_finished user_input) eqn:H3.
  { rewrite solving_finished by assumption.
    split; [intros (_ & _ & H); discriminate H | reflexivity]. }
  destruct (Nat.le_gt_cases (max_retries (context m)) (attempts m + 1))
    as [H4 | H4].
  - rewrite solving_exhausted by assumption.
    split; [intros _ H; lia |].
    intros _; exact (mistaken_move_on_or_conclude (with_attempts 0 m)).
  - rewrite solving_feedback by assumption.
    unfold feedback_result; cbv zeta; cbn [snd].
    destruct (contains "[WRONG]" (upper (feedback_of ai user_input m)))
      eqn:Hw.
    + split; [intros _ _ _; reflexivity |].
      intros [H | [H | H]]; [| lia | discriminate H].
      exfalso; apply H; auto.
    + split; [intros _ _ H; discriminate H | reflexivity].
Qed.

(** Processing an utterance records a mistake exactly on the default
    path of CandidateSolving (an utterance no classifier matches, the
    retry limit not reached) when the service's feedback on it carries
    the WRONG tag in some casing.  The one mistake appended pairs the
    utterance with the first 100 characters of the current question and
    with the feedback from which the spellings "[WRONG]" and "[wrong]"
    are removed, trimmed.  In every other case the mistakes stay as they
    were. *)
Theorem mistakes_come_from_wrong_feedback
  (user_input code : string) (m : Machine) :
  In (state m) resting_phases ->
  let response :=
    feedback_of ai user_input (snd (record_input clock user_input code m)) in
  let m' := snd (process_user_input ai clock user_input code m) in
  (state m = CANDIDATE_SOLVING ->
   unrecognised user_input ->
   attempts m + 1 < max_retries (context m) ->
   contains "[WRONG]" (upper response) = true ->
   mistaken m'
   = mistaken m
       ++ [mkMistake (take 100 (current_question (context m))) user_input
             (strip (replace "[wrong]" "" (replace "[WRONG]" "" response)))])
  /\ (state m <> CANDIDATE_SOLVING
      \/ ~ unrecognised user_input
      \/ max_retries (context m) <= attempts m + 1
      \/ contains "[WRONG]" (upper response) = false ->
      mistaken m' = mistaken m).
Proof.
  intros Hr; cbv zeta.
  unfold resting_phases in Hr; simpl in Hr.
  destruct Hr as [Hs | [Hs | [Hs | [Hs | [Hs | []]]]]]; symmetry in Hs.
  - rewrite process_elsewhere by (rewrite Hs; simpl; auto).
    split; [intros H; congruence | reflexivity].
  - rewrite process_in_greeting by assumption.
    rewrite greeting_run.
    match goal with
    | |- context [_present_question ai clock ?m1] =>
        pose proof (mistaken_present_question m1) as H
    end.
    split; [intros H'; congruence | intros _; exact H].
  - rewrite process_in_solving by assumption.
    destruct (mistaken_solving user_input
                (snd (record_input clock user_input code m))) as [Ha Hb].
    split.
    + intros _ Hu Hlt Hw; exact (Ha Hu Hlt Hw).
    + intros [H | H]; [now contradiction H | exact (Hb H)].
  - rewrite process_in_follow_up by assumption.
    rewrite follow_up_run.
    split; [intros H; congruence |].
    intros _; destruct (2 <=? _); reflexivity.
  - rewrite process_elsewhere by (rewrite Hs; simpl; auto).
    split; [intros H; congruence | reflexivity].
Qed.

End Steps.

Lemma hints_count_up_witness :
  hint_step first_question
    (snd (perform plain_ai steady_clock CallHint first_question)).
Proof.
  refine (hints_count_up_until_next_question plain_ai steady_clock CallHint
            first_question _ _);
    [discriminate | vm_compute; auto].
Defined.

Lemma mistakes_come_from_wrong_feedback_witness :
  mistaken
    (snd (process_user_input mixed_case_ai steady_clock
            "it runs in linear time" ""
            (session_solving mixed_case_ai steady_clock)))
  = mistaken (session_solving mixed_case_ai steady_clock)
      ++ [mkMistake
            (take 100
               (current_question
                  (context (session_solving mixed_case_ai steady_clock))))
            "it runs in linear time"
            (strip
               (replace "[wrong]" ""
                  (replace "[WRONG]" ""
                     (feedback_of mixed_case_ai "it runs in linear time"
                        (snd (record_input steady_clock
                                "it runs in linear time" ""
                                (session_solving mixed_case_ai
                                   steady_clock)))))))].
Proof.
  refine (proj1 (mistakes_come_from_wrong_feedback mixed_case_ai steady_clock
                   "it runs in linear time" ""
                   (session_solving mixed_case_ai steady_clock) _) _ _ _ _).
  - vm_compute; auto.
  - reflexivity.
  - vm_compute; auto.
  - vm_compute; lia.
  - vm_compute; reflexivity.
Defined.

(** ** Retry exhaustion and the budget of generative calls *)

Section Budget.

Variable ai : nat -> Prompt -> string.
Variable clock : nat -> Z.

Lemma unrecognised_step (user_input code : string) (m : Machine) :
  state m = CANDIDATE_SOLVING -> unrecognised user_input ->
  attempts m + 1 < max_retries (context m) ->
  let m' := snd (process_user_input ai clock user_input code m) in
  state m' = CANDIDATE_SOLVING
  /\ attempts m' = attempts m + 1
  /\ asked m' = asked m
  /\ max_retries (context m') = max_retries (context m).
Proof.
  intros Hs (H1 & H2 & H3) H4; cbv zeta.
  rewrite process_in_solving by assumption.
  rewrite solving_feedback by assumption.
  unfold feedback_result; cbv zeta; cbn [snd state].
  unfold attempts, asked; cbn [context].
  rewrite record_input_run; cbn [snd state context].
  destruct (contains "[WRONG]" _); repeat split; assumption.
Qed.

Lemma unrecognised_run (inputs : list (string * string)) (m : Machine) :
  state m = CANDIDATE_SOLVING ->
  Forall (fun i => unrecognised (fst i)) inputs ->
  attempts m + List.length inputs < max_retries (context m) ->
  let m' := run_calls ai clock (processing inputs) m in
  state m' = CANDIDATE_SOLVING
  /\ attempts m' = attempts m + List.length inputs
  /\ asked m' = asked m
  /\ max_retries (context m') = max_retries (context m).
Proof.
  intros Hs Hu; revert m Hs.
  induction Hu as [|[u code] inputs Hu _ IH]; intros m Hs Hlt; cbv zeta.
  - cbn; repeat split; [exact Hs | lia].
  - cbn [List.length] in Hlt.
    cbn [processing map run_calls fold_left fst snd perform].
    destruct (unrecognised_step u code m Hs Hu ltac:(lia))
      as (Hs1 & Ha1 & Hq1 & Hr1).
    destruct (IH _ Hs1 ltac:(rewrite Ha1, Hr1; lia))
      as (Hs2 & Ha2 & Hq2 & Hr2).
    unfold run_calls, processing in *; cbn [List.length].
    split; [exact Hs2 |].
    split; [rewrite Ha2, Ha1; lia |].
    split; congruence.
Qed.

(** Retry exhaustion.  In CandidateSolving, a run of utterances no
    classifier recognises leaves the phase and the questions as they are
    and counts each one, and the utterance that brings the counter to
    max_retries clears it and forces progression: a new question while
    fewer than two have been asked, the end of the interview otherwise.
    With the default limit of 5 and a counter at 0 that is the fifth
    utterance. *)
Theorem unrecognised_utterances_force_progression
  (inputs : list (string * string)) (user_input code : string)
  (m : Machine) :
  state m = CANDIDATE_SOLVING ->
  Forall (fun i => unrecognised (fst i)) inputs ->
  unrecognised user_input ->
  attempts m + List.length inputs + 1 = max_retries (context m) ->
  let m1 := run_calls ai clock (processing inputs) m in
  let m' := snd (process_user_input ai clock user_input code m1) in
  state m1 = CANDIDATE_SOLVING
  /\ asked m1 = asked m
  /\ attempts m1 = attempts m + List.length inputs
  /\ attempts m' = 0
  /\ (if List.length (asked m) <? 2
      then state m' = CANDIDATE_SOLVING
           /\ exists title, asked m' = asked m ++ [title]
      else state m' = ENDED /\ asked m' = asked m).
Proof.
  intros Hs Hu (H1 & H2 & H3) Hmax; cbv zeta.
  destruct (unrecognised_run inputs m Hs Hu ltac:(lia))
    as (Hs1 & Ha1 & Hq1 & Hr1).
  set (m1 := run_calls ai clock (processing inputs) m) in *.
  split; [exact Hs1 | split; [exact Hq1 | split; [exact Ha1 |]]].
  rewrite process_in_solving by assumption.
  set (m0 := snd (record_input clock user_input code m1)).
  assert (Hex : max_retries (context m0) <= attempts m0 + 1).
  { change (max_retries (context m0)) with (max_retries (context m1)).
    change (attempts m0) with (attempts m1); lia. }
  rewrite solving_exhausted by assumption.
  split; [now rewrite attempts_move_on_or_conclude |].
  pose proof (move_on_or_conclude_gate ai clock (with_attempts 0 m0)) as H.
  cbv zeta in H.
  change (asked (with_attempts 0 m0)) with (asked m1) in H.
  rewrite Hq1 in H.
  destruct (List.length (asked m) <? 2).
  - destruct H as (Ha & (title & Hb) & _).
    split; [exact Ha | exists title].
    unfold asked at 1; rewrite Hb.
    change (questions_asked (context (with_attempts 0 m0)))
      with (asked m1); now rewrite Hq1.
  - destruct H as (Ha & Hb & _).
    split; [exact Ha |].
    unfold asked at 1; rewrite Hb.
    change (questions_asked (context (with_attempts 0 m0)))
      with (asked m1); exact Hq1.
Qed.

(** *** How many generative calls a call makes *)

Lemma calls_present_question (m : Machine) :
  ai_calls (snd (_present_question ai clock m)) = S (ai_calls m).
Proof.
  unfold _present_question, _add_to_transcript, notify_state_change, bind,
    ret, set_state, get_state, get_context, emit, update_context,
    generate_response, now.
  cbn [fst snd state context ai_calls clock_reads trace].
  now destruct (_parse_question_response _) as [[title qtext] expl].
Qed.

Lemma calls_move_on_or_conclude (m : Machine) :
  ai_calls (snd (_move_on_or_conclude ai clock m)) = S (ai_calls m).
Proof.
  rewrite move_on_or_conclude_run.
  destruct (List.length (asked m) <? 2);
    [apply calls_present_question | reflexivity].
Qed.

Lemma calls_solving (user_input : string) (m : Machine) :
  ai_calls m <= ai_calls (snd (_handle_solving_response ai clock user_input m))
  <= S (ai_calls m).
Proof.
  destruct (_is_garbage_input user_input) eqn:H1.
  { rewrite solving_garbage by assumption; cbn [snd]; lia. }
  destruct (_is_asking_for_hint user_input) eqn:H2.
  { rewrite solving_hint by assumption.
    change (ai_calls (snd (_give_hint ai clock (with_attempts 0 m))))
      with (S (ai_calls m)); lia. }
  destruct (_seems_finished user_input) eqn:H3.
  { rewrite solving_finished by assumption.
    change (ai_calls (snd (_ask_follow_up ai clock (with_attempts 0 m))))
      with (S (ai_calls m)); lia. }
  destruct (Nat.le_gt_cases (max_retries (context m)) (attempts m + 1))
    as [H4 | H4].
  - rewrite solving_exhausted by assumption.
    rewrite calls_move_on_or_conclude.
    change (ai_calls (with_attempts 0 m)) with (ai_calls m); lia.
  - rewrite solving_feedback by assumption.
    unfold feedback_result; cbv zeta; cbn [snd ai_calls]; lia.
Qed.

(** Every entry point calls the generative service at most twice, and
    twice only when an answer in FollowUp, with two questions asked, is
    followed by the closing of the interview. *)
Theorem entry_points_call_budget (c : Call) (m : Machine) :
  let m' := snd (perform ai clock c m) in
  ai_calls m <= ai_calls m' <= ai_calls m + 2
  /\ (ai_calls m' <= ai_calls m + 1
      \/ (state m = FOLLOW_UP /\ 2 <= List.length (asked m)
          /\ exists user_input code, c = CallProcess user_input code)).
Proof.
  cbv zeta; destruct c as [| user_input code | |]; cbn [perform].
  - change (ai_calls (snd (start_interview ai clock m)))
      with (S (ai_calls m)).
    split; [lia | left; lia].
  - rewrite process_user_input_run, record_input_run; cbn [snd].
    set (m0 := mkMachine _ _ _ _ _).
    change (ai_calls m) with (ai_calls m0).
    unfold dispatch, bind, get_state; cbn [fst snd].
    change (state m0) with (state m).
    destruct (state m) eqn:Hs;
      try (change (ai_calls (snd (_generate_contextual_response
                                    ai clock user_input m0)))
             with (S (ai_calls m0)); split; [lia | left; lia]).
    + rewrite greeting_run, calls_present_question.
      cbn [snd update_context ai_calls]; split; [lia | left; lia].
    + unfold _handle_topic_selection; rewrite calls_present_question.
      split; [lia | left; lia].
    + pose proof (calls_solving user_input m0); split; [lia | left; lia].
    + unfold _handle_post_hint, bind, set_state; cbn [fst snd].
      match goal with
      | |- context [_handle_solving_response ai clock user_input ?m1] =>
          pose proof (calls_solving user_input m1) as H;
            change (ai_calls m1) with (ai_calls m0) in H
      end.
      split; [lia | left; lia].
    + rewrite follow_up_run.
      change (asked m0) with (asked m).
      destruct (2 <=? List.length (asked m)) eqn:E.
      * change (ai_calls (snd (end_interview ai clock
                                 (after_feedback ai clock user_input m0))))
          with (S (S (ai_calls m0))).
        apply Nat.leb_le in E.
        split; [lia | right; split; [reflexivity | split; [exact E |]]].
        now exists user_input, code.
      * change (ai_calls (snd (ai (ai_calls m0)
                                  (FOLLOW_UP_FEEDBACK
                                     (current_question (context m0))
                                     (current_code (context m0)) user_input),
                               after_feedback ai clock user_input m0)))
          with (S (ai_calls m0)).
        split; [lia | left; lia].
  - unfold request_hint, bind, get_state; cbn [fst snd].
    destruct (state_eqb (state m) CANDIDATE_SOLVING).
    + change (ai_calls (snd (_give_hint ai clock m))) with (S (ai_calls m)).
      split; [lia | left; lia].
    + unfold ret; cbn [snd]; split; [lia | left; lia].
  - change (ai_calls (snd (end_interview ai clock m)))
      with (S (ai_calls m)).
    split; [lia | left; lia].
Qed.

End Budget.

Lemma unrecognised_sort : unrecognised "I would sort the array first".
Proof. repeat split. Qed.

Lemma unrecognised_utterances_witness :
  attempts
    (snd (process_user_input plain_ai steady_clock
            "I would sort the array first" ""
            (run_calls plain_ai steady_clock (processing four_attempts)
               first_question)))
  = 0.
Proof.
  refine (proj1 (proj2 (proj2 (proj2
            (unrecognised_utterances_force_progression
               plain_ai steady_clock four_attempts
               "I would sort the array first" "" first_question
               _ _ unrecognised_sort _))))).
  - reflexivity.
  - repeat constructor.
  - vm_compute; reflexivity.
Defined.

(** ** The transcript is chronological *)

Section Chronology.

Variable ai : nat -> Prompt -> string.
Variable clock : nat -> Z.
Hypothesis clock_monotone : monotone clock.

Lemma in_order_snoc (stamps : list Z) (t : Z) :
  in_order stamps -> Forall (fun s => (s <= t)%Z) stamps ->
  in_order (stamps ++ [t]).
Proof.
  unfold in_order; induction 1 as [|s stamps Hs IH Hall]; intros Hle.
  - repeat constructor.
  - inversion Hle as [|s' l' Hst Hrest]; subst; cbn.
    constructor; [now apply IH |].
    apply Forall_app; split; [exact Hall | now constructor].
Qed.

Lemma timely_ret {A} (a : A) : timely clock (ret a).
Proof. intros m H; exact H. Qed.

Lemma timely_bind {A B} (c : M A) (k : A -> M B) :
  timely clock c -> (forall a, timely clock (k a)) ->
  timely clock (bind c k).
Proof.
  intros Hc Hk m Hm; unfold bind; specialize (Hc m Hm).
  destruct (c m) as [a m1]; cbn [snd] in Hc; now apply Hk.
Qed.

(** a command that leaves transcript and clock alone *)
Lemma timely_still {A} (c : M A) :
  (forall m, logged (snd (c m)) = logged m
             /\ clock_reads (snd (c m)) = clock_reads m) ->
  timely clock c.
Proof.
  intros Hc m [Ho Hb]; destruct (Hc m) as [Hl Hr].
  unfold chronological; now rewrite Hl, Hr.
Qed.

Lemma timely_now : timely clock (now clock).
Proof.
  intros m [Ho Hb]; split; [exact Ho |]; cbn [snd now clock_reads].
  change (logged _) with (logged m).
  eapply Forall_impl; [| exact Hb]; cbn; intros t Ht.
  pose proof (clock_monotone (clock_reads m) (S (clock_reads m))); lia.
Qed.

Lemma timely_add_to_transcript (speaker text : string) :
  timely clock (_add_to_transcript clock speaker text).
Proof.
  intros m [Ho Hb]; unfold _add_to_transcript, bind, now, update_context.
  cbn [fst snd]; unfold chronological, logged;
    cbn [context transcript set_transcript clock_reads].
  rewrite map_app; cbn [map timestamp].
  pose proof (clock_monotone (clock_reads m) (S (clock_reads m))) as Hm.
  split.
  - now apply in_order_snoc.
  - apply Forall_app; split.
    + eapply Forall_impl; [| exact Hb]; cbn; intros t Ht; lia.
    + constructor; [lia | constructor].
Qed.

Lemma timely_start_context :
  timely clock (update_context (fun _ => new_context)).
Proof.
  intros m _; split; cbn; constructor.
Qed.

Ltac timely_still_step :=
  apply timely_still; intros ?; split; reflexivity.

Ltac timely_steps known :=
  repeat match goal with
         | |- timely _ (bind _ _) => apply timely_bind; [| intros ?]
         | |- timely _ (ret _) => apply timely_ret
         | |- timely _ (now _) => apply timely_now
         | |- timely _ (_add_to_transcript _ _ _) =>
             apply timely_add_to_transcript
         | |- timely _ (update_context (fun _ => new_context)) =>
             apply timely_start_context
         | |- timely _ (update_context _) => timely_still_step
         | |- timely _ (emit _) => timely_still_step
         | |- timely _ (set_state _) => timely_still_step
         | |- timely _ (generate_response _ _) => timely_still_step
         | |- timely _ get_context => timely_still_step
         | |- timely _ get_state => timely_still_step
         | |- timely _ notify_state_change => timely_still_step
         | |- timely _ (match ?x with _ => _ end) => destruct x
         | |- timely _ _ => known
         end.

Lemma timely_present_question : timely clock (_present_question ai clock).
Proof. unfold _present_question; timely_steps fail. Qed.

Lemma timely_end_interview : timely clock (end_interview ai clock).
Proof. unfold end_interview; timely_steps fail. Qed.

Lemma timely_give_hint : timely clock (_give_hint ai clock).
Proof. unfold _give_hint; timely_steps fail. Qed.

Lemma timely_ask_follow_up : timely clock (_ask_follow_up ai clock).
Proof. unfold _ask_follow_up; timely_steps fail. Qed.

Ltac timely_ops :=
  first [ apply timely_present_question
        | apply timely_end_interview
        | apply timely_give_hint
        | apply timely_ask_follow_up ].

Lemma timely_move_on_or_conclude :
  timely clock (_move_on_or_conclude ai clock).
Proof. unfold _move_on_or_conclude; timely_steps timely_ops. Qed.

Lemma timely_handle_solving_response (user_input : string) :
  timely clock (_handle_solving_response ai clock user_input).
Proof.
  unfold _handle_solving_response;
    timely_steps ltac:(first [ timely_ops
                             | apply timely_move_on_or_conclude ]).
Qed.

Lemma timely_handle_follow_up_response (user_input : string) :
  timely clock (_handle_follow_up_response ai clock user_input).
Proof. unfold _handle_follow_up_response; timely_steps timely_ops. Qed.

Lemma timely_perform (c : Call) : timely clock (perform ai clock c).
Proof.
  destruct c as [| user_input code | |]; cbn [perform].
  - unfold start_interview; timely_steps fail.
  - unfold process_user_input, record_input, dispatch,
      _handle_greeting_response, _handle_topic_selection, _handle_post_hint,
      _generate_contextual_response;
      timely_steps ltac:(first [ timely_ops
                               | apply timely_handle_solving_response
                               | apply timely_handle_follow_up_response ]).
  - unfold request_hint; timely_steps timely_ops.
  - apply timely_end_interview.
Qed.

Lemma timely_run_calls (calls : list Call) (m : Machine) :
  chronological clock m -> chronological clock (run_calls ai clock calls m).
Proof.
  revert m; induction calls as [|c calls IH]; intros m Hm; [exact Hm |].
  apply IH, timely_perform, Hm.
Qed.

(** With a clock that does not run backwards, the transcript of every
    session is in the order of its time stamps: each entry is stamped no
    earlier than the entries before it. *)
Theorem transcript_is_chronological (calls : list Call) :
  in_order (map timestamp (logged (run_calls ai clock calls new_machine))).
Proof.
  apply (timely_run_calls calls new_machine).
  split; cbn; constructor.
Qed.

End Chronology.

Lemma transcript_is_chronological_witness :
  in_order
    (map timestamp
       (logged (run_calls plain_ai steady_clock
                  [CallStart; CallProcess "let's do coding" ""; CallHint;
                   CallEnd]
                  new_machine))).
Proof.
  exact (transcript_is_chronological plain_ai steady_clock
           steady_clock_monotone
           [CallStart; CallProcess "let's do coding" ""; CallHint; CallEnd]).
Defined.

(** ** Keywords, wherever they occur *)

Close Scope list_scope.

Lemma prefix_refl_app (p x : string) : prefix p (p ++ x) = true.
Proof.
  induction p as [|c p IH]; cbn; [now destruct x |].
  destruct (ascii_dec c c) as [_ | n]; [exact IH | now contradiction n].
Qed.

Lemma prefix_app (p a b : string) :
  prefix p a = true -> prefix p (a ++ b) = true.
Proof.
  revert a; induction p as [|c p IH]; intros a H.
  - now destruct (a ++ b).
  - destruct a as [|d a]; [discriminate H |]; cbn in *.
    destruct (ascii_dec c d); [now apply IH | discriminate H].
Qed.

Lemma contains_of_prefix (sub s : string) :
  prefix sub s = true -> contains sub s = true.
Proof. intros H; destruct s; cbn [contains]; now rewrite H. Qed.

Lemma contains_app_r (sub a x : string) :
  contains sub x = true -> contains sub (a ++ x) = true.
Proof.
  intros H; induction a as [|c a IH]; [exact H |].
  cbn [append contains]; rewrite IH; apply orb_true_r.
Qed.

Lemma contains_app_l (sub a b : string) :
  contains sub a = true -> contains sub (a ++ b) = true.
Proof.
  induction a as [|c a IH]; intros H.
  - cbn [contains] in H; rewrite orb_false_r in H.
    apply contains_of_prefix; now apply (prefix_app sub EmptyString b).
  - cbn [append contains] in *.
    apply orb_true_iff in H as [H | H].
    + apply (prefix_app _ _ b) in H; cbn [append] in H; now rewrite H.
    + rewrite (IH H); apply orb_true_r.
Qed.

Lemma contains_middle (kw a b : string) : contains kw (a ++ kw ++ b) = true.
Proof. apply contains_app_r, contains_of_prefix, prefix_refl_app. Qed.

Lemma existsb_keyword (kws : list string) (kw text : string) :
  In kw kws -> contains kw text = true ->
  existsb (fun k => contains k text) kws = true.
Proof.
  intros Hin Hc; apply existsb_exists; exists kw; now split.
Qed.

(** The hint and completion classifiers see their keywords anywhere in
    the utterance and in any casing: an utterance that contains a spelling
    of a hint keyword, whatever comes before and after it, is a hint
    request, and one that contains a spelling of a completion keyword
    seems finished. *)
Theorem keywords_match_anywhere_in_any_case (kw before body after : string) :
  case_variant kw body ->
  (In kw hint_keywords ->
   _is_asking_for_hint (before ++ body ++ after) = true)
  /\ (In kw done_keywords ->
      _seems_finished (before ++ body ++ after) = true).
Proof.
  intros Hv.
  assert (Hl : lower kw = kw ->
               contains kw (lower (before ++ body ++ after)) = true).
  { intros Hk; unfold lower; rewrite !smap_app; fold lower.
    rewrite (lower_case_variant _ _ Hk Hv); apply contains_middle. }
  split; intros Hin.
  - apply (existsb_keyword hint_keywords kw); [exact Hin |].
    apply Hl; cbn in Hin.
    repeat (destruct Hin as [<- | Hin]; [reflexivity |]); contradiction.
  - apply (existsb_keyword done_keywords kw); [exact Hin |].
    apply Hl; cbn in Hin.
    repeat (destruct Hin as [<- | Hin]; [reflexivity |]); contradiction.
Qed.

(** the witness: "I'm STUCK here" *)
Lemma keywords_match_witness : _is_asking_for_hint "I'm STUCK here" = true.
Proof.
  refine (proj1 (keywords_match_anywhere_in_any_case
                   "stuck" "I'm " "STUCK" " here" _) _).
  - repeat (apply cv_cons; [now right |]); apply cv_nil.
  - cbn; auto.
Defined.

Open Scope list_scope.

(** ** Which mistakes the forced progression speaks of *)

Lemma prefix_take (n k : nat) (s : string) :
  n <= k -> prefix (take n s) (take k s) = true.
Proof.
  unfold take; revert n k; induction s as [|c s IH]; intros n k Hle.
  - destruct n, k; reflexivity.
  - destruct n as [|n]; [now destruct k |].
    destruct k as [|k]; [lia |]; cbn.
    destruct (ascii_dec c c) as [_ | ne]; [| now contradiction ne].
    apply IH; lia.
Qed.

Lemma prefix_fold_corrections (p : string) (l : list Mistake) (acc : string) :
  prefix p acc = true ->
  prefix p (fold_left (fun feedback k =>
                         (feedback ++ correction k ++ " ")%string) l acc)
  = true.
Proof.
  revert acc; induction l as [|k l IH]; intros acc H; [exact H |].
  cbn [fold_left]; apply IH, prefix_app, H.
Qed.

Section Recent.

Variable ai : nat -> Prompt -> string.
Variable clock : nat -> Z.

(** A mistake recorded on the default path counts as made on the current
    question for as long as that question stays: its stored question, the
    first 100 characters, contains the first 50. *)
Theorem recorded_mistake_is_recent (user_input : string) (m : Machine) :
  unrecognised user_input ->
  attempts m + 1 < max_retries (context m) ->
  contains "[WRONG]" (upper (feedback_of ai user_input m)) = true ->
  let m' := snd (_handle_solving_response ai clock user_input m) in
  current_question (context m') = current_question (context m)
  /\ In (mkMistake (take 100 (current_question (context m))) user_input
                   (correction_of (feedback_of ai user_input m)))
        (recent_mistakes m').
Proof.
  intros (H1 & H2 & H3) H4 Hw; cbv zeta.
  rewrite solving_feedback by assumption.
  unfold feedback_result; cbv zeta; rewrite Hw; cbn [snd].
  split; [reflexivity |].
  unfold recent_mistakes, mistaken;
    cbn [context mistakes set_transcript set_mistakes
         set_follow_up_attempts current_question].
  apply filter_In; split.
  - apply in_or_app; right; now left.
  - cbn [question]; apply contains_of_prefix, prefix_take; lia.
Qed.

Lemma move_on_or_conclude_text (m : Machine) :
  exists tail,
    fst (_move_on_or_conclude ai clock m)
    = (match mistaken m with
       | [] => ""
       | _ =>
           match recent_mistakes m with
           | [] => ""
           | _ =>
               fold_left (fun feedback k =>
                            feedback ++ correction k ++ " ")
                         (last_two (recent_mistakes m)) feedback_header
               ++ nl ++ nl
           end
       end ++ tail)%string
    /\ tail
       = if List.length (asked m) <? 2
         then ("Let's move on to the next problem. "
                 ++ fst (_present_question ai clock m))%string
         else fst (end_interview ai clock m).
Proof.
  unfold _move_on_or_conclude.
  unfold bind at 1, get_context; cbn [fst snd]; cbv zeta.
  fold (asked m); fold (mistaken m).
  destruct (List.length (asked m) <? 2).
  - unfold bind, ret.
    destruct (_present_question ai clock m) as [next m1]; cbn [fst].
    eexists; split; [| reflexivity].
    unfold recent_mistakes, mistaken.
    destruct (mistakes (context m)); reflexivity.
  - unfold bind, ret.
    destruct (end_interview ai clock m) as [closing m1]; cbn [fst].
    eexists; split; [| reflexivity].
    unfold recent_mistakes, mistaken.
    destruct (mistakes (context m)); reflexivity.
Qed.

(** The text returned at forced progression opens with the feedback
    sentence whenever a recorded mistake is on the current question, and
    is the bare transition (the next question after "Let's move on to
    the next problem. ", or the closing) when none is. *)
Theorem forced_progression_feedback (m : Machine) :
  (recent_mistakes m <> [] ->
   prefix feedback_header (fst (_move_on_or_conclude ai clock m)) = true)
  /\ (recent_mistakes m = [] ->
      fst (_move_on_or_conclude ai clock m)
      = if List.length (asked m) <? 2
        then ("Let's move on to the next problem. "
                ++ fst (_present_question ai clock m))%string
        else fst (end_interview ai clock m)).
Proof.
  destruct (move_on_or_conclude_text m) as (tail & Ht & Htail).
  rewrite Ht, <- Htail; split; intros Hr.
  - destruct (mistaken m) eqn:Hm.
    + unfold recent_mistakes in Hr; rewrite Hm in Hr; now contradiction Hr.
    + destruct (recent_mistakes m); [now contradiction Hr |].
      apply prefix_app, prefix_app.
      apply prefix_fold_corrections.
      exact (prefix_refl_app feedback_header EmptyString).
  - rewrite Hr; now destruct (mistaken m).
Qed.

End Recent.

Lemma recorded_mistake_witness :
  In (mkMistake "Find two numbers that add up to a target."
                "it runs in linear time" mixed_case_feedback)
     (recent_mistakes
        (snd (_handle_solving_response mixed_case_ai steady_clock
                "it runs in linear time"
                (session_solving mixed_case_ai steady_clock)))).
Proof.
  refine (proj2 (recorded_mistake_is_recent mixed_case_ai steady_clock
                   "it runs in linear time"
                   (session_solving mixed_case_ai steady_clock) _ _ _)).
  - repeat split.
  - vm_compute; lia.
  - reflexivity.
Defined.

Lemma forced_progression_feedback_witness :
  fst (_move_on_or_conclude plain_ai steady_clock first_question)
  = ("Let's move on to the next problem. "
       ++ fst (_present_question plain_ai steady_clock first_question))%string.
Proof.
  refine (proj2 (forced_progression_feedback plain_ai steady_clock
                   first_question) _).
  reflexivity.
Defined.

(* ================================================================== *)
(** * Further properties of the generative-service wrapper *)

Lemma last_n_window {A} (n : nat) (l : list A) :
  (exists older, l = older ++ AIEngine.last_n n l)
  /\ List.length (AIEngine.last_n n l) = Nat.min n (List.length l).
Proof.
  unfold AIEngine.last_n; split.
  - exists (firstn (List.length l - n) l); now rewrite firstn_skipn.
  - rewrite length_skipn; lia.
Qed.

(** The messages sent with a request are the system prompt, then the
    latest 20 entries of the conversation history (all of it while it is
    shorter), then the prompt as the user's message: at most 22 messages,
    however long the session.  A context, when given and not empty, is
    put before the prompt under "Context:". *)
Theorem build_messages_window
  (self : AIEngine.Engine) (prompt : string) (context : option string) :
  exists older recent sent,
    AIEngine.conversation_history self = older ++ recent
    /\ List.length recent
       = Nat.min 20 (List.length (AIEngine.conversation_history self))
    /\ AIEngine._build_messages self prompt context
       = ("system", AIEngine.system_prompt self) :: recent ++ [("user", sent)]
    /\ List.length (AIEngine._build_messages self prompt context) <= 22
    /\ sent
       = match context with
         | Some (String c ctx) =>
             ("Context:" ++ nl ++ String c ctx ++ nl ++ nl ++ prompt)%string
         | _ => prompt
         end.
Proof.
  destruct (last_n_window 20 (AIEngine.conversation_history self))
    as [[older Ho] Hl].
  exists older, (AIEngine.last_n 20 (AIEngine.conversation_history self)).
  eexists; split; [exact Ho | split; [exact Hl |]].
  assert (He : AIEngine._build_messages self prompt context
               = ("system", AIEngine.system_prompt self)
                   :: AIEngine.last_n 20 (AIEngine.conversation_history self)
                   ++ [("user",
                        match context with
                        | Some (String c ctx) =>
                            ("Context:" ++ nl ++ String c ctx ++ nl ++ nl
                               ++ prompt)%string
                        | _ => prompt
                        end)]).
  { unfold AIEngine._build_messages; cbv zeta.
    destruct context as [[|c ctx] |]; reflexivity. }
  split; [exact He | split; [| reflexivity]].
  rewrite He; cbn [List.length]; rewrite length_app, Hl; cbn [List.length].
  lia.
Qed.

Section Replies.

Variable post : list AIEngine.Msg -> AIEngine.Reply.
Variable print : AIEngine.Line -> AIEngine.Result unit.

Ltac print_cases :=
  cbv beta iota;
  repeat match goal with
         | |- context [print ?l] =>
             let E := fresh "E" in
             destruct (print l) as [[] | ?] eqn:E; cbv beta iota
         end.

Ltac unwritten :=
  match goal with
  | Hw : writes_all print, E : print _ = AIEngine.Raises _ |- _ =>
      rewrite Hw in E; discriminate E
  end.

Ltac all_cases :=
  print_cases;
  repeat match goal with e : AIEngine.Exn |- _ => destruct e end;
  print_cases.

Ltac reply_leaf :=
  cbn [fst snd AIEngine.system_prompt AIEngine.conversation_history];
  split;
  [ intros ? H; try discriminate H; injection H as <-; reflexivity
  | split;
    [ reflexivity
    | split;
      [ now left
      | split;
        [ intros _; reflexivity
        | intros Hw;
          first [ unwritten
                | eexists; split;
                  [ reflexivity | intros H; cbn in H; discriminate H ] ] ] ] ] ].


End Replies.


(** ** Cleaning the model's answer *)

Close Scope list_scope.

Lemma lstrip_by_head (p : ascii -> bool) (s : string) :
  match lstrip_by p s with
  | EmptyString => True
  | String c _ => p c = false
  end.
Proof.
  induction s as [|c s IH]; cbn; [exact I |].
  destruct (p c) eqn:E; [exact IH | exact E].
Qed.

Lemma rstrip_by_idem (p : ascii -> bool) (s : string) :
  rstrip_by p (rstrip_by p s) = rstrip_by p s.
Proof.
  induction s as [|c s IH]; [reflexivity |].
  cbn [rstrip_by]; destruct (rstrip_by p s) as [|d r] eqn:E.
  - destruct (p c) eqn:Ec; [reflexivity |].
    cbn [rstrip_by]; now rewrite Ec.
  - cbn [rstrip_by] in *; now rewrite IH.
Qed.

Lemma rstrip_by_keeps_head (p : ascii -> bool) (c : ascii) (s : string) :
  p c = false -> exists r, rstrip_by p (String c s) = String c r.
Proof.
  intros Hc; cbn [rstrip_by].
  destruct (rstrip_by p s); [rewrite Hc |]; eexists; reflexivity.
Qed.

Lemma strip_by_idem (p : ascii -> bool) (s : string) :
  strip_by p (strip_by p s) = strip_by p s.
Proof.
  unfold strip_by; pose proof (lstrip_by_head p s) as Hh.
  destruct (lstrip_by p s) as [|c y]; [reflexivity |].
  destruct (rstrip_by_keeps_head p c y Hh) as [r Hr].
  rewrite Hr; cbn [lstrip_by]; rewrite Hh, <- Hr.
  apply rstrip_by_idem.
Qed.

Lemma rstrip_by_prefix (p : ascii -> bool) (s : string) :
  exists t, s = rstrip_by p s ++ t.
Proof.
  induction s as [|c s [t Ht]]; [now exists EmptyString |].
  cbn [rstrip_by]; destruct (rstrip_by p s) as [|d r].
  - destruct (p c); [now exists (String c s) |].
    exists s; reflexivity.
  - exists t; cbn [append] in *; now rewrite <- Ht.
Qed.

Lemma contains_lstrip_by (p : ascii -> bool) (sub s : string) :
  contains sub (lstrip_by p s) = true -> contains sub s = true.
Proof.
  induction s as [|c s IH]; [trivial |].
  cbn [lstrip_by]; destruct (p c); [| trivial].
  intros H; cbn [contains]; rewrite (IH H); apply orb_true_r.
Qed.

Lemma contains_strip_by (p : ascii -> bool) (sub s : string) :
  contains sub (strip_by p s) = true -> contains sub s = true.
Proof.
  unfold strip_by; intros H; apply (contains_lstrip_by p).
  destruct (rstrip_by_prefix p (lstrip_by p s)) as [t Ht].
  rewrite Ht; now apply contains_app_l.
Qed.

Lemma contains_drop (sub : string) (k : nat) (s : string) :
  contains sub (drop k s) = true -> contains sub s = true.
Proof.
  revert s; induction k as [|k IH]; intros s H; [exact H |].
  destruct s as [|c s]; [exact H |].
  cbn [drop] in H; cbn [contains]; rewrite (IH _ H); apply orb_true_r.
Qed.

Lemma find_absent (sub s : string) :
  contains sub s = false -> find sub s = None.
Proof.
  induction s as [|c s IH]; cbn [contains find]; intros H;
    apply orb_false_iff in H as [Hp Hc]; rewrite Hp; [reflexivity |].
  now rewrite IH.
Qed.

Lemma after_last_absent (a : ascii) (sub s : string) :
  after_last (String a sub) s = None -> contains (String a sub) s = false.
Proof.
  induction s as [|c s IH]; [reflexivity |].
  cbn [after_last contains].
  destruct (after_last (String a sub) s); [discriminate |].
  destruct (prefix (String a sub) (String c s)); [discriminate |].
  intros _; now rewrite IH.
Qed.

Lemma after_last_clean (a : ascii) (sub s t : string) :
  after_last (String a sub) s = Some t -> contains (String a sub) t = false.
Proof.
  revert t; induction s as [|c s IH]; intros t; [discriminate |].
  cbn [after_last].
  destruct (after_last (String a sub) s) as [t' |] eqn:E.
  - intros [= <-]; now apply IH.
  - destruct (prefix (String a sub) (String c s)); [| discriminate].
    intros [= <-]; cbn [String.length drop].
    apply after_last_absent in E.
    destruct (contains (String a sub) (drop (String.length sub) s)) eqn:Hc;
      [| reflexivity].
    apply contains_drop in Hc; congruence.
Qed.

Lemma sub_think_unclosed (s : string) :
  contains "</think>" s = false -> AIEngine.sub_think 0 s = s.
Proof.
  induction s as [|c s IH]; [reflexivity |]; intros H.
  assert (Hs : contains "</think>" s = false).
  { cbn [contains] in H; now apply orb_false_iff in H as [_ H]. }
  cbn [AIEngine.sub_think].
  destruct (prefix "<think>" (String c s)); [| now rewrite IH].
  rewrite find_absent; [now rewrite IH |].
  destruct (contains "</think>" (drop 7 (String c s))) eqn:Hc;
    [| reflexivity].
  apply contains_drop in Hc; congruence.
Qed.

(** The cleaned answer has no white space around it and never contains
    the closing tag of a reasoning block.  An answer in which no
    reasoning block is closed is only trimmed; otherwise the cleaned
    answer is the trimmed text after the last closing tag. *)
Theorem clean_response_drops_reasoning (text : string) :
  exists s,
    AIEngine._clean_response (AIEngine.ContentText text) = AIEngine.Returns s
    /\ strip s = s
    /\ contains "</think>" s = false
    /\ (contains "</think>" text = false -> s = strip text)
    /\ (forall tail, after_last "</think>" text = Some tail -> s = strip tail).
Proof.
  cbn [AIEngine._clean_response].
  destruct text as [|c text]; [exists EmptyString; repeat split; discriminate |].
  cbn [truthy negb]; set (raw := String c text).
  destruct (contains "</think>" raw) eqn:Hc.
  - destruct (after_last "</think>" raw) as [tail |] eqn:Ha.
    + exists (strip tail); split; [reflexivity |].
      split; [apply strip_by_idem | split; [| split]].
      * destruct (contains "</think>" (strip tail)) eqn:Hs; [| reflexivity].
        apply contains_strip_by in Hs.
        apply after_last_clean in Ha; congruence.
      * discriminate.
      * now intros tail' [= <-].
    + apply after_last_absent in Ha; congruence.
  - exists (strip raw); rewrite (sub_think_unclosed raw Hc).
    split; [reflexivity |].
    split; [apply strip_by_idem | split; [| split]].
    + destruct (contains "</think>" (strip raw)) eqn:Hs; [| reflexivity].
      apply contains_strip_by in Hs; congruence.
    + reflexivity.
    + intros tail Ha.
      apply find_absent in Hc.
      assert (Hn : after_last "</think>" raw = None).
      { clear - Hc; induction raw as [|d r IH]; [reflexivity |].
        cbn [find] in Hc; cbn [after_last].
        destruct (prefix "</think>" (String d r)); [discriminate |].
        destruct (find "</think>" r); [discriminate |].
        now rewrite IH. }
      congruence.
Qed.

Open Scope list_scope.

(** the witness: an answer that opens with a reasoning block *)
Lemma clean_response_witness :
  AIEngine._clean_response
    (AIEngine.ContentText "<think>greet briefly</think> Hello, I'm Alex.")
  = AIEngine.Returns "Hello, I'm Alex.".
Proof.
  destruct (clean_response_drops_reasoning
              "<think>greet briefly</think> Hello, I'm Alex.")
    as (s & Hs & _ & _ & _ & Ht).
  rewrite Hs, (Ht " Hello, I'm Alex." eq_refl); reflexivity.
Defined.

(* ================================================================== *)
(** * The parser on a delimited answer *)

Close Scope list_scope.

(** ** A pattern cannot match across a character it does not contain *)

Lemma prefix_boundary (p t : string) (d : ascii) (x : string) :
  (forall a, In a (list_ascii_of_string p) -> a <> d) ->
  prefix p (t ++ String d x) = true -> prefix p t = true.
Proof.
  revert t; induction p as [|a p IH]; intros t Hd H.
  - now destruct t.
  - destruct t as [|c t]; cbn in H |- *.
    + destruct (ascii_dec a d) as [e | _]; [| discriminate H].
      exfalso; apply (Hd a); [now left | exact e].
    + destruct (ascii_dec a c); [| discriminate H].
      apply IH; [| exact H].
      intros b Hb; apply Hd; now right.
Qed.

Lemma lit_ci_boundary (lit t : string) (d : ascii) (x r : string) :
  (forall a, In a (list_ascii_of_string lit) ->
             lower_char a <> lower_char d) ->
  Re.lit_ci lit (t ++ String d x) = Some r ->
  prefix (lower lit) (lower t) = true.
Proof.
  revert t; induction lit as [|a lit IH]; intros t Hd H.
  - now destruct t.
  - destruct t as [|c t]; cbn [append Re.lit_ci] in H.
    + destruct (Ascii.eqb (lower_char a) (lower_char d)) eqn:E;
        [| discriminate H].
      apply Ascii.eqb_eq in E; exfalso; apply (Hd a); [now left | exact E].
    + destruct (Ascii.eqb (lower_char a) (lower_char c)) eqn:E;
        [| discriminate H].
      apply Ascii.eqb_eq in E; unfold lower; cbn [smap prefix]; rewrite E.
      destruct (ascii_dec (lower_char c) (lower_char c)) as [_ | n];
        [| now contradiction n].
      apply IH; [| exact H].
      intros b Hb; apply Hd; now right.
Qed.

(** a label does not start anywhere in a field that does not contain it,
    when the field is followed by a character foreign to the label *)
Lemma lit_ci_absent (lit t1 t2 : string) (d : ascii) (x : string) :
  (forall a, In a (list_ascii_of_string lit) ->
             lower_char a <> lower_char d) ->
  contains (lower lit) (lower (t1 ++ t2)) = false ->
  Re.lit_ci lit (t2 ++ String d x) = None.
Proof.
  intros Hd Hc; destruct (Re.lit_ci lit (t2 ++ String d x)) eqn:E;
    [| reflexivity].
  apply lit_ci_boundary in E; [| exact Hd].
  apply contains_of_prefix in E.
  apply (contains_app_r _ (lower t1)) in E.
  unfold lower in *; rewrite smap_app in Hc; congruence.
Qed.

(** ** Searching past a field *)

Lemma search_skip {A} (m : string -> option A) (t : string) (d : ascii)
                  (x : string) :
  (forall t1 t2, t = t1 ++ t2 -> m (t2 ++ String d x) = None) ->
  Re.search m (t ++ String d x) = Re.search m (String d x).
Proof.
  induction t as [|c t IH]; intros Hm; [reflexivity |].
  cbn [append Re.search].
  pose proof (Hm EmptyString (String c t) eq_refl) as H0.
  cbn [append] in H0; rewrite H0.
  apply IH; intros t1 t2 ->; apply (Hm (String c t1) t2); reflexivity.
Qed.

Lemma search_step {A} (m : string -> option A) (c : ascii) (s : string) :
  m (String c s) = None -> Re.search m (String c s) = Re.search m s.
Proof. intros H; cbn [Re.search]; now rewrite H. Qed.

Lemma search_found {A} (m : string -> option A) (s : string) (g : A) :
  m s = Some g -> Re.search m s = Some g.
Proof. intros H; destruct s; cbn [Re.search]; now rewrite H. Qed.

Lemma at_end_long (c d : ascii) (s : string) :
  Re.at_end (String c (String d s)) = false.
Proof.
  unfold Re.at_end, nl; cbn; destruct (Ascii.eqb c _); reflexivity.
Qed.

Lemma append_nonempty (a : string) (d : ascii) (x : string) :
  exists c s, a ++ String d x = String c s.
Proof. destruct a as [|c a]; eexists; eexists; reflexivity. Qed.

(** ** The lazy groups of the three patterns *)

Lemma lazy_star_until {stop : string -> bool} (t : string) (d : ascii)
                      (x g : string) :
  (forall t1 t2 c, t = t1 ++ String c t2 ->
                   stop (String c t2 ++ String d x) = false) ->
  Re.lazy_star stop (String d x) = Some g ->
  Re.lazy_star stop (t ++ String d x) = Some (t ++ g).
Proof.
  induction t as [|c t IH]; intros Hs Hg; [exact Hg |].
  cbn [append Re.lazy_star].
  pose proof (Hs EmptyString t c eq_refl) as H0; cbn [append] in H0.
  rewrite H0, IH; [reflexivity | | exact Hg].
  intros t1 t2 c' ->; apply (Hs (String c t1) t2 c'); reflexivity.
Qed.

Lemma rstrip_by_tail (p : ascii -> bool) (c d : ascii) (s : string) :
  rstrip_by p (String c (String d s)) = String c (String d s) ->
  rstrip_by p (String d s) = String d s.
Proof.
  intros H.
  change (rstrip_by p (String c (String d s)))
    with (match rstrip_by p (String d s) with
          | EmptyString => if p c then EmptyString else String c EmptyString
          | String e r => String c (String e r)
          end) in H.
  destruct (rstrip_by p (String d s)) as [|e r].
  - destruct (p c); discriminate H.
  - injection H as -> ->; reflexivity.
Qed.

Lemma lazy_star_to_end (c : ascii) (s : string) :
  rstrip (String c s) = String c s ->
  Re.lazy_star Re.at_end s = Some s.
Proof.
  revert c; induction s as [|d s IH]; intros c H; [reflexivity |].
  assert (Hd : rstrip (String d s) = String d s)
    by exact (rstrip_by_tail is_space c d s H).
  cbn [Re.lazy_star].
  destruct s as [|e s].
  - unfold rstrip in Hd; cbn in Hd.
    destruct (is_space d) eqn:Es; [discriminate Hd |].
    assert (Hn : Re.at_end (String d EmptyString) = false).
    { unfold Re.at_end, nl; cbn.
      destruct (Ascii.eqb d "010"%char) eqn:E; [| reflexivity].
      apply Ascii.eqb_eq in E; subst d; discriminate Es. }
    rewrite Hn; reflexivity.
  - rewrite at_end_long, (IH d Hd); reflexivity.
Qed.

Open Scope list_scope.

Close Scope list_scope.

Lemma strip_head_nonspace (c : ascii) (s : string) :
  strip (String c s) = String c s -> is_space c = false.
Proof.
  unfold strip, strip_by; intros H.
  pose proof (lstrip_by_head is_space (String c s)) as Hh.
  destruct (lstrip_by is_space (String c s)) as [|e y]; [discriminate H |].
  destruct (rstrip_by_keeps_head is_space e y Hh) as [r Hr].
  rewrite Hr in H; injection H as -> _; exact Hh.
Qed.

Lemma strip_fixed_rstrip (s : string) : strip s = s -> rstrip s = s.
Proof.
  intros H; rewrite <- H at 1; unfold strip, strip_by, rstrip.
  rewrite rstrip_by_idem; exact H.
Qed.

Lemma rstrip_app_nonspace (a b : string) :
  rstrip b <> EmptyString -> rstrip (a ++ b) = a ++ rstrip b.
Proof.
  intros Hb; induction a as [|c a IH]; [reflexivity |].
  unfold rstrip in *; cbn [append rstrip_by]; rewrite IH.
  destruct (a ++ rstrip_by is_space b) eqn:E; [| reflexivity].
  destruct a; [now contradiction Hb | discriminate E].
Qed.

Lemma replace_skip (old new t : string) (d : ascii) (x : string) :
  (forall a, In a (list_ascii_of_string old) -> a <> d) ->
  contains old t = false ->
  replace old new (t ++ String d x) = t ++ replace old new (String d x).
Proof.
  unfold replace; intros Hd; induction t as [|c t IH]; intros Hc;
    [reflexivity |].
  cbn [contains] in Hc; apply orb_false_iff in Hc as [Hp Hc].
  cbn [append replace_from].
  destruct (prefix old (String c (t ++ String d x))) eqn:E.
  - apply (prefix_boundary old (String c t) d x Hd) in E; congruence.
  - now rewrite IH.
Qed.

Ltac foreign_chars :=
  let a := fresh "a" in
  let Ha := fresh "Ha" in
  intros a Ha; cbn in Ha;
  repeat (destruct Ha as [<- | Ha]; [vm_compute; discriminate |]);
  contradiction.

Section Delimited.

Variables title text verbal : string.

Hypothesis title_plain : plain_text title.
Hypothesis title_unlabelled : unlabelled title.
Hypothesis title_unquoted : unquoted title.
Hypothesis text_plain : plain_text text.
Hypothesis text_unlabelled : unlabelled text.
Hypothesis verbal_plain : plain_text verbal.

Lemma no_label_in_field (field lit t1 t2 : string) (x : string) :
  unlabelled field -> In (lower lit) section_labels ->
  (forall a, In a (list_ascii_of_string lit) ->
             lower_char a <> lower_char (ascii_of_nat 10)) ->
  field = t1 ++ t2 ->
  Re.lit_ci lit (t2 ++ String (ascii_of_nat 10) x) = None.
Proof.
  intros Hu Hin Hd ->; apply (lit_ci_absent lit t1 t2); [exact Hd |].
  now apply Hu.
Qed.

Lemma not_at_end_inside (c : ascii) (t2 : string) (d : ascii) (x : string) :
  Re.at_end (String c t2 ++ String d x) = false.
Proof. destruct t2; apply at_end_long. Qed.

Lemma no_dash_in_field (field t1 t2 : string) (c : ascii) (x : string) :
  contains "---" field = false -> field = t1 ++ String c t2 ->
  prefix "---" (String c t2 ++ String (ascii_of_nat 10) x) = false.
Proof.
  intros Hc ->.
  destruct (prefix "---" (String c t2 ++ String (ascii_of_nat 10) x)) eqn:E;
    [| reflexivity].
  apply prefix_boundary in E; [| foreign_chars].
  apply contains_of_prefix, (contains_app_r _ t1) in E; congruence.
Qed.

Lemma title_match_delimited :
  Re.title_match (delimited title text verbal) = Some (title ++ nl).
Proof.
  destruct title_plain as (Hne & Hs & Hd).
  destruct title as [|t0 t]; [now contradiction Hne |].
  pose proof (strip_head_nonspace t0 t Hs) as H0.
  unfold Re.title_match; apply search_found.
  change (Re.title_at (delimited (String t0 t) text verbal))
    with (Re.orelse
            (if is_space t0
             then Re.orelse
                    (Re.ws_star
                       (Re.lazy_plus
                          (fun s => prefix "---" s || Re.at_end s))
                       (t ++ String (ascii_of_nat 10) (after_title text verbal)))
                    (Re.lazy_plus
                       (fun s => prefix "---" s || Re.at_end s)
                       (String t0 (t ++ String (ascii_of_nat 10) (after_title text verbal))))
             else Re.lazy_plus
                    (fun s => prefix "---" s || Re.at_end s)
                    (String t0 (t ++ String (ascii_of_nat 10) (after_title text verbal))))
            (Re.lazy_plus
               (fun s => prefix "---" s || Re.at_end s)
               (String " " (String t0
                               (t ++ String (ascii_of_nat 10) (after_title text verbal)))))).
  rewrite H0; cbn [Re.lazy_plus].
  rewrite (lazy_star_until (stop := fun s => prefix "---" s || Re.at_end s)
             t (ascii_of_nat 10) (after_title text verbal) nl).
  - reflexivity.
  - intros t1 t2 c Ht.
    rewrite (no_dash_in_field (String t0 t) (String t0 t1) t2 c (after_title text verbal) Hd)
      by (now rewrite Ht).
    now rewrite not_at_end_inside.
  - reflexivity.
Qed.


Ltac skip_chars :=
  repeat (rewrite search_step by reflexivity).

Lemma text_match_delimited :
  Re.text_match (delimited title text verbal)
  = Some (text ++ nl ++ "---" ++ nl).
Proof.
  destruct text_plain as (Hne & Hs & Hd).
  unfold Re.text_match, delimited, nl; cbn [append]; skip_chars.
  rewrite search_skip.
  2:{ intros t1 t2 Ht; unfold Re.text_at.
      rewrite (no_label_in_field title "QUESTION_TEXT:" t1 t2);
        [reflexivity | exact title_unlabelled | cbn; auto | foreign_chars
        | exact Ht]. }
  skip_chars.
  destruct text as [|q0 q]; [now contradiction Hne |].
  pose proof (strip_head_nonspace q0 q Hs) as H0.
  apply search_found.
  set (stop := fun t => Re.is_some (Re.lit_ci "VERBAL:" t)
                        || Re.is_some (Re.lit_ci "EXPLANATION:" t)
                        || Re.at_end t).
  change (Re.text_at _)
    with (Re.orelse
            (if is_space q0
             then Re.orelse
                    (Re.ws_star (Re.lazy_plus stop)
                       (q ++ String (ascii_of_nat 10) (after_text verbal)))
                    (Re.lazy_plus stop
                       (String q0
                          (q ++ String (ascii_of_nat 10) (after_text verbal))))
             else Re.lazy_plus stop
                    (String q0
                       (q ++ String (ascii_of_nat 10) (after_text verbal))))
            (Re.lazy_plus stop
               (String " "
                  (String q0
                     (q ++ String (ascii_of_nat 10) (after_text verbal)))))).
  rewrite H0; cbn [Re.lazy_plus].
  rewrite (lazy_star_until (stop := stop) q (ascii_of_nat 10)
             (after_text verbal) (nl ++ "---" ++ nl)).
  - reflexivity.
  - intros t1 t2 c Ht; unfold stop.
    rewrite (no_label_in_field (String q0 q) "VERBAL:" (String q0 t1)
               (String c t2));
      [| exact text_unlabelled | cbn; auto | foreign_chars
       | now rewrite Ht].
    rewrite (no_label_in_field (String q0 q) "EXPLANATION:" (String q0 t1)
               (String c t2));
      [| exact text_unlabelled | cbn; auto 6 | foreign_chars
       | now rewrite Ht].
    now rewrite not_at_end_inside.
  - reflexivity.
Qed.

Lemma exp_at_absent (field t1 t2 : string) (x : string) :
  unlabelled field -> field = t1 ++ t2 ->
  Re.exp_at (t2 ++ String (ascii_of_nat 10) x) = None.
Proof.
  intros Hu Ht; unfold Re.exp_at.
  rewrite (no_label_in_field field "VERBAL:" t1 t2);
    [| exact Hu | cbn; auto | foreign_chars | exact Ht].
  rewrite (no_label_in_field field "EXPLANATION:" t1 t2);
    [| exact Hu | cbn; auto 6 | foreign_chars | exact Ht].
  reflexivity.
Qed.

Lemma exp_match_delimited :
  Re.exp_match (delimited title text verbal) = Some verbal.
Proof.
  destruct verbal_plain as (Hne & Hs & Hd).
  unfold Re.exp_match, delimited, nl; cbn [append]; skip_chars.
  rewrite search_skip
    by (intros t1 t2 Ht; exact (exp_at_absent title t1 t2 _
                                  title_unlabelled Ht)).
  skip_chars.
  rewrite search_skip
    by (intros t1 t2 Ht; exact (exp_at_absent text t1 t2 _
                                  text_unlabelled Ht)).
  skip_chars.
  destruct verbal as [|v0 v]; [now contradiction Hne |].
  pose proof (strip_head_nonspace v0 v Hs) as H0.
  apply search_found.
  change (Re.exp_at _)
    with (Re.orelse
            (Re.orelse
               (if is_space v0
                then Re.orelse
                       (Re.ws_star (Re.lazy_plus Re.at_end) v)
                       (Re.lazy_plus Re.at_end (String v0 v))
                else Re.lazy_plus Re.at_end (String v0 v))
               (Re.lazy_plus Re.at_end (String " " (String v0 v))))
            None).
  rewrite H0; cbn [Re.lazy_plus].
  rewrite (lazy_star_to_end v0 v (strip_fixed_rstrip _ Hs)).
  reflexivity.
Qed.

Lemma strip_trailing_space (s r : string) :
  s <> EmptyString -> strip s = s -> all_space r -> strip (s ++ r) = s.
Proof.
  intros Hne Hs Hr; destruct s as [|c w]; [now contradiction Hne |].
  apply (strip_padded EmptyString r c w);
    [apply all_space_nil | exact Hr | exact (strip_head_nonspace c w Hs)
    | exact (strip_fixed_rstrip _ Hs)].
Qed.

Lemma strip_app_nonspace (s b : string) :
  s <> EmptyString -> strip s = s -> rstrip b <> EmptyString ->
  strip (s ++ b) = s ++ rstrip b.
Proof.
  intros Hne Hs Hb; destruct s as [|c w]; [now contradiction Hne |].
  pose proof (strip_head_nonspace c w Hs) as H0.
  rewrite <- (rstrip_app_nonspace (String c w) b Hb).
  unfold strip, strip_by, rstrip; cbn [append lstrip_by]; now rewrite H0.
Qed.

Lemma all_space_nl : all_space nl.
Proof. intros c [<- | []]; reflexivity. Qed.

(** An answer in the delimited format is parsed back into its three
    sections, as they are: for a title, a question text and a spoken
    part that are not empty, have no white space around them and contain
    no "---", the title and the text containing no section label and the
    title no quote at either end. *)
Theorem parse_delimited_round_trip :
  _parse_question_response (Some (delimited title text verbal))
  = (title, text, verbal).
Proof.
  unfold _parse_question_response.
  change (negb (truthy (delimited title text verbal))) with false.
  cbv iota.
  rewrite title_match_delimited, text_match_delimited, exp_match_delimited.
  destruct title_plain as (Hne1 & Hs1 & Hd1).
  destruct text_plain as (Hne2 & Hs2 & Hd2).
  destruct verbal_plain as (Hne3 & Hs3 & Hd3).
  rewrite (strip_trailing_space title nl Hne1 Hs1 all_space_nl).
  assert (Hq : strip (text ++ nl ++ "---" ++ nl) = text ++ nl ++ "---").
  { apply (strip_app_nonspace text (nl ++ "---" ++ nl) Hne2 Hs2).
    discriminate. }
  rewrite Hq, Hs3.
  assert (Ht : truthy (text ++ nl ++ "---") = true).
  { destruct text; [now contradiction Hne2 | reflexivity]. }
  rewrite Ht; cbn [negb andb].
  unfold unquoted in title_unquoted; rewrite title_unquoted.
  rewrite (replace_absent "---" "" title Hd1), Hs1.
  rewrite (replace_absent "---" "" verbal Hd3), Hs3.
  change (text ++ nl ++ "---") with (text ++ String (ascii_of_nat 10) "---").
  rewrite (replace_skip "---" "" text (ascii_of_nat 10) "---")
    by (foreign_chars || exact Hd2).
  change (replace "---" "" (String (ascii_of_nat 10) "---")) with nl.
  rewrite (strip_trailing_space text nl Hne2 Hs2 all_space_nl).
  reflexivity.
Qed.

End Delimited.

Open Scope list_scope.

(** the witness: the question "Two Sum" *)
Lemma parse_delimited_witness :
  _parse_question_response
    (Some (delimited "Two Sum" "Find two numbers that add up to a target."
                     "The problem is in the editor."))
  = ("Two Sum", "Find two numbers that add up to a target.",
     "The problem is in the editor.").
Proof.
  apply parse_delimited_round_trip;
    try (repeat split; (discriminate || reflexivity));
    try (intros l Hl; cbn in Hl;
         repeat (destruct Hl as [<- | Hl]; [reflexivity |]);
         contradiction).
Defined.

(* ================================================================== *)
(** * Further properties of the worker *)

Section Shutdown.

Import Worker.

Variable ai : nat -> Prompt -> string.
Variable clock : nat -> Z.
Variable tts : bool.
Variable interrupted : Worker.Task -> Machine -> option (string * Machine).

Lemma tick_stopped (q : list Task) (r b : bool) (m : Machine)
                   (sg : list Signal) (mk : list Mark) :
  tick ai clock tts interrupted (mkW q r b Stopped m sg mk)
  = mkW q r b Stopped m sg mk.
Proof. reflexivity. Qed.

Lemma stopped_exec (l : Label) (w : W) :
  pc w = Stopped ->
  pc (exec ai clock tts interrupted l w) = Stopped
  /\ began (marks (exec ai clock tts interrupted l w)) = began (marks w)
  /\ machine (exec ai clock tts interrupted l w) = machine w
  /\ signals (exec ai clock tts interrupted l w) = signals w.
Proof.
  intros Hp; destruct w as [q r b p m sg mk]; cbn [pc] in Hp; subst p.
  destruct l as [task | |]; cbn [exec queue_action stop pc marks machine
                                 signals task_queue running is_busy].
  - rewrite began_app; cbn; rewrite app_nil_r; repeat split.
  - repeat split.
  - rewrite tick_stopped; repeat split.
Qed.

Lemma stopped_run (schedule : list Label) (w : W) :
  pc w = Stopped ->
  pc (run ai clock tts interrupted schedule w) = Stopped
  /\ began (marks (run ai clock tts interrupted schedule w)) = began (marks w)
  /\ machine (run ai clock tts interrupted schedule w) = machine w
  /\ signals (run ai clock tts interrupted schedule w) = signals w.
Proof.
  revert w; induction schedule as [|l schedule IH]; intros w Hp;
    [repeat split; exact Hp |].
  cbn [run fold_left].
  destruct (stopped_exec l w Hp) as (H1 & H2 & H3 & H4).
  destruct (IH _ H1) as (H1' & H2' & H3' & H4').
  unfold run in *; repeat split; congruence.
Qed.

Lemma begun_between_refl (w : W) : begun_between w w.
Proof.
  exists [], []; cbn [app List.length]; rewrite !app_nil_r.
  split; [reflexivity | split; [reflexivity | lia]].
Qed.

Lemma begun_between_trans (a b c : W) :
  begun_between a b -> begun_between b c -> begun_between a c.
Proof.
  intros (d1 & x1 & Hb1 & Hh1 & Hl1) (d2 & x2 & Hb2 & Hh2 & Hl2).
  exists (d1 ++ d2), (x1 ++ x2); split; [| split].
  - now rewrite Hb2, Hb1, app_assoc.
  - now rewrite <- app_assoc, Hh2, !app_assoc, Hh1.
  - rewrite length_app; lia.
Qed.

(** a step of the loop once [running] is false *)
Lemma halting_tick (w : W) :
  running w = false -> worker_invariant w ->
  statements_left (pc (tick ai clock tts interrupted w))
  <= statements_left (pc w) - 1
  /\ begun_between w (tick ai clock tts interrupted w).
Proof.
  intros Hr (_ & _ & Hn & _); destruct w as [q r b p m sg mk].
  cbn [running pc task_queue] in *; subst r.
  unfold begun_between, in_hand.
  destruct p as [| | | t | t | t | | | | |].
  - rewrite tick_while; cbn [pc marks statements_left may_pop].
    split; [lia |]; exists [], []; cbn; rewrite app_nil_r; repeat split; lia.
  - rewrite tick_test; cbn [pc marks].
    split; [destruct (truthy_list q && negb b); cbn; lia |].
    exists [], []; rewrite app_nil_r.
    destruct (truthy_list q && negb b); cbn; repeat split; lia.
  - destruct q as [|t rest]; [now contradiction (Hn eq_refl) |].
    rewrite tick_pop; cbn [pc marks statements_left may_pop].
    split; [lia |]; exists [], [t]; cbn; rewrite app_nil_r; repeat split; lia.
  - rewrite tick_set_busy; cbn [pc marks statements_left may_pop].
    split; [lia |]; exists [], []; cbn; rewrite app_nil_r; repeat split; lia.
  - rewrite tick_dispatch; cbn [pc marks statements_left may_pop].
    split; [lia |]; exists [t], []; rewrite began_app; cbn; repeat split; lia.
  - rewrite tick_process; cbn [pc marks statements_left may_pop].
    split; [lia |]; exists [], []; rewrite began_app; cbn; repeat split; lia.
  - rewrite tick_clear; cbn [pc marks statements_left may_pop].
    split; [lia |]; exists [], []; cbn; rewrite app_nil_r; repeat split; lia.
  - rewrite tick_complete; cbn [pc marks statements_left may_pop].
    split; [lia |]; exists [], []; rewrite began_app; cbn; repeat split; lia.
  - rewrite tick_sleep; cbn [pc marks statements_left may_pop].
    split; [lia |]; exists [], []; cbn; rewrite app_nil_r; repeat split; lia.
  - rewrite tick_stopped; cbn [pc marks statements_left may_pop].
    split; [lia |]; exists [], []; cbn; rewrite app_nil_r; repeat split; lia.
  - cbn [tick pc marks statements_left may_pop].
    split; [lia |]; exists [], []; cbn; rewrite app_nil_r; repeat split; lia.
Qed.

Lemma halting_run (during : list Label) (w : W) :
  running w = false -> worker_invariant w ->
  let w' := run ai clock tts interrupted during w in
  statements_left (pc w') <= statements_left (pc w) - ticks during
  /\ begun_between w w'.
Proof.
  revert w; induction during as [|l during IH]; intros w Hr Hw; cbv zeta.
  - cbn [run fold_left ticks filter List.length].
    split; [lia | apply begun_between_refl].
  - change (run ai clock tts interrupted (l :: during) w)
      with (run ai clock tts interrupted during
              (exec ai clock tts interrupted l w)).
    destruct l as [task | |]; cbn [exec].
    + destruct (IH (queue_action task w) Hr
                  (invariant_queue_action task w Hw)) as [H1 H2].
      split; [exact H1 |].
      refine (begun_between_trans _ _ _ _ H2).
      exists [], []; unfold queue_action, in_hand; cbn [marks pc].
      rewrite began_app; cbn; rewrite !app_nil_r; repeat split; lia.
    + destruct (IH (stop w) eq_refl (invariant_stop w Hw)) as [H1 H2].
      split; [exact H1 |].
      refine (begun_between_trans _ _ _ _ H2).
      exists [], []; unfold stop, in_hand; cbn [marks pc app List.length].
      rewrite !app_nil_r; repeat split; lia.
    + destruct (halting_tick w Hr Hw) as [H1 H2].
      assert (Hr' : running (tick ai clock tts interrupted w) = false).
      { clear - Hr; destruct w as [q r b p m sg mk].
        cbn [running] in Hr; subst r.
        destruct p; try reflexivity.
        - destruct q; reflexivity.
        - rewrite tick_process; reflexivity. }
      destruct (IH _ Hr' (invariant_tick ai clock tts interrupted w Hw))
        as [H3 H4].
      split; [| exact (begun_between_trans _ _ _ H2 H4)].
      unfold ticks in *; cbn [filter List.length]; lia.
Qed.

Lemma began_worker_marks (ms : list Mark) :
  began (worker_marks ms) = began ms.
Proof.
  induction ms as [|k ms IH]; [reflexivity |].
  destruct k; cbn [worker_marks filter began flat_map app];
    fold (worker_marks ms); fold (began ms); fold (began (worker_marks ms));
    now rewrite IH.
Qed.

(** Shutdown.  After [stop] the worker finishes the task it has in hand,
    if any, and begins at most one more: only when it already stands
    between the test of [running] and the pop.  Once it has run eight
    more of its statements, whatever is queued meanwhile, it has left
    the loop with the flag cleared; every task it began is finished and
    signalled complete, and the tasks queued and not begun are still in
    the queue.  From then on nothing is dispatched whatever is queued:
    the tasks begun, the state machine and the signals stay as they
    are. *)
Theorem stop_halts_the_worker
  (schedule during later : list Label) (m : Machine) :
  let w := run ai clock tts interrupted schedule (InterviewWorker m) in
  let halted := run ai clock tts interrupted (Stop :: during) w in
  (exists more,
     began (marks halted) = began (marks w) ++ more
     /\ List.length more <= List.length (in_hand w) + may_pop (pc w))
  /\ (8 <= ticks during ->
      pc halted = Stopped
      /\ is_busy halted = false
      /\ worker_marks (marks halted) = flat_map round (began (marks halted))
      /\ queued (marks halted) = began (marks halted) ++ task_queue halted
      /\ (exists extra,
            began (marks halted) = began (marks w) ++ in_hand w ++ extra
            /\ List.length extra <= may_pop (pc w))
      /\ pc (run ai clock tts interrupted later halted) = Stopped
      /\ began (marks (run ai clock tts interrupted later halted))
         = began (marks halted)
      /\ machine (run ai clock tts interrupted later halted)
         = machine halted
      /\ signals (run ai clock tts interrupted later halted)
         = signals halted).
Proof.
  cbv zeta.
  set (w := run ai clock tts interrupted schedule (InterviewWorker m)).
  assert (Hw : worker_invariant w)
    by exact (invariant_run ai clock tts interrupted schedule _
                (invariant_new m)).
  change (run ai clock tts interrupted (Stop :: during) w)
    with (run ai clock tts interrupted during (stop w)).
  destruct (halting_run during (stop w) eq_refl (invariant_stop w Hw))
    as [Hs (d & x & Hb & Hh & Hl)].
  change (pc (stop w)) with (pc w) in *.
  change (marks (stop w)) with (marks w) in *.
  change (in_hand (stop w)) with (in_hand w) in *.
  set (halted := run ai clock tts interrupted during (stop w)) in *.
  assert (Hi : worker_invariant halted)
    by exact (invariant_run ai clock tts interrupted during _
                (invariant_stop w Hw)).
  split.
  - exists d; split; [exact Hb |].
    apply (f_equal (@List.length Task)) in Hh.
    rewrite !length_app in Hh; lia.
  - intros Ht.
    assert (H0 : statements_left (pc halted) = 0).
    { assert (statements_left (pc w) <= 8) by (destruct (pc w); cbn; lia).
      lia. }
    destruct Hi as (Hq & Hbusy & _ & done & opened & Hm & Ho).
    assert (Hp : pc halted = Stopped).
    { destruct (pc halted); cbn in H0; try discriminate H0;
        [reflexivity | inversion Ho]. }
    rewrite Hp in Ho; inversion Ho; subst opened.
    rewrite app_nil_r in Hm.
    assert (Hd : began (marks halted) = done).
    { now rewrite <- began_worker_marks, Hm, began_rounds. }
    unfold in_hand in Hq, Hh at 1; rewrite Hp in Hq, Hh, Hl, Hbusy.
    cbn [app may_pop busy_at] in Hq, Hh, Hl, Hbusy; rewrite app_nil_r in Hh.
    split; [exact Hp | split; [exact Hbusy |]].
    split; [now rewrite Hd |].
    split; [exact Hq |].
    split; [exists x; split; [now rewrite Hb, Hh | lia] |].
    exact (stopped_run later _ Hp).
Qed.

(** What a task emits.  A task whose action is "start", "process", "hint"
    or "end" calls the state machine's method of that name; when the call
    raises, [error_occurred] with the exception's text is all that is
    emitted; otherwise nothing is emitted for an empty response, and for
    any other [response_ready] with exactly the state machine's
    response, followed by the two speaking signals when a speech engine
    is attached.  The interview state is left as the call leaves it.  A
    task with any other action emits nothing and leaves the state
    machine as it is. *)
Theorem process_task_signals (task : Task) (m : Machine) :
  let method :=
    if String.eqb (action task) "start" then start_interview ai clock
    else if String.eqb (action task) "process"
    then process_user_input ai clock (user_input task) (code task)
    else if String.eqb (action task) "hint" then request_hint ai clock
    else end_interview ai clock in
  (In (action task) known_actions ->
   (interrupted task m = None ->
    _process_task ai clock tts interrupted task m
    = (spoken tts (fst (method m)), snd (method m)))
   /\ (forall message m',
         interrupted task m = Some (message, m') ->
         _process_task ai clock tts interrupted task m
         = ([error_occurred message], m')))
  /\ (~ In (action task) known_actions ->
      _process_task ai clock tts interrupted task m = ([], m)).
Proof.
  cbv zeta; unfold _process_task, call, spoken, known_actions; cbn [In].
  destruct (String.eqb (action task) "start") eqn:E1;
    [| destruct (String.eqb (action task) "process") eqn:E2;
       [| destruct (String.eqb (action task) "hint") eqn:E3;
          [| destruct (String.eqb (action task) "end") eqn:E4]]].
  5: { apply String.eqb_neq in E1, E2, E3, E4.
       split; [intros [H | [H | [H | [H | []]]]]; congruence |].
       intros _; reflexivity. }
  all: split;
    [ intros _; split;
      [ intros -> | intros message m' ->; reflexivity ]
    | intros Hn; exfalso; apply Hn ].
  - destruct (start_interview ai clock m) as [r m1]; cbn [fst snd];
      now destruct (truthy r).
  - apply String.eqb_eq in E1; auto.
  - destruct (process_user_input ai clock (user_input task) (code task) m)
      as [r m1]; cbn [fst snd]; now destruct (truthy r).
  - apply String.eqb_eq in E2; auto.
  - destruct (request_hint ai clock m) as [r m1]; cbn [fst snd];
      now destruct (truthy r).
  - apply String.eqb_eq in E3; auto.
  - destruct (end_interview ai clock m) as [r m1]; cbn [fst snd];
      now destruct (truthy r).
  - apply String.eqb_eq in E4; auto 6.
Qed.

End Shutdown.

(** the shutdown of a worker that has passed the test of [running] with
    a task in its queue: the task is still served *)
Lemma stop_halts_the_worker_witness :
  Worker.pc
    (Worker.run plain_ai steady_clock true uninterrupted
       (Worker.Stop :: repeat Worker.Tick 8)
       (Worker.run plain_ai steady_clock true uninterrupted
          [Worker.QueueAction start_task; Worker.Tick]
          (Worker.InterviewWorker new_machine)))
  = Worker.Stopped.
Proof.
  refine (proj1 (proj2 (stop_halts_the_worker plain_ai steady_clock true
                          uninterrupted
                          [Worker.QueueAction start_task; Worker.Tick]
                          (repeat Worker.Tick 8) [] new_machine) _)).
  vm_compute; lia.
Defined.

Lemma process_task_witness :
  Worker._process_task plain_ai steady_clock true uninterrupted
    (Worker.mkTask "pause" "" "") new_machine
  = ([], new_machine).
Proof.
  apply (proj2 (process_task_signals plain_ai steady_clock true uninterrupted
                  (Worker.mkTask "pause" "" "") new_machine)).
  cbn; intros [H | [H | [H | [H | []]]]]; discriminate H.
Defined.

Example stop_during_a_task :
  Worker.began
    (Worker.marks
       (Worker.run plain_ai steady_clock true uninterrupted
          (Worker.Stop :: repeat Worker.Tick 8) busy_worker))
  = [start_task]
  /\ Worker.task_queue
       (Worker.run plain_ai steady_clock true uninterrupted
          (Worker.Stop :: repeat Worker.Tick 8) busy_worker)
     = [coding_task].
Proof. vm_compute; split; reflexivity. Qed.

Example stop_after_the_test :
  Worker.began
    (Worker.marks
       (Worker.run plain_ai steady_clock true uninterrupted
          ([Worker.QueueAction start_task; Worker.Tick; Worker.Stop]
             ++ repeat Worker.Tick 8)
          (Worker.InterviewWorker new_machine)))
  = [start_task].
Proof. vm_compute; reflexivity. Qed.

(** the witness for the hint level: the third hint of a question *)
Lemma give_hint_level_witness :
  Nat.min
    (hints (run_calls plain_ai steady_clock [CallHint; CallHint]
              first_question) + 1) 3
  = 3.
Proof.
  apply (proj1 (proj2 (give_hint_level_is_bounded plain_ai steady_clock
                         (run_calls plain_ai steady_clock
                            [CallHint; CallHint] first_question)))).
  vm_compute; lia.
Defined.
